(** * Taller5: a command-line book catalogue over a KeyDB/Redis store

  A shallow embedding of [Taller5.py] and the verification of its
  storage contract.

  Layout of the development:
  - [Text]    : the [str] methods the program calls ([strip], [isdigit],
                [int], [endswith], slices);
  - [Py]      : the Python values [json.loads] can hand back, and the
                [dict] operations used on them;
  - [Json]    : [json.dumps] and [json.loads];
  - [Store]   : the commands of the Redis client the program issues and
                an in-memory server answering them;
  - [Prog]    : programs as trees of effects ([input], [print], [uuid4],
                store commands, exceptions) and their execution;
  - the six functions of the program and the menu loop of [main], then
    the theorems.

  Text is [string]; a character stands for the code point of the same
  number (0..255). The bytes the store holds are identified with the
  text they decode to. *)

From Stdlib Require Import ZArith NArith Ascii String List Decimal DecimalFacts DecimalN DecimalString.
From stdpp Require Import base option list gmap strings.

Local Open Scope string_scope.
Local Open Scope Z_scope.
Local Open Scope list_scope.
Set Warnings "-register-all".

(* ===================================================================== *)
(** ** Text: the [str] methods used by the program *)
(* ===================================================================== *)

Module Text.

Definition code (c : ascii) : N := N_of_ascii c.

(** [str.strip] with no argument removes the characters for which
    [str.isspace] holds: U+0009..U+000D, U+001C..U+0020, U+0085 and
    U+00A0 in the range modelled. *)
Definition is_space (c : ascii) : bool :=
  let n := code c in
  ((9 <=? n) && (n <=? 13) || (28 <=? n) && (n <=? 32)
   || (n =? 133) || (n =? 160))%N.

Fixpoint lstrip (s : string) : string :=
  match s with
  | String c s' => if is_space c then lstrip s' else s
  | EmptyString => EmptyString
  end.

Fixpoint rstrip (s : string) : string :=
  match s with
  | String c s' =>
      match rstrip s' with
      | EmptyString => if is_space c then EmptyString else String c EmptyString
      | r => String c r
      end
  | EmptyString => EmptyString
  end.

Definition strip (s : string) : string := rstrip (lstrip s).

(** Truth value of a [str]: [not s] holds for the empty string only. *)
Definition is_empty (s : string) : bool :=
  match s with EmptyString => true | _ => false end.

(** The decimal digits, which [int] reads. *)
Definition decimal_of (c : ascii) : option (uint -> uint) :=
  match c with
  | "0"%char => Some D0 | "1"%char => Some D1 | "2"%char => Some D2
  | "3"%char => Some D3 | "4"%char => Some D4 | "5"%char => Some D5
  | "6"%char => Some D6 | "7"%char => Some D7 | "8"%char => Some D8
  | "9"%char => Some D9
  | _ => None
  end.

Definition is_decimal (c : ascii) : bool :=
  match decimal_of c with Some _ => true | None => false end.

(** [str.isdigit] accepts, besides the decimal digits, the characters
    that have a digit value without being decimal: the superscripts
    U+00B2, U+00B3 and U+00B9 in the range modelled. *)
Definition is_digit (c : ascii) : bool :=
  is_decimal c || (code c =? 178)%N || (code c =? 179)%N || (code c =? 185)%N.

Fixpoint all_chars (p : ascii -> bool) (s : string) : bool :=
  match s with
  | String c s' => p c && all_chars p s'
  | EmptyString => true
  end.

(** [s.isdigit()]: every character is a digit and there is at least one. *)
Definition isdigit (s : string) : bool :=
  negb (is_empty s) && all_chars is_digit s.

(** The digits of an integer literal as [int] reads it in base 10: runs
    of decimal digits, single underscores allowed between two digits. *)
Fixpoint int_digits (after_digit : bool) (s : string) : option uint :=
  match s with
  | EmptyString => if after_digit then Some Nil else None
  | String c s' =>
      if Ascii.eqb c "_" then
        if after_digit then
          match s' with
          | EmptyString => None
          | _ => int_digits false s'
          end
        else None
      else
        match decimal_of c with
        | Some d => d <$> int_digits true s'
        | None => None
        end
  end.

(** The number of digits [int] accepts in a decimal literal: the value
    [sys.int_max_str_digits] has when the program starts. *)
Definition int_max_str_digits : N := 4300.

(** The number the digits read stand for; [None], for [ValueError], when
    there are more digits than [int] accepts (every digit counts, the
    leading zeros too; the underscores and the sign do not). *)
Definition int_value (d : uint) : option Z :=
  if (N.of_nat (nb_digits d) <=? int_max_str_digits)%N
  then Some (Z.of_N (N.of_uint d))
  else None.

(** [int(s)] for a [str]; [None] stands for [ValueError]. Surrounding
    white space and one sign are accepted. *)
Definition py_int (s : string) : option Z :=
  match strip s with
  | String "-" s' => Z.opp <$> (int_digits false s' ≫= int_value)
  | String "+" s' => int_digits false s' ≫= int_value
  | s' => int_digits false s' ≫= int_value
  end.

(** [s.endswith(t)]: some tail of [s] is [t]. *)
Fixpoint endswith (s t : string) : bool :=
  if String.eqb s t then true
  else match s with
       | String _ s' => endswith s' t
       | EmptyString => false
       end.

(** [s[-n:]] for [n > 0]: the last [n] characters, all of [s] when it is
    shorter. *)
Definition last_chars (n : nat) (s : string) : string :=
  String.substring (String.length s - n) n s.

(** [s[:n]]: the first [n] characters. *)
Definition first_chars (n : nat) (s : string) : string :=
  String.substring 0 n s.

End Text.

(* ===================================================================== *)
(** ** Py: the values of the program *)
(* ===================================================================== *)

Module Py.

(** The values [json.loads] builds: [None], [bool], [int], [str], [list]
    and [dict] with [str] keys. A [dict] lists its items in insertion
    order. (JSON numbers with a fraction or an exponent become [float]s,
    which are not modelled; see [Json.result].) *)
Inductive value : Type :=
| PNone
| PBool (b : bool)
| PInt (z : Z)
| PStr (s : string)
| PList (l : list value)
| PDict (d : list (string * value)).

(** Truth value of an object: [not v] is [negb (truthy v)]. *)
Definition truthy (v : value) : bool :=
  match v with
  | PNone => false
  | PBool b => b
  | PInt z => negb (z =? 0)
  | PStr s => negb (Text.is_empty s)
  | PList l => match l with [] => false | _ => true end
  | PDict d => match d with [] => false | _ => true end
  end.

(** [d.get(k)] / the lookup of [d[k]] on the items of a [dict]. *)
Fixpoint dict_get (k : string) (d : list (string * value)) : option value :=
  match d with
  | [] => None
  | (k', v) :: d' => if String.eqb k' k then Some v else dict_get k d'
  end.

(** [d[k] = v]: an existing key keeps its place, a new one goes last. *)
Fixpoint dict_set (k : string) (v : value) (d : list (string * value))
  : list (string * value) :=
  match d with
  | [] => [(k, v)]
  | (k', v') :: d' =>
      if String.eqb k' k then (k', v) :: d' else (k', v') :: dict_set k v d'
  end.

(** [d.update(kwargs)] *)
Definition dict_update (kwargs d : list (string * value)) : list (string * value) :=
  fold_left (fun acc kv => dict_set kv.1 kv.2 acc) kwargs d.

End Py.

Export Py.

(* ===================================================================== *)
(** ** Json: [json.dumps] and [json.loads] *)
(* ===================================================================== *)

Module Json.

(** *** Encoding, with the defaults of [json.dumps]: [ensure_ascii=True],
    item separator [", "], key separator [": "]. *)

Definition dquote : ascii := ascii_of_N 34.

Definition hex_digit (n : N) : ascii :=
  if (n <? 10)%N then ascii_of_N (48 + n) else ascii_of_N (87 + n).

(** The escape of one character: the short forms of the encoder's table,
    the character itself when it is printable ASCII, [\u00xx] otherwise. *)
Definition escape_char (c : ascii) : string :=
  let n := Text.code c in
  if (n =? 34)%N then String "\" (String dquote EmptyString)
  else if (n =? 92)%N then "\\"
  else if (n =? 10)%N then "\n"
  else if (n =? 13)%N then "\r"
  else if (n =? 9)%N then "\t"
  else if (n =? 8)%N then "\b"
  else if (n =? 12)%N then "\f"
  else if ((32 <=? n) && (n <=? 126))%N then String c EmptyString
  else "\u00" +:+ String (hex_digit (n / 16)) (String (hex_digit (n mod 16)) EmptyString).

Fixpoint escape (s : string) : string :=
  match s with
  | EmptyString => EmptyString
  | String c s' => escape_char c +:+ escape s'
  end.

Definition dumps_str (s : string) : string :=
  String dquote (escape s +:+ String dquote EmptyString).

(** [repr] of an [int]. *)
Definition dumps_int (z : Z) : string :=
  match z with
  | Zneg p => String "-" (NilEmpty.string_of_uint (Pos.to_uint p))
  | _ => NilEmpty.string_of_uint (N.to_uint (Z.to_N z))
  end.

Fixpoint dumps (v : value) : string :=
  match v with
  | PNone => "null"
  | PBool true => "true"
  | PBool false => "false"
  | PInt z => dumps_int z
  | PStr s => dumps_str s
  | PList l => "[" +:+ String.concat ", " (map dumps l) +:+ "]"
  | PDict d =>
      "{" +:+ String.concat ", "
                (map (fun kv => dumps_str kv.1 +:+ ": " +:+ dumps kv.2) d) +:+ "}"
  end.

(** *** Decoding *)

(** What the decoder answers on a text: a value, [JSONDecodeError], or
    nothing, when Python's answer lies outside the values modelled here (a
    [float], a character above U+00FF). The limits of the interpreter on
    the digits of an integer and on the depth of nesting are left out of
    the decoder. *)
Inductive result (A : Type) : Type :=
| Ok (a : A)
| DecodeError
| Outside.
Arguments Ok {A} a.
Arguments DecodeError {A}.
Arguments Outside {A}.

#[global] Instance result_bind : MBind result := fun A B k r =>
  match r with
  | Ok a => k a
  | DecodeError => DecodeError
  | Outside => Outside
  end.

Definition is_ws (c : ascii) : bool :=
  let n := Text.code c in
  ((n =? 32) || (n =? 9) || (n =? 10) || (n =? 13))%N.

Fixpoint skip_ws (s : string) : string :=
  match s with
  | String c s' => if is_ws c then skip_ws s' else s
  | EmptyString => EmptyString
  end.

Definition hex_value (c : ascii) : option N :=
  let n := Text.code c in
  if ((48 <=? n) && (n <=? 57))%N then Some (n - 48)%N
  else if ((97 <=? n) && (n <=? 102))%N then Some (n - 87)%N
  else if ((65 <=? n) && (n <=? 70))%N then Some (n - 55)%N
  else None.

Definition hex4 (a b c d : ascii) : option N :=
  a' ← hex_value a; b' ← hex_value b; c' ← hex_value c; d' ← hex_value d;
  Some (((a' * 16 + b') * 16 + c') * 16 + d')%N.

(** The character a one-letter escape stands for. *)
Definition unescape (e : ascii) : option ascii :=
  if Ascii.eqb e dquote then Some dquote else
  match e with
  | "\"%char => Some "\"%char
  | "/"%char => Some "/"%char
  | "b"%char => Some (ascii_of_N 8)
  | "f"%char => Some (ascii_of_N 12)
  | "n"%char => Some (ascii_of_N 10)
  | "r"%char => Some (ascii_of_N 13)
  | "t"%char => Some (ascii_of_N 9)
  | _ => None
  end.

Definition cons_char (c : ascii) (r : result (string * string))
  : result (string * string) :=
  '(s, rest) ← r; Ok (String c s, rest).

(** [scanstring]: the text after an opening quote, up to the closing one
    ([strict] mode: a raw control character is an error). Returns the
    string and the text that follows it. *)
Fixpoint scanstring (s : string) : result (string * string) :=
  match s with
  | EmptyString => DecodeError
  | String c s' =>
      if Ascii.eqb c dquote then Ok (EmptyString, s')
      else if Ascii.eqb c "\" then
        match s' with
        | EmptyString => DecodeError
        | String e s'' =>
            if Ascii.eqb e "u" then
              match s'' with
              | String h1 (String h2 (String h3 (String h4 s3))) =>
                  match hex4 h1 h2 h3 h4 with
                  | Some n =>
                      if (n <? 256)%N then cons_char (ascii_of_N n) (scanstring s3)
                      else Outside
                  | None => DecodeError
                  end
              | _ => DecodeError
              end
            else
              match unescape e with
              | Some c' => cons_char c' (scanstring s'')
              | None => DecodeError
              end
        end
      else if (Text.code c <? 32)%N then DecodeError
      else cons_char c (scanstring s')
  end.

(** The longest run of decimal digits at the head of a text. *)
Fixpoint scan_digits (s : string) : uint * string :=
  match s with
  | String c s' =>
      match Text.decimal_of c with
      | Some d => let '(u, rest) := scan_digits s' in (d u, rest)
      | None => (Nil, s)
      end
  | EmptyString => (Nil, s)
  end.

Definition starts_with_digit (s : string) : bool :=
  match s with
  | String c _ => Text.is_decimal c
  | EmptyString => false
  end.

(** Does a fraction (a dot and a digit) or, failing that, an exponent (e
    or E, an optional sign, a digit) follow the integer part? *)
Definition float_follows (s : string) : bool :=
  match s with
  | String "."%char s' => starts_with_digit s'
  | String c s' =>
      if Ascii.eqb c "e" || Ascii.eqb c "E" then
        match s' with
        | String "+"%char s'' | String "-"%char s'' => starts_with_digit s''
        | _ => starts_with_digit s'
        end
      else false
  | EmptyString => false
  end.

(** The integer part at the head of a text: a single zero, or a run of
    digits that starts with a non-zero one. *)
Definition scan_intpart (s : string) : option (uint * string) :=
  match s with
  | String "0"%char s' => Some (D0 Nil, s')
  | String c _ => if Text.is_decimal c then Some (scan_digits s) else None
  | EmptyString => None
  end.

(** A number: an optional minus sign and an integer part; an [int] unless
    a fraction or an exponent follows. *)
Definition scan_number (neg : bool) (s : string) : result (value * string) :=
  match scan_intpart s with
  | Some (u, rest) =>
      if float_follows rest then Outside
      else Ok (PInt (if neg then - Z.of_N (N.of_uint u) else Z.of_N (N.of_uint u)), rest)
  | None => DecodeError
  end.

(** What follows [lit] at the head of [s], when [s] starts with [lit]. *)
Fixpoint after_prefix (lit s : string) : option string :=
  match lit with
  | EmptyString => Some s
  | String a lit' =>
      match s with
      | String b s' => if Ascii.eqb a b then after_prefix lit' s' else None
      | EmptyString => None
      end
  end.

(** One of the words [null], [true], [false]. *)
Definition literal (lit : string) (v : value) (s : string) : result (value * string) :=
  match after_prefix lit s with
  | Some rest => Ok (v, rest)
  | None => DecodeError
  end.

(** The words that stand for a [float]. *)
Definition is_literal (lit : string) (s : string) : bool :=
  match after_prefix lit s with Some _ => true | None => false end.

(** [scan_once]: one value at the head of the text. The recursion through
    arrays and objects is bounded by [fuel]; [loads] gives it more than the
    length of the text, and each call consumes a character. *)
Fixpoint scan_once (fuel : nat) (s : string) : result (value * string) :=
  match fuel with
  | O => Outside
  | S fuel =>
      match s with
      | EmptyString => DecodeError
      | String c s' =>
          if Ascii.eqb c dquote then
            '(str, rest) ← scanstring s'; Ok (PStr str, rest)
          else if Ascii.eqb c "{" then
            let s1 := skip_ws s' in
            match after_prefix "}" s1 with
            | Some rest => Ok (PDict [], rest)
            | None => parse_members fuel [] s1
            end
          else if Ascii.eqb c "[" then
            let s1 := skip_ws s' in
            match after_prefix "]" s1 with
            | Some rest => Ok (PList [], rest)
            | None => parse_elements fuel [] s1
            end
          else if Ascii.eqb c "n" then literal "null" PNone s
          else if Ascii.eqb c "t" then literal "true" (PBool true) s
          else if Ascii.eqb c "f" then literal "false" (PBool false) s
          else if Ascii.eqb c "N" then
            if is_literal "NaN" s then Outside else DecodeError
          else if Ascii.eqb c "I" then
            if is_literal "Infinity" s then Outside else DecodeError
          else if Ascii.eqb c "-" then
            if is_literal "-Infinity" s then Outside else scan_number true s'
          else scan_number false s
      end
  end

(** The members of an object, from a property name on; [acc] holds the
    items read so far (a repeated key keeps its place and takes the later
    value, as [dict(pairs)] does). *)
with parse_members (fuel : nat) (acc : list (string * value)) (s : string)
  : result (value * string) :=
  match fuel with
  | O => Outside
  | S fuel =>
      match s with
      | String c s' =>
          if Ascii.eqb c dquote then
            '(k, r1) ← scanstring s';
            match skip_ws r1 with
            | String ":"%char r2 =>
                '(v, r3) ← scan_once fuel (skip_ws r2);
                match skip_ws r3 with
                | String ","%char r4 => parse_members fuel (dict_set k v acc) (skip_ws r4)
                | String "}"%char r4 => Ok (PDict (dict_set k v acc), r4)
                | _ => DecodeError
                end
            | _ => DecodeError
            end
          else DecodeError
      | EmptyString => DecodeError
      end
  end

(** The elements of an array; [acc] holds the ones read so far, last
    first. *)
with parse_elements (fuel : nat) (acc : list value) (s : string)
  : result (value * string) :=
  match fuel with
  | O => Outside
  | S fuel =>
      '(v, r1) ← scan_once fuel s;
      match skip_ws r1 with
      | String ","%char r2 => parse_elements fuel (v :: acc) (skip_ws r2)
      | String "]"%char r2 => Ok (PList (rev (v :: acc)), r2)
      | _ => DecodeError
      end
  end.

(** [json.loads]: one value, white space allowed around it, nothing
    after. *)
Definition loads (s : string) : result value :=
  '(v, rest) ← scan_once (S (String.length s)) (skip_ws s);
  match skip_ws rest with
  | EmptyString => Ok v
  | _ => DecodeError
  end.

End Json.

(* ===================================================================== *)
(** ** Redis: the store commands the program issues *)
(* ===================================================================== *)

Module Redis.

(** What a key holds: a string, or a set. The members of a set are listed
    in the order in which [smembers], and the iteration over the Python
    [set] built from its reply, hand them out; no member is listed twice. *)
Inductive entry : Type :=
| EStr (v : string)
| ESet (members : list string).

(** The commands behind the client methods [set], [get], [mget], [sadd],
    [smembers], [srem] and [delete]. *)
Inductive command : Type :=
| SET (key v : string)
| GET (key : string)
| MGET (keys : list string)
| SADD (key member : string)
| SMEMBERS (key : string)
| SREM (key member : string)
| DEL (key : string).

(** What the client hands back: [True] for a [set] done, an [int], a value
    or [None], a list of those, the members of a set; or it raises
    [ResponseError]. *)
Inductive reply : Type :=
| ROk
| RInt (n : Z)
| RBulk (v : option string)
| RArray (vs : list (option string))
| RMembers (ms : list string)
| RError.

(** The keys a command names. *)
Definition keys_of (c : command) : list string :=
  match c with
  | SET k _ | GET k | SADD k _ | SMEMBERS k | SREM k _ | DEL k => [k]
  | MGET ks => ks
  end.

(** The commands that can change what the store holds. *)
Definition is_write (c : command) : bool :=
  match c with
  | SET _ _ | SADD _ _ | SREM _ _ | DEL _ => true
  | GET _ | MGET _ | SMEMBERS _ => false
  end.

Definition string_at (db : gmap string entry) (k : string) : option string :=
  match db !! k with
  | Some (EStr v) => Some v
  | _ => None
  end.

(** An in-memory server: one key space, a command on a key that holds the
    other kind of value is refused (WRONGTYPE), except [MGET], which
    answers nil for it, and [SET] and [DEL], which do not look at the kind.
    A set that loses its last member disappears. *)
Definition exec (db : gmap string entry) (c : command) : reply * gmap string entry :=
  match c with
  | SET k v => (ROk, <[k := EStr v]> db)
  | GET k =>
      match db !! k with
      | None => (RBulk None, db)
      | Some (EStr v) => (RBulk (Some v), db)
      | Some (ESet _) => (RError, db)
      end
  | MGET ks => (RArray (string_at db <$> ks), db)
  | SADD k m =>
      match db !! k with
      | None => (RInt 1, <[k := ESet [m]]> db)
      | Some (ESet ms) =>
          if decide (m ∈ ms) then (RInt 0, db)
          else (RInt 1, <[k := ESet (ms ++ [m])]> db)
      | Some (EStr _) => (RError, db)
      end
  | SMEMBERS k =>
      match db !! k with
      | None => (RMembers [], db)
      | Some (ESet ms) => (RMembers ms, db)
      | Some (EStr _) => (RError, db)
      end
  | SREM k m =>
      match db !! k with
      | None => (RInt 0, db)
      | Some (ESet ms) =>
          if decide (m ∈ ms) then
            match filter (λ x, x ≠ m) ms with
            | [] => (RInt 1, delete k db)
            | ms' => (RInt 1, <[k := ESet ms']> db)
            end
          else (RInt 0, db)
      | Some (EStr _) => (RError, db)
      end
  | DEL k =>
      match db !! k with
      | None => (RInt 0, db)
      | Some _ => (RInt 1, delete k db)
      end
  end.

End Redis.

Export Redis.

(* ===================================================================== *)
(** ** Programs: trees of effects *)
(* ===================================================================== *)

(** The exceptions, by the classes the handlers of the program tell apart:
    [except ValueError] takes [ValueError] and [JSONDecodeError] (a
    subclass), [except Exception] takes all of them.
    [ObjectError] stands for the [KeyError], [TypeError] or
    [AttributeError] of an operation on a decoded value that is not shaped
    like a book; [RedisError] for the errors of the client
    ([ResponseError], [DataError]). *)
Inductive exn : Type :=
| EOFError
| ValueError
| JSONDecodeError
| ObjectError
| RedisError.

Definition is_ValueError (e : exn) : bool :=
  match e with
  | ValueError | JSONDecodeError => true
  | _ => false
  end.

Definition is_Exception (e : exn) : bool := true.

(** The prompts of the [input] calls. *)
Inductive prompt : Type :=
| PromptTitulo      (* "Título: " *)
| PromptAutor       (* "Autor: " *)
| PromptAnio        (* "Año de Publicación (opcional): " *)
| PromptGenero      (* "Género: " *)
| PromptMarcar      (* "Ingresa los ÚLTIMOS 5 dígitos del ID para marcar como LEÍDO: " *)
| PromptEliminar.   (* "Ingresa los ÚLTIMOS 5 dígitos del ID para ELIMINAR: " *)

(** One row of the listing: the cells of the line printed for a book. The
    year cell is [None] where the program prints N/A. *)
Record fila : Type := Fila {
  fila_id : string;
  fila_titulo : string;
  fila_autor : string;
  fila_anio : option value;
  fila_leido : bool
}.

(** What the program writes to the terminal: one constructor for each
    [print] of the source, with the values its text interpolates. *)
Inductive message : Type :=
| Prompt (p : prompt)
| MsgAgregarNuevo                         (* "--- AGREGAR NUEVO LIBRO ---" *)
| MsgCamposVacios                         (* "Error: El título y el autor no pueden estar vacíos." *)
| MsgAnioNoValido                         (* "Advertencia: Año no válido. Se ignorará." *)
| MsgAgregado (titulo autor id5 : string) (* "Libro ... agregado exitosamente (ID: ...)." *)
| MsgErrorInsertar (e : exn)              (* "Error al insertar el libro en KeyDB/Redis: ..." *)
| MsgBibliotecaVacia                      (* "--- BIBLIOTECA VACÍA ---" *)
| MsgSinLibros                            (* "Aún no tienes libros registrados. ..." *)
| MsgEncabezado                           (* "--- MI BIBLIOTECA PERSONAL (KeyDB/Redis) ---" *)
| MsgColumnas                             (* the column titles *)
| MsgLinea                                (* "-" * 85 *)
| MsgFila (f : fila)                      (* one book *)
| MsgIdVacio                              (* "Error: El ID no puede estar vacío." *)
| MsgNoEncontrado (id_parcial : string)   (* "Advertencia: No se encontró un libro cuyo ID termine en ..." *)
| MsgYaLeido                              (* "Advertencia: El libro ya estaba marcado como leído." *)
| MsgMarcado (id_parcial : string) (titulo : value)   (* "... marcado como LEÍDO." *)
| MsgErrorActualizar (e : exn)            (* "Error al actualizar el libro: ..." *)
| MsgEliminado (id_parcial : string) (titulo : value) (* "... eliminado exitosamente." *)
| MsgNoSePudoEliminar                     (* "Advertencia: No se pudo eliminar la clave del libro." *)
| MsgErrorEliminar (e : exn).             (* "Error al eliminar el libro: ..." *)

(** A program: it returns, raises, leaves the model, or performs an effect
    and goes on with its answer. [Input] answers [None] at the end of the
    input. *)
Inductive prog (A : Type) : Type :=
| Ret (a : A)
| Raise (e : exn)
| Unmodelled
| Input (p : prompt) (k : option string -> prog A)
| Print (m : message) (k : prog A)
| Uuid4 (k : string -> prog A)
| Call (c : command) (k : reply -> prog A).
Arguments Ret {A} a.
Arguments Raise {A} e.
Arguments Unmodelled {A}.
Arguments Input {A} p k.
Arguments Print {A} m k.
Arguments Uuid4 {A} k.
Arguments Call {A} c k.

Fixpoint bind {A B} (p : prog A) (f : A -> prog B) : prog B :=
  match p with
  | Ret a => f a
  | Raise e => Raise e
  | Unmodelled => Unmodelled
  | Input pr k => Input pr (fun l => bind (k l) f)
  | Print m k => Print m (bind k f)
  | Uuid4 k => Uuid4 (fun u => bind (k u) f)
  | Call c k => Call c (fun r => bind (k r) f)
  end.

#[global] Instance prog_ret : MRet prog := @Ret.
#[global] Instance prog_bind : MBind prog := fun A B f p => bind p f.
#[global] Instance prog_fmap : FMap prog := fun A B f p => bind p (fun a => Ret (f a)).

(** [try: body except <class>: handler] *)
Fixpoint try_except {A} (body : prog A) (class : exn -> bool) (handler : exn -> prog A)
  : prog A :=
  match body with
  | Ret a => Ret a
  | Raise e => if class e then handler e else Raise e
  | Unmodelled => Unmodelled
  | Input pr k => Input pr (fun l => try_except (k l) class handler)
  | Print m k => Print m (try_except k class handler)
  | Uuid4 k => Uuid4 (fun u => try_except (k u) class handler)
  | Call c k => Call c (fun r => try_except (k r) class handler)
  end.

(** [input(prompt)]: the next line, [EOFError] when there is none. *)
Definition input (p : prompt) : prog string :=
  Input p (fun l => match l with Some l => Ret l | None => Raise EOFError end).
Definition print (m : message) : prog unit := Print m (Ret tt).
Definition uuid4 : prog string := Uuid4 Ret.

(** *** Running a program *)

(** How a run ends. *)
Inductive outcome (A : Type) : Type :=
| Returned (a : A)
| Uncaught (e : exn)
| NotModelled.
Arguments Returned {A} a.
Arguments Uncaught {A} e.
Arguments NotModelled {A}.

(** The surroundings of a run: the server with its state, the lines still
    to be typed, what was written to the terminal, the identifiers [uuid4]
    draws and how many were drawn, and the commands sent to the server
    with their replies. *)
Record world (S : Type) : Type := World {
  server : S;
  stdin : list string;
  stdout : list message;
  uuid_source : nat -> string;
  uuid_count : nat;
  trace : list (command * reply)
}.
Arguments World {S}.
Arguments server {S}.
Arguments stdin {S}.
Arguments stdout {S}.
Arguments uuid_source {S}.
Arguments uuid_count {S}.
Arguments trace {S}.

Definition write_out {S} (m : message) (w : world S) : world S :=
  World (server w) (stdin w) (stdout w ++ [m]) (uuid_source w) (uuid_count w) (trace w).

Definition read_line {S} (w : world S) : world S :=
  World (server w) (tail (stdin w)) (stdout w) (uuid_source w) (uuid_count w) (trace w).

Definition draw_uuid {S} (w : world S) : world S :=
  World (server w) (stdin w) (stdout w) (uuid_source w) (Datatypes.S (uuid_count w)) (trace w).

Definition answered {S} (s' : S) (c : command) (r : reply) (w : world S) : world S :=
  World s' (stdin w) (stdout w) (uuid_source w) (uuid_count w) (trace w ++ [(c, r)]).

(** [run serve p w]: the program [p] in the world [w], the server
    answering through [serve]. *)
Fixpoint run {S A} (serve : S -> command -> reply * S) (p : prog A) (w : world S)
  : outcome A * world S :=
  match p with
  | Ret a => (Returned a, w)
  | Raise e => (Uncaught e, w)
  | Unmodelled => (NotModelled, w)
  | Input pr k =>
      let w1 := write_out (Prompt pr) w in
      match stdin w with
      | [] => run serve (k None) w1
      | l :: _ => run serve (k (Some l)) (read_line w1)
      end
  | Print m k => run serve k (write_out m w)
  | Uuid4 k => run serve (k (uuid_source w (uuid_count w))) (draw_uuid w)
  | Call c k =>
      let '(r, s') := serve (server w) c in
      run serve (k r) (answered s' c r w)
  end.

(* ===================================================================== *)
(** ** The client *)
(* ===================================================================== *)

Definition KEY_PREFIX : string := "libro:".
Definition ALL_BOOKS_KEY : string := "libros:ids".

(** The client methods: each sends its command and reads the reply of the
    kind the command has; an error reply raises. *)
Definition redis_set (key v : string) : prog unit :=
  Call (SET key v) (fun r =>
    match r with ROk => Ret tt | RError => Raise RedisError | _ => Unmodelled end).

Definition redis_get (key : string) : prog (option string) :=
  Call (GET key) (fun r =>
    match r with RBulk v => Ret v | RError => Raise RedisError | _ => Unmodelled end).

Definition redis_mget (keys : list string) : prog (list (option string)) :=
  Call (MGET keys) (fun r =>
    match r with RArray vs => Ret vs | RError => Raise RedisError | _ => Unmodelled end).

Definition redis_sadd (key member : string) : prog Z :=
  Call (SADD key member) (fun r =>
    match r with RInt n => Ret n | RError => Raise RedisError | _ => Unmodelled end).

Definition redis_smembers (key : string) : prog (list string) :=
  Call (SMEMBERS key) (fun r =>
    match r with RMembers ms => Ret ms | RError => Raise RedisError | _ => Unmodelled end).

Definition redis_srem (key member : string) : prog Z :=
  Call (SREM key member) (fun r =>
    match r with RInt n => Ret n | RError => Raise RedisError | _ => Unmodelled end).

Definition redis_delete (key : string) : prog Z :=
  Call (DEL key) (fun r =>
    match r with RInt n => Ret n | RError => Raise RedisError | _ => Unmodelled end).

(** A value passed as an argument of a command: the client sends a [str]
    as it is and an [int] by its digits, and refuses the rest
    ([DataError]). *)
Definition redis_arg (v : value) : prog string :=
  match v with
  | PStr s => Ret s
  | PInt z => Ret (Json.dumps_int z)
  | _ => Raise RedisError
  end.

Definition json_loads (s : string) : prog value :=
  match Json.loads s with
  | Json.Ok v => Ret v
  | Json.DecodeError => Raise JSONDecodeError
  | Json.Outside => Unmodelled
  end.

(** [v[k]] for a [str] key [k]: [KeyError] on a [dict] without it,
    [TypeError] on any other value. *)
Definition py_item (v : value) (k : string) : prog value :=
  match v with
  | PDict d => match dict_get k d with Some x => Ret x | None => Raise ObjectError end
  | _ => Raise ObjectError
  end.

(** [v.get(k, default)]: [AttributeError] on a value that is no [dict]. *)
Definition py_get (v : value) (k : string) (default : value) : prog value :=
  match v with
  | PDict d => Ret (match dict_get k d with Some x => x | None => default end)
  | _ => Raise ObjectError
  end.

(* ===================================================================== *)
(** ** The functions of the program *)
(* ===================================================================== *)

(** The year typed by the user, lines 57-63: the line is read inside the
    [try], so is the conversion; [except ValueError] warns and drops the
    year. *)
Definition leer_anio : prog value :=
  try_except
    (anio ← input PromptAnio;
     if Text.isdigit anio then
       match Text.py_int anio with
       | Some z => Ret (PInt z)
       | None => Raise ValueError
       end
     else Ret PNone)
    is_ValueError
    (fun _ => print MsgAnioNoValido;; Ret PNone).

(** The [dict] built at lines 70-77. *)
Definition nuevo_libro (libro_id titulo autor : string) (anio : value) (genero : string)
  : value :=
  PDict [("id", PStr libro_id);
         ("titulo", PStr titulo);
         ("autor", PStr autor);
         ("anio_publicacion", anio);
         ("genero", if Text.is_empty genero then PNone else PStr genero);
         ("leido", PBool false)].

Definition agregar_libro : prog unit :=
  print MsgAgregarNuevo;;
  titulo ← Text.strip <$> input PromptTitulo;
  autor ← Text.strip <$> input PromptAutor;
  if Text.is_empty titulo || Text.is_empty autor then
    print MsgCamposVacios
  else
    anio ← leer_anio;
    genero ← Text.strip <$> input PromptGenero;
    libro_id ← uuid4;
    let libro := nuevo_libro libro_id titulo autor anio genero in
    try_except
      (let libro_json := Json.dumps libro in
       let key := KEY_PREFIX +:+ libro_id in
       redis_set key libro_json;;
       redis_sadd ALL_BOOKS_KEY libro_id;;
       print (MsgAgregado titulo autor (Text.last_chars 5 libro_id)))
      is_Exception
      (fun e => print (MsgErrorInsertar e)).

(** The result [(None, None)] is [None] here, [(libro, key)] is
    [Some (libro, key)]. *)
Definition buscar_libro_por_id_parcial (id_parcial : string)
  : prog (option (value * string)) :=
  all_ids ← redis_smembers ALL_BOOKS_KEY;
  match List.find (fun _id => Text.endswith _id id_parcial) all_ids with
  | None => Ret None
  | Some libro_id_completo =>
      if Text.is_empty libro_id_completo then Ret None
      else
        let key := KEY_PREFIX +:+ libro_id_completo in
        libro_json ← redis_get key;
        match libro_json with
        | Some j =>
            if Text.is_empty j then Ret None
            else libro ← json_loads j; Ret (Some (libro, key))
        | None => Ret None
        end
  end.

(** The loop of lines 126-129: every value that is there and not empty is
    decoded and appended to [libros]. *)
Fixpoint decodificar (libros_json_list : list (option string)) (libros : list value)
  : prog (list value) :=
  match libros_json_list with
  | [] => Ret libros
  | libro_json :: rest =>
      match libro_json with
      | Some j =>
          if Text.is_empty j then decodificar rest libros
          else libro ← json_loads j; decodificar rest (libros ++ [libro])
      | None => decodificar rest libros
      end
  end.

(** Lines 120-134 of [listar_libros]: the list [libros] once reversed. *)
Definition recuperar_libros : prog (list value) :=
  all_ids ← redis_smembers ALL_BOOKS_KEY;
  let all_keys := (fun id => KEY_PREFIX +:+ id) <$> all_ids in
  libros_json_list ← redis_mget all_keys;
  libros ← decodificar libros_json_list [];
  Ret (rev libros).

(** A sliced cell [v[-n:]] or [v[:n]] laid out in a column: a [str]; any
    other value raises at the slice or at the layout. *)
Definition celda (slice : string -> string) (v : value) : prog string :=
  match v with
  | PStr s => Ret (slice s)
  | _ => Raise ObjectError
  end.

(** The year cell: the value when it is true, N/A otherwise; a [list] or a
    [dict] cannot be laid out. *)
Definition celda_anio (v : value) : prog (option value) :=
  if truthy v then
    match v with
    | PList _ | PDict _ => Raise ObjectError
    | _ => Ret (Some v)
    end
  else Ret None.

(** Lines 147-150: the row of one book. *)
Definition fila_de (libro : value) : prog fila :=
  leido ← py_get libro "leido" (PBool false);
  id ← py_item libro "id";
  id_display ← celda (Text.last_chars 5) id;
  titulo ← py_item libro "titulo";
  titulo35 ← celda (Text.first_chars 35) titulo;
  autor ← py_item libro "autor";
  autor25 ← celda (Text.first_chars 25) autor;
  anio ← py_item libro "anio_publicacion";
  anio_display ← celda_anio anio;
  Ret (Fila id_display titulo35 autor25 anio_display (truthy leido)).

Fixpoint imprimir_filas (libros : list value) : prog unit :=
  match libros with
  | [] => Ret tt
  | libro :: rest =>
      f ← fila_de libro;
      print (MsgFila f);;
      imprimir_filas rest
  end.

Definition listar_libros : prog unit :=
  libros ← recuperar_libros;
  match libros with
  | [] =>
      print MsgBibliotecaVacia;;
      print MsgSinLibros
  | _ =>
      print MsgEncabezado;;
      print MsgColumnas;;
      print MsgLinea;;
      imprimir_filas libros;;
      print MsgLinea
  end.

(** [libro.update(kwargs)] changes the [dict] the caller holds: the
    updated [dict] is returned to it. *)
Definition actualizar_libro (libro : value) (key : string) (kwargs : list (string * value))
  : prog value :=
  match libro with
  | PDict d =>
      let libro := PDict (dict_update kwargs d) in
      let libro_json := Json.dumps libro in
      redis_set key libro_json;;
      Ret libro
  | _ => Raise ObjectError
  end.

Definition marcar_como_leido : prog unit :=
  listar_libros;;
  id_parcial ← Text.strip <$> input PromptMarcar;
  if Text.is_empty id_parcial then
    print MsgIdVacio
  else
    try_except
      (found ← buscar_libro_por_id_parcial id_parcial;
       match found with
       | None => print (MsgNoEncontrado id_parcial)
       | Some (libro, key) =>
           if negb (truthy libro) then print (MsgNoEncontrado id_parcial)
           else
             leido ← py_get libro "leido" (PBool false);
             if truthy leido then print MsgYaLeido
             else
               libro ← actualizar_libro libro key [("leido", PBool true)];
               titulo ← py_item libro "titulo";
               print (MsgMarcado id_parcial titulo)
       end)
      is_Exception
      (fun e => print (MsgErrorActualizar e)).

Definition eliminar_libro : prog unit :=
  listar_libros;;
  id_parcial ← Text.strip <$> input PromptEliminar;
  if Text.is_empty id_parcial then
    print MsgIdVacio
  else
    try_except
      (found ← buscar_libro_por_id_parcial id_parcial;
       match found with
       | None => print (MsgNoEncontrado id_parcial)
       | Some (libro, key) =>
           if negb (truthy libro) then print (MsgNoEncontrado id_parcial)
           else
             deleted_count ← redis_delete key;
             if 0 <? deleted_count then
               id ← py_item libro "id";
               member ← redis_arg id;
               redis_srem ALL_BOOKS_KEY member;;
               titulo ← py_item libro "titulo";
               print (MsgEliminado id_parcial titulo)
             else print MsgNoSePudoEliminar
       end)
      is_Exception
      (fun e => print (MsgErrorEliminar e)).

(* ===================================================================== *)
(** ** The menu loop *)
(* ===================================================================== *)

(** The lines [mostrar_menu] prints, lines 221-229. *)
Inductive menu_line : Type :=
| MenuMarcoInicial   (* an empty line, then "=" * 38 *)
| MenuTitulo         (* " ADMINISTRADOR DE BIBLIOTECA (KeyDB/Redis)" *)
| MenuMarco          (* "=" * 38 *)
| MenuAgregar        (* "1. Agregar nuevo libro" *)
| MenuListar         (* "2. Listar todos los libros" *)
| MenuMarcar         (* "3. Marcar libro como leído" *)
| MenuEliminar       (* "4. Eliminar libro por ID (últimos 5 dígitos)" *)
| MenuSalir          (* "5. Salir" *)
| MenuLinea.         (* "-" * 38 *)

Definition mostrar_menu : list menu_line :=
  [MenuMarcoInicial; MenuTitulo; MenuMarco; MenuAgregar; MenuListar; MenuMarcar;
   MenuEliminar; MenuSalir; MenuLinea].

(** What the terminal shows during a session: the messages of the
    operations, and between them what the loop of [main] writes and asks. *)
Inductive salida : Type :=
| DeOperacion (m : message)
| LineaMenu (l : menu_line)
| PreguntaOpcion       (* "Selecciona una opción (1-5): " *)
| MsgDespedida         (* "Gracias por usar la Biblioteca CLI con KeyDB/Redis." *)
| MsgOpcionNoValida    (* "Opción no válida. Por favor, selecciona un número entre 1 y 5." *)
| PreguntaContinuar    (* "Presiona Enter para continuar..." *)
| LimpiarPantalla.     (* os.system('cls' if os.name == 'nt' else 'clear') *)

(** A session: the world of the operations and the terminal. *)
Record sesion (S : Type) : Type := Sesion {
  mundo_en : world S;
  pantalla : list salida
}.
Arguments Sesion {S}.
Arguments mundo_en {S}.
Arguments pantalla {S}.

Definition mostrar {S} (l : list salida) (s : sesion S) : sesion S :=
  Sesion (mundo_en s) (pantalla s ++ l).

(** An [input] of the loop: the question is written, the next line is
    taken; [None] at the end of the input, where [input] raises
    [EOFError]. *)
Definition leer_linea {S} (pregunta : salida) (s : sesion S) : option string * sesion S :=
  match stdin (mundo_en s) with
  | [] => (None, mostrar [pregunta] s)
  | l :: _ => (Some l, Sesion (read_line (mundo_en s)) (pantalla s ++ [pregunta]))
  end.

(** An operation called from the loop: it runs in the world of the
    session, what it printed goes to the terminal. *)
Definition operar {S} (serve : S -> command -> reply * S) (p : prog unit) (s : sesion S)
  : outcome unit * sesion S :=
  let r := run serve p (mundo_en s) in
  (r.1,
   Sesion r.2
     (pantalla s ++ (DeOperacion <$> drop (length (stdout (mundo_en s))) (stdout r.2)))).

(** The branch of lines 236-248 the option typed selects. *)
Inductive accion : Type :=
| Ejecutar (p : prog unit)
| Salir
| NoValida.

Definition elegir (opcion : string) : accion :=
  if String.eqb opcion "1" then Ejecutar agregar_libro
  else if String.eqb opcion "2" then Ejecutar listar_libros
  else if String.eqb opcion "3" then Ejecutar marcar_como_leido
  else if String.eqb opcion "4" then Ejecutar eliminar_libro
  else if String.eqb opcion "5" then Salir
  else NoValida.

(** How [main] ends: it returns after option 5, or an exception no
    function caught leaves it; [EnCurso] when the turns allowed are used
    up with the loop still going. *)
Inductive fin : Type :=
| Termino
| Abortado (e : exn)
| FueraDelModelo
| EnCurso.

(** One turn of the loop of [main], lines 233-251: [EnCurso] when the
    loop goes on after it. *)
Definition vuelta {S} (serve : S -> command -> reply * S) (s : sesion S) : fin * sesion S :=
  let s := mostrar (LineaMenu <$> mostrar_menu) s in
  match leer_linea PreguntaOpcion s with
  | (None, s) => (Abortado EOFError, s)
  | (Some l, s) =>
      let opcion := Text.strip l in
      match elegir opcion with
      | Salir => (Termino, mostrar [MsgDespedida] s)
      | a =>
          let '(o, s) :=
            match a with
            | Ejecutar p => operar serve p s
            | _ => (Returned tt, mostrar [MsgOpcionNoValida] s)
            end in
          match o with
          | Returned _ =>
              match leer_linea PreguntaContinuar s with
              | (None, s) => (Abortado EOFError, s)
              | (Some _, s) => (EnCurso, mostrar [LimpiarPantalla] s)
              end
          | Uncaught e => (Abortado e, s)
          | NotModelled => (FueraDelModelo, s)
          end
      end
  end.

(** [main], the loop [while True], for at most [vueltas] turns. *)
Fixpoint main {S} (serve : S -> command -> reply * S) (vueltas : nat) (s : sesion S)
  : fin * sesion S :=
  match vueltas with
  | O => (EnCurso, s)
  | Datatypes.S vueltas =>
      match vuelta serve s with
      | (EnCurso, s) => main serve vueltas s
      | r => r
      end
  end.

(** A session that starts in the world [w] with an empty terminal. *)
Definition sesion_en {S} (w : world S) : sesion S := Sesion w [].

(** The commands sent during a session. *)
Definition enviados {S} (serve : S -> command -> reply * S) (n : nat) (s : sesion S)
  : list (command * reply) :=
  drop (length (trace (mundo_en s))) (trace (mundo_en (main serve n s).2)).

(* ===================================================================== *)
(** ** Book records and the contents of the store *)
(* ===================================================================== *)

(** A book as [agregar_libro] builds it at lines 70-77: the six fields of
    the [dict], the year and the genre absent ([None]) or present. *)
Record libro : Type := Libro {
  libro_id : string;
  libro_titulo : string;
  libro_autor : string;
  libro_anio : option Z;
  libro_genero : option string;
  libro_leido : bool
}.

(** The [dict] of a book, its items in the order of the source. *)
Definition libro_dict (b : libro) : value :=
  PDict [("id", PStr (libro_id b));
         ("titulo", PStr (libro_titulo b));
         ("autor", PStr (libro_autor b));
         ("anio_publicacion", match libro_anio b with Some z => PInt z | None => PNone end);
         ("genero", match libro_genero b with Some g => PStr g | None => PNone end);
         ("leido", PBool (libro_leido b))].

(** The book with its [leido] flag set. *)
Definition leido_true (b : libro) : libro :=
  Libro (libro_id b) (libro_titulo b) (libro_autor b) (libro_anio b) (libro_genero b) true.

(** The key of the book with identifier [id], as lines 82 and 108 build it. *)
Definition libro_key (id : string) : string := KEY_PREFIX +:+ id.

(** The members of the index set, in retrieval order. *)
Definition indexed (db : gmap string entry) : list string :=
  match db !! ALL_BOOKS_KEY with
  | Some (ESet ms) => ms
  | _ => []
  end.

(** The book [b] is stored: its identifier is in the index set and its key
    holds its encoding. *)
Definition stored (db : gmap string entry) (b : libro) : Prop :=
  libro_id b ∈ indexed db ∧
  db !! libro_key (libro_id b) = Some (EStr (Json.dumps (libro_dict b))).

(** The store holds books only: the index key holds a set or nothing, no
    identifier is empty, and the key of an indexed identifier holds
    nothing or the encoding of a book with that identifier. *)
Definition consistent (db : gmap string entry) : Prop :=
  (∀ v, db !! ALL_BOOKS_KEY ≠ Some (EStr v)) ∧
  ∀ id, id ∈ indexed db →
    id ≠ EmptyString ∧
    (db !! libro_key id = None ∨
     ∃ b, libro_id b = id ∧ db !! libro_key id = Some (EStr (Json.dumps (libro_dict b)))).

(** [id] ends with [sfx]. *)
Definition ends_with (id sfx : string) : Prop := ∃ p, id = p +:+ sfx.

(** [id] is the first of [ms] that ends with [sfx]. *)
Definition first_match (sfx : string) (ms : list string) (id : string) : Prop :=
  ∃ pre post, ms = (pre ++ id :: post)%list ∧ ends_with id sfx ∧
              ∀ x, x ∈ pre → ¬ ends_with x sfx.

(** The commands a run sends, with their replies. *)
Definition issued {S A} (serve : S -> command -> reply * S) (p : prog A) (w : world S)
  : list (command * reply) :=
  drop (length (trace w)) (trace (run serve p w).2).

(** Every key named in the trace [t] is [index] or starts with [prefix]. *)
Definition keys_within (prefix index : string) (t : list (command * reply)) : Prop :=
  ∀ c r k, (c, r) ∈ t → k ∈ keys_of c → k = index ∨ ∃ id, k = prefix +:+ id.

(** No command of the trace [t] can change the store. *)
Definition reads_only (t : list (command * reply)) : Prop :=
  ∀ c r, (c, r) ∈ t → is_write c = false.

(** A program whose store commands all satisfy [calls], which reads input
    only if [inputs] holds and draws identifiers only if [uuids] holds, and
    whose result satisfies [result], whatever the answers it gets. *)
Fixpoint confined {A} (calls : command -> Prop) (inputs uuids : Prop)
    (result : A -> Prop) (p : prog A) : Prop :=
  match p with
  | Ret a => result a
  | Raise _ | Unmodelled => True
  | Input _ k => inputs ∧ ∀ l, confined calls inputs uuids result (k l)
  | Print _ k => confined calls inputs uuids result k
  | Uuid4 k => uuids ∧ ∀ u, confined calls inputs uuids result (k u)
  | Call c k => calls c ∧ ∀ r, confined calls inputs uuids result (k r)
  end.

(* ===================================================================== *)
(** ** Definitions used by the statements and proofs *)
(* ===================================================================== *)

(** The year the record gets for the line [y] typed at the year prompt:
    what [leer_anio] returns. *)
Definition anio_de (y : string) : value :=
  if Text.isdigit y then
    match Text.py_int y with Some z => PInt z | None => PNone end
  else PNone.

(** The book [agregar_libro] builds from the identifier drawn and the
    fields read: the record of [nuevo_libro]. *)
Definition libro_nuevo (libro_id titulo autor : string) (anio : value) (genero : string)
  : libro :=
  Libro libro_id titulo autor
    (match anio with PInt z => Some z | _ => None end)
    (if Text.is_empty genero then None else Some genero)
    false.

(** The values present under the keys of the indexed identifiers, in
    retrieval order. *)
Definition presentes (db : gmap string entry) : list string :=
  omap (λ id, string_at db (libro_key id)) (indexed db).

(** What [listar_libros] prints for the rows [filas]. *)
Definition listado (filas : list fila) : list message :=
  match filas with
  | [] => [MsgBibliotecaVacia; MsgSinLibros]
  | _ => [MsgEncabezado; MsgColumnas; MsgLinea] ++ (MsgFila <$> filas) ++ [MsgLinea]
  end.

(** The row [listar_libros] prints for a book. *)
Definition fila_libro (b : libro) : fila :=
  Fila (Text.last_chars 5 (libro_id b))
       (Text.first_chars 35 (libro_titulo b))
       (Text.first_chars 25 (libro_autor b))
       (match libro_anio b with
        | Some z => if z =? 0 then None else Some (PInt z)
        | None => None
        end)
       (libro_leido b).

(** The part of [eliminar_libro] that follows a deletion counted positive. *)
Definition tras_borrar (libro : value) (id_parcial : string) : prog unit :=
  id ← py_item libro "id";
  member ← redis_arg id;
  redis_srem ALL_BOOKS_KEY member;;
  titulo ← py_item libro "titulo";
  print (MsgEliminado id_parcial titulo).

(** A command that names keys of the layout only. *)
Definition in_layout (prefix index : string) (c : command) : Prop :=
  ∀ k, k ∈ keys_of c → k = index ∨ ∃ id, k = prefix +:+ id.

(** A command that reads, and names keys of the layout of the program
    only. *)
Definition lookup_only (c : command) : Prop :=
  in_layout KEY_PREFIX ALL_BOOKS_KEY c ∧ is_write c = false.

(** A command that removes a member from the index set. *)
Definition is_srem (c : command) : Prop := ∃ m, c = SREM ALL_BOOKS_KEY m.

(** The predicate that holds of every result. *)
Definition any {A} : A → Prop := λ _, True.

(** A program that performs no effect. *)
Definition pure {A} (p : prog A) : Prop :=
  match p with Ret _ | Raise _ | Unmodelled => True | _ => False end.

(** The key [buscar_libro_por_id_parcial] returns is the key of a book. *)
Definition found_key (found : option (value * string)) : Prop :=
  ∀ libro key, found = Some (libro, key) → ∃ id, key = libro_key id.

(** The layout with record keys [prefix ++ id] and index key [index]: what
    [agregar_libro] stores is found under them, and no operation names
    another key. *)
Definition storage_layout (prefix index : string) : Prop :=
  (∀ (w : world (gmap string entry)) (t a y g : string) (rest : list string),
     stdin w = t :: a :: y :: g :: rest →
     Text.strip t ≠ EmptyString → Text.strip a ≠ EmptyString →
     (∀ v, server w !! index ≠ Some (EStr v)) →
     let u := uuid_source w (uuid_count w) in
     (server (run exec agregar_libro w).2) !! (prefix +:+ u)
     = Some (EStr (Json.dumps
                     (nuevo_libro u (Text.strip t) (Text.strip a) (anio_de y) (Text.strip g)))) ∧
     ∃ ms, (server (run exec agregar_libro w).2) !! index = Some (ESet ms) ∧ u ∈ ms) ∧
  (∀ (S : Type) (serve : S → command → reply * S) (w : world S),
     keys_within prefix index (issued serve agregar_libro w) ∧
     (∀ sfx, keys_within prefix index (issued serve (buscar_libro_por_id_parcial sfx) w)) ∧
     keys_within prefix index (issued serve listar_libros w) ∧
     keys_within prefix index (issued serve marcar_como_leido w) ∧
     keys_within prefix index (issued serve eliminar_libro w)).

(** A command that stores a JSON text, or stores nothing. *)
Definition guarda_json (c : command) : Prop :=
  match c with
  | SET _ v => ∃ x, v = Json.dumps x
  | _ => True
  end.

(** The printable characters of ASCII, U+0020..U+007E. *)
Definition printable (c : ascii) : bool :=
  ((32 <=? Text.code c) && (Text.code c <=? 126))%N.

(** A text after which a number ends: no digit, fraction or exponent
    follows. *)
Definition delimited (rest : string) : Prop :=
  Json.starts_with_digit rest = false ∧ Json.float_follows rest = false.

(** The values that are neither [list] nor [dict]. *)
Definition atomic (v : value) : Prop :=
  match v with PList _ | PDict _ => False | _ => True end.

(** The text of one item of a [dict]. *)
Definition item (kv : string * value) : string :=
  Json.dumps_str kv.1 +:+ ": " +:+ Json.dumps kv.2.

(* ===================================================================== *)
(** ** A small library, for the examples *)
(* ===================================================================== *)

Definition libro_dune : libro :=
  Libro "aaaa-11111" "Dune" "Herbert" (Some 1965) (Some "Sci-Fi") false.

Definition libro_emma : libro :=
  Libro "bbbb-22211" "Emma" "Austen" None None false.

(** A store with the two books, indexed in this order. *)
Definition db_dos : gmap string entry :=
  <[ALL_BOOKS_KEY := ESet ["aaaa-11111"; "bbbb-22211"]]>
    (<[libro_key "aaaa-11111" := EStr (Json.dumps (libro_dict libro_dune))]>
       (<[libro_key "bbbb-22211" := EStr (Json.dumps (libro_dict libro_emma))]> ∅)).

(** A store whose index lists one identifier, with a value that is no
    JSON text. *)
Definition db_corrupto : gmap string entry :=
  <[ALL_BOOKS_KEY := ESet ["dddd-44444"]]> (<[libro_key "dddd-44444" := EStr "{"]> ∅).

(** A world around the store [db] in which the user types [lines]. *)
Definition mundo (db : gmap string entry) (lines : list string)
  : world (gmap string entry) :=
  World db lines [] (fun _ => "cccc-33333") 0 [].

(* ===================================================================== *)
(** * Proofs *)
(* ===================================================================== *)

(** ** Strings *)

Lemma append_cons (x : ascii) (a b : string) : String x a +:+ b = String x (a +:+ b).
Proof. reflexivity. Qed.

Lemma append_nil_l (b : string) : EmptyString +:+ b = b.
Proof. reflexivity. Qed.

Lemma append_assoc (a b c : string) : (a +:+ b) +:+ c = a +:+ (b +:+ c).
Proof. induction a as [|x a IH]; [done|]. by rewrite !append_cons, IH. Qed.

Lemma append_nil_r (a : string) : a +:+ EmptyString = a.
Proof. induction a as [|x a IH]; [done|]. by rewrite append_cons, IH. Qed.

Lemma substring_all (s : string) : String.substring 0 (String.length s) s = s.
Proof. induction s as [|x s IH]; simpl; congruence. Qed.

(** *** Strings *)

Lemma scanstring_escape_char (c : ascii) (r : string) :
  Json.scanstring (Json.escape_char c +:+ r) = Json.cons_char c (Json.scanstring r).
Proof.
  destruct c as [b0 b1 b2 b3 b4 b5 b6 b7].
  destruct b0, b1, b2, b3, b4, b5, b6, b7; reflexivity.
Qed.

Lemma scanstring_escape (s rest : string) :
  Json.scanstring (Json.escape s +:+ String Json.dquote rest) = Json.Ok (s, rest).
Proof.
  induction s as [|c s IH].
  - reflexivity.
  - change (Json.escape (String c s)) with (Json.escape_char c +:+ Json.escape s).
    rewrite append_assoc, scanstring_escape_char, IH. reflexivity.
Qed.

(** *** Numbers *)

Lemma not_digit_scan (rest : string) :
  Json.starts_with_digit rest = false → Json.scan_digits rest = (Nil, rest).
Proof.
  destruct rest as [|c r]; [done|]. unfold Json.starts_with_digit, Text.is_decimal. simpl.
  by destruct (Text.decimal_of c).
Qed.

Lemma scan_digits_print (u : uint) (rest : string) :
  Json.starts_with_digit rest = false →
  Json.scan_digits (NilEmpty.string_of_uint u +:+ rest) = (u, rest).
Proof.
  intros Hr. induction u; simpl NilEmpty.string_of_uint;
    rewrite ?append_cons, ?append_nil_l; [by apply not_digit_scan|..];
    simpl; by rewrite IHu.
Qed.

Lemma to_uint_shape (n : N) :
  match N.to_uint n with Nil => False | D0 u => u = Nil | _ => True end.
Proof.
  pose proof (Unsigned.to_of (N.to_uint n)) as H. rewrite Unsigned.of_to in H.
  rewrite H. unfold unorm.
  pose proof (nzhead_nonzero (N.to_uint n)) as Hz.
  destruct (nzhead (N.to_uint n)); try done. by destruct (Hz u).
Qed.

Lemma scan_intpart_print (n : N) (rest : string) :
  Json.starts_with_digit rest = false →
  Json.scan_intpart (NilEmpty.string_of_uint (N.to_uint n) +:+ rest)
  = Some (N.to_uint n, rest).
Proof.
  intros Hr. pose proof (to_uint_shape n) as Hs.
  pose proof (scan_digits_print (N.to_uint n) rest Hr) as Hd.
  destruct (N.to_uint n) as [|u|u|u|u|u|u|u|u|u|u]; try done;
    simpl NilEmpty.string_of_uint in *; rewrite append_cons in *.
  - by subst u.
  - unfold Json.scan_intpart. by rewrite Hd.
  - unfold Json.scan_intpart. by rewrite Hd.
  - unfold Json.scan_intpart. by rewrite Hd.
  - unfold Json.scan_intpart. by rewrite Hd.
  - unfold Json.scan_intpart. by rewrite Hd.
  - unfold Json.scan_intpart. by rewrite Hd.
  - unfold Json.scan_intpart. by rewrite Hd.
  - unfold Json.scan_intpart. by rewrite Hd.
  - unfold Json.scan_intpart. by rewrite Hd.
Qed.

Lemma scan_number_print (neg : bool) (n : N) (rest : string) :
  delimited rest →
  Json.scan_number neg (NilEmpty.string_of_uint (N.to_uint n) +:+ rest)
  = Json.Ok (PInt (if neg then - Z.of_N n else Z.of_N n), rest).
Proof.
  intros [Hd Hf]. unfold Json.scan_number.
  by rewrite scan_intpart_print, Hf, Unsigned.of_to.
Qed.

Lemma print_uint_head (n : N) :
  ∃ c s, NilEmpty.string_of_uint (N.to_uint n) = String c s ∧ Text.is_decimal c = true.
Proof.
  pose proof (to_uint_shape n) as Hs.
  destruct (N.to_uint n); try done; simpl; eauto.
Qed.

Lemma scan_once_digit (fuel : nat) (c : ascii) (s : string) :
  Text.is_decimal c = true →
  Json.scan_once (S fuel) (String c s) = Json.scan_number false (String c s).
Proof.
  destruct c as [b0 b1 b2 b3 b4 b5 b6 b7].
  destruct b0, b1, b2, b3, b4, b5, b6, b7; try discriminate; reflexivity.
Qed.

Lemma scan_once_minus (fuel : nat) (s : string) :
  Json.starts_with_digit s = true →
  Json.scan_once (S fuel) (String "-" s) = Json.scan_number true s.
Proof.
  destruct s as [|c s]; [discriminate|].
  destruct c as [b0 b1 b2 b3 b4 b5 b6 b7].
  destruct b0, b1, b2, b3, b4, b5, b6, b7; try discriminate; reflexivity.
Qed.

Lemma scan_once_int (fuel : nat) (z : Z) (rest : string) :
  delimited rest →
  Json.scan_once (S fuel) (Json.dumps_int z +:+ rest) = Json.Ok (PInt z, rest).
Proof.
  intros Hr. destruct z as [|p|p]; unfold Json.dumps_int.
  - destruct (print_uint_head (Z.to_N 0)) as (c & s & Hs & Hc).
    pose proof (scan_number_print false (Z.to_N 0) rest Hr) as Hn.
    rewrite Hs in *. rewrite append_cons in *. rewrite scan_once_digit by done.
    rewrite Hn. reflexivity.
  - destruct (print_uint_head (Z.to_N (Z.pos p))) as (c & s & Hs & Hc).
    pose proof (scan_number_print false (Z.to_N (Z.pos p)) rest Hr) as Hn.
    rewrite Hs in *. rewrite append_cons in *. rewrite scan_once_digit by done.
    rewrite Hn. reflexivity.
  - destruct (print_uint_head (N.pos p)) as (c & s & Hs & Hc).
    pose proof (scan_number_print true (N.pos p) rest Hr) as Hn.
    change (N.to_uint (N.pos p)) with (Pos.to_uint p) in *.
    rewrite append_cons. rewrite scan_once_minus; [by rewrite Hn|].
    rewrite Hs. by rewrite append_cons.
Qed.

(** *** Atomic values and flat objects *)

Lemma delimited_comma (r : string) : delimited (String "," r).
Proof. by split. Qed.

Lemma delimited_brace (r : string) : delimited (String "}" r).
Proof. by split. Qed.

Lemma dumps_str_append (s rest : string) :
  Json.dumps_str s +:+ rest = String Json.dquote (Json.escape s +:+ String Json.dquote rest).
Proof. unfold Json.dumps_str. by rewrite append_cons, append_assoc, append_cons. Qed.

Lemma scan_once_atomic (fuel : nat) (v : value) (rest : string) :
  atomic v → delimited rest →
  Json.scan_once (S fuel) (Json.dumps v +:+ rest) = Json.Ok (v, rest).
Proof.
  intros Hv Hr. destruct v as [|[]|z|s|l|d]; try done.
  - by apply scan_once_int.
  - simpl Json.dumps. rewrite dumps_str_append.
    change (Json.scan_once (S fuel) (String Json.dquote ?x))
      with ('(str, r) ← Json.scanstring x; Json.Ok (PStr str, r)).
    by rewrite scanstring_escape.
Qed.

Lemma decimal_not_ws (c : ascii) : Text.is_decimal c = true → Json.is_ws c = false.
Proof.
  destruct c as [b0 b1 b2 b3 b4 b5 b6 b7].
  destruct b0, b1, b2, b3, b4, b5, b6, b7; try discriminate; reflexivity.
Qed.

Lemma skip_ws_atomic (v : value) (rest : string) :
  atomic v → Json.skip_ws (Json.dumps v +:+ rest) = Json.dumps v +:+ rest.
Proof.
  intros Hv. destruct v as [|[]|z|s|l|d]; try done.
  destruct z as [|p|p]; try done; unfold Json.dumps, Json.dumps_int.
  - destruct (print_uint_head (Z.to_N (Z.pos p))) as (c & s & -> & Hc).
    rewrite append_cons. simpl. by rewrite decimal_not_ws.
Qed.

Lemma dumps_dict (d : list (string * value)) :
  Json.dumps (PDict d) = "{" +:+ String.concat ", " (map item d) +:+ "}".
Proof. reflexivity. Qed.

Lemma concat_cons2 (sep x y : string) (l : list string) :
  String.concat sep (x :: y :: l) = x +:+ sep +:+ String.concat sep (y :: l).
Proof. reflexivity. Qed.

Lemma parse_members_item (fuel : nat) (acc : list (string * value)) (k : string)
    (v : value) (tail : string) :
  atomic v → delimited tail →
  Json.parse_members (S (S fuel)) acc (item (k, v) +:+ tail)
  = match Json.skip_ws tail with
    | String ","%char r4 => Json.parse_members (S fuel) (dict_set k v acc) (Json.skip_ws r4)
    | String "}"%char r4 => Json.Ok (PDict (dict_set k v acc), r4)
    | _ => Json.DecodeError
    end.
Proof.
  intros Hv Ht. unfold item. simpl fst; simpl snd.
  rewrite !append_assoc, dumps_str_append.
  change (Json.parse_members (S (S fuel)) acc (String Json.dquote ?x))
    with ('(k, r1) ← Json.scanstring x;
          match Json.skip_ws r1 with
          | String ":"%char r2 =>
              '(v, r3) ← Json.scan_once (S fuel) (Json.skip_ws r2);
              match Json.skip_ws r3 with
              | String ","%char r4 =>
                  Json.parse_members (S fuel) (dict_set k v acc) (Json.skip_ws r4)
              | String "}"%char r4 => Json.Ok (PDict (dict_set k v acc), r4)
              | _ => Json.DecodeError
              end
          | _ => Json.DecodeError
          end).
  rewrite scanstring_escape.
  change (": " +:+ ?x) with (String ":" (String " " x)).
  unfold mbind, Json.result_bind. cbv beta match.
  change (Json.skip_ws (String ":" ?x)) with (String ":" x).
  cbv beta match.
  change (Json.skip_ws (String " " ?x)) with (Json.skip_ws x).
  rewrite skip_ws_atomic by done. rewrite scan_once_atomic by done.
  reflexivity.
Qed.

Lemma members_head (kv : string * value) (d : list (string * value)) (x : string) :
  ∃ y, String.concat ", " (map item (kv :: d)) +:+ x = String Json.dquote y.
Proof.
  destruct d; simpl map; [simpl String.concat | rewrite concat_cons2, !append_assoc];
    unfold item at 1; rewrite !append_assoc, dumps_str_append; eauto.
Qed.

Lemma parse_members_flat (d : list (string * value)) :
  ∀ (fuel : nat) (acc : list (string * value)) (rest : string),
    d ≠ [] → Forall (λ kv, atomic kv.2) d → (length d < fuel)%nat →
    Json.parse_members fuel acc (String.concat ", " (map item d) +:+ String "}" rest)
    = Json.Ok (PDict (dict_update d acc), rest).
Proof.
  induction d as [|[k v] d IH]; intros fuel acc rest Hne Hat Hfuel; [done|].
  apply Forall_cons in Hat as [Hv Hat].
  destruct fuel as [|[|fuel]]; simpl in Hfuel; try lia.
  destruct d as [|kv d].
  - simpl map. simpl String.concat.
    rewrite parse_members_item by (done || apply delimited_brace).
    reflexivity.
  - change (map item ((k, v) :: kv :: d)) with (item (k, v) :: item kv :: map item d).
    rewrite concat_cons2, !append_assoc.
    change (item kv :: map item d) with (map item (kv :: d)).
    rewrite parse_members_item by (done || apply delimited_comma).
    change (", " +:+ ?x) with (String "," (String " " x)).
    change (Json.skip_ws (String "," ?x)) with (String "," x).
    cbv beta match.
    change (Json.skip_ws (String " " ?x)) with (Json.skip_ws x).
    assert (Hsk : ∀ x, Json.skip_ws (String.concat ", " (map item (kv :: d)) +:+ x)
                       = String.concat ", " (map item (kv :: d)) +:+ x).
    { intros x. destruct (members_head kv d x) as [y ->]. reflexivity. }
    rewrite Hsk. rewrite IH; [reflexivity|done|done|simpl in *; lia].
Qed.

Lemma length_append (a b : string) :
  String.length (a +:+ b) = (String.length a + String.length b)%nat.
Proof. induction a as [|x a IH]; [done|]. rewrite append_cons. simpl. by rewrite IH. Qed.

Lemma members_length (d : list (string * value)) :
  (length d ≤ String.length (String.concat ", " (map item d)))%nat.
Proof.
  induction d as [|kv d IH]; [done|].
  destruct (members_head kv d EmptyString) as [y Hy]. rewrite append_nil_r in Hy.
  destruct d as [|kv' d].
  - rewrite Hy. simpl. lia.
  - change (map item (kv :: kv' :: d)) with (item kv :: item kv' :: map item d).
    rewrite concat_cons2, !length_append.
    change (item kv' :: map item d) with (map item (kv' :: d)).
    change (String.length ", ") with 2%nat. simpl length in *. lia.
Qed.

Lemma dict_set_fresh (k : string) (v : value) (acc : list (string * value)) :
  k ∉ acc.*1 → dict_set k v acc = (acc ++ [(k, v)])%list.
Proof.
  induction acc as [|[k' v'] acc IH]; intros Hk; [done|].
  simpl in *. apply not_elem_of_cons in Hk as [Hne Hk].
  destruct (String.eqb_spec k' k); [congruence|]. by rewrite IH.
Qed.

Lemma dict_update_fresh (d acc : list (string * value)) :
  NoDup ((acc ++ d)%list).*1 → dict_update d acc = (acc ++ d)%list.
Proof.
  revert acc. induction d as [|[k v] d IH]; intros acc Hnd.
  - by rewrite app_nil_r.
  - change (dict_update ((k, v) :: d) acc) with (dict_update d (dict_set k v acc)).
    rewrite dict_set_fresh.
    + rewrite IH; rewrite <- app_assoc; done.
    + rewrite fmap_app, fmap_cons in Hnd. apply NoDup_app in Hnd as (_ & Hd & _).
      intros Hin. apply (Hd k Hin). left.
Qed.

Lemma loads_dumps_flat (d : list (string * value)) :
  NoDup d.*1 → Forall (λ kv, atomic kv.2) d →
  Json.loads (Json.dumps (PDict d)) = Json.Ok (PDict d).
Proof.
  intros Hnd Hat. destruct d as [|kv d]; [reflexivity|].
  unfold Json.loads. rewrite dumps_dict.
  destruct (members_head kv d "}") as [y Hy].
  pose proof (members_length (kv :: d)) as Hlen.
  pose proof (parse_members_flat (kv :: d)
    (S (String.length (String.concat ", " (map item (kv :: d)) +:+ "}"))) [] EmptyString) as Hp.
  rewrite length_append in Hp.
  change (String "}" EmptyString) with "}" in *.
  rewrite append_cons, append_nil_l.
  change (String.length (String "{" ?x)) with (S (String.length x)).
  rewrite length_append.
  set (txt := String.concat ", " (map item (kv :: d)) +:+ "}") in *.
  set (n := (String.length (String.concat ", " (map item (kv :: d))) + String.length "}")%nat) in *.
  change (Json.skip_ws (String "{" txt)) with (String "{" txt).
  change (Json.scan_once (S (S n)) (String "{" txt))
    with (match Json.after_prefix "}" (Json.skip_ws txt) with
          | Some rest => Json.Ok (PDict [], rest)
          | None => Json.parse_members (S n) [] (Json.skip_ws txt)
          end).
  assert (Hsk : Json.skip_ws txt = txt) by (rewrite Hy; reflexivity).
  assert (Hap : Json.after_prefix "}" txt = None) by (rewrite Hy; reflexivity).
  rewrite Hsk, Hap.
  rewrite Hp; [|done|done|subst n; lia].
  rewrite dict_update_fresh by done. reflexivity.
Qed.

(** ** Running programs *)

Section Run.
Context {S : Type} (serve : S → command → reply * S).

Lemma run_bind {A B} (p : prog A) (f : A → prog B) (w : world S) :
  run serve (p ≫= f) w
  = match run serve p w with
    | (Returned a, w') => run serve (f a) w'
    | (Uncaught e, w') => (Uncaught e, w')
    | (NotModelled, w') => (NotModelled, w')
    end.
Proof.
  revert w. induction p as [a|e| |pr k IH|m k IH|k IH|c k IH]; intros w; try reflexivity.
  - change (run serve (Input pr k ≫= f) w)
      with (match stdin w with
            | [] => run serve (k None ≫= f) (write_out (Prompt pr) w)
            | l :: _ => run serve (k (Some l) ≫= f) (read_line (write_out (Prompt pr) w))
            end).
    simpl. destruct (stdin w); apply IH.
  - apply IH.
  - apply IH.
  - change (run serve (Call c k ≫= f) w)
      with (let '(r, s') := serve (server w) c in
            run serve (k r ≫= f) (answered s' c r w)).
    simpl. destruct (serve (server w) c). apply IH.
Qed.

Lemma run_call {A} (c : command) (k : reply → prog A) (w : world S) :
  run serve (Call c k) w
  = run serve (k (serve (server w) c).1)
      (answered (serve (server w) c).2 c (serve (server w) c).1 w).
Proof. simpl. by destruct (serve (server w) c). Qed.

Lemma run_input (pr : prompt) (w : world S) :
  run serve (input pr) w
  = match stdin w with
    | [] => (Uncaught EOFError, write_out (Prompt pr) w)
    | l :: _ => (Returned l, read_line (write_out (Prompt pr) w))
    end.
Proof. simpl. by destruct (stdin w). Qed.

Lemma run_print (m : message) (w : world S) :
  run serve (print m) w = (Returned tt, write_out m w).
Proof. reflexivity. Qed.

Lemma run_fmap {A B} (g : A → B) (p : prog A) (w : world S) :
  run serve (g <$> p) w
  = match run serve p w with
    | (Returned a, w') => (Returned (g a), w')
    | (Uncaught e, w') => (Uncaught e, w')
    | (NotModelled, w') => (NotModelled, w')
    end.
Proof. apply (run_bind p (λ a, Ret (g a))). Qed.

Lemma run_try_except {A} (p : prog A) (class : exn → bool) (h : exn → prog A)
    (w : world S) :
  run serve (try_except p class h) w
  = match run serve p w with
    | (Uncaught e, w') => if class e then run serve (h e) w' else (Uncaught e, w')
    | r => r
    end.
Proof.
  revert w. induction p as [a|e| |pr k IH|m k IH|k IH|c k IH]; intros w; try reflexivity.
  - simpl. by destruct (class e).
  - simpl. destruct (stdin w); apply IH.
  - apply IH.
  - apply IH.
  - simpl. destruct (serve (server w) c). apply IH.
Qed.

(** What a run leaves alone, and what it only extends. *)
Lemma run_extends {A} (p : prog A) (w : world S) :
  uuid_source (run serve p w).2 = uuid_source w ∧
  (∃ t, trace (run serve p w).2 = trace w ++ t) ∧
  (∃ out, stdout (run serve p w).2 = stdout w ++ out).
Proof.
  revert w. induction p as [a|e| |pr k IH|m k IH|k IH|c k IH]; intros w; simpl;
    try (split; [done|split; by exists []; rewrite app_nil_r]).
  - destruct (stdin w) as [|l ls].
    + destruct (IH None (write_out (Prompt pr) w)) as (Hu & [t Ht] & [out Ho]).
      rewrite Hu, Ht, Ho. simpl. split; [done|]. split; [by eexists|].
      rewrite <- app_assoc. by eexists.
    + destruct (IH (Some l) (read_line (write_out (Prompt pr) w))) as (Hu & [t Ht] & [out Ho]).
      rewrite Hu, Ht, Ho. simpl. split; [done|]. split; [by eexists|].
      rewrite <- app_assoc. by eexists.
  - destruct (IH (write_out m w)) as (Hu & [t Ht] & [out Ho]).
    rewrite Hu, Ht, Ho. simpl. split; [done|]. split; [by eexists|].
    rewrite <- app_assoc. by eexists.
  - destruct (IH (uuid_source w (uuid_count w)) (draw_uuid w)) as (Hu & [t Ht] & [out Ho]).
    rewrite Hu, Ht, Ho. simpl. split; [done|]. split; by eexists.
  - destruct (serve (server w) c) as [r s'].
    destruct (IH r (answered s' c r w)) as (Hu & [t Ht] & [out Ho]).
    rewrite Hu, Ht, Ho. simpl. split; [done|]. split; [|by eexists].
    rewrite <- app_assoc. by eexists.
Qed.

Lemma run_trace {A} (p : prog A) (w : world S) :
  trace (run serve p w).2 = trace w ++ issued serve p w.
Proof.
  unfold issued. destruct (run_extends p w) as (_ & [t Ht] & _).
  rewrite Ht. by rewrite drop_app_length.
Qed.

Lemma confined_run {A} (calls : command → Prop) (inputs uuids : Prop)
    (result : A → Prop) (p : prog A) :
  confined calls inputs uuids result p → ∀ w : world S,
    Forall (λ cr, calls cr.1) (issued serve p w) ∧
    (¬ inputs → stdin (run serve p w).2 = stdin w) ∧
    (¬ uuids → uuid_count (run serve p w).2 = uuid_count w) ∧
    (∀ a, (run serve p w).1 = Returned a → result a).
Proof.
  unfold issued.
  induction p as [a|e| |pr k IH|m k IH|k IH|c k IH]; intros Hc w; simpl in *;
    try (rewrite drop_all; repeat split; (done || congruence)).
  - destruct Hc as [Hin Hc]. destruct (stdin w) as [|l ls].
    + destruct (IH None (Hc None) (write_out (Prompt pr) w)) as (H1 & H2 & H3 & H4).
      simpl in *. split; [done|]. split; [tauto|done].
    + destruct (IH (Some l) (Hc (Some l)) (read_line (write_out (Prompt pr) w)))
        as (H1 & H2 & H3 & H4).
      simpl in *. split; [done|]. split; [tauto|done].
  - apply (IH Hc (write_out m w)).
  - destruct Hc as [Hu Hc].
    destruct (IH _ (Hc (uuid_source w (uuid_count w))) (draw_uuid w)) as (H1 & H2 & H3 & H4).
    simpl in *. split; [done|]. split; [done|]. split; [tauto|done].
  - destruct Hc as [Hcall Hc]. destruct (serve (server w) c) as [r s'].
    destruct (IH r (Hc r) (answered s' c r w)) as (H1 & H2 & H3 & H4).
    destruct (run_extends (k r) (answered s' c r w)) as (_ & [t Ht] & _).
    simpl in *. rewrite Ht in *. rewrite length_app in H1. simpl in H1.
    rewrite <- app_assoc. rewrite drop_app_length.
    rewrite <- app_assoc in H1. rewrite Nat.add_1_r in H1.
    replace (Datatypes.S (length (trace w))) with (length (trace w ++ [(c, r)])) in H1
      by (rewrite length_app; simpl; lia).
    rewrite (app_assoc (trace w)) in H1. rewrite drop_app_length in H1.
    split; [by constructor|]. done.
Qed.

Lemma confined_mono {A} (calls calls' : command → Prop) (inputs inputs' uuids uuids' : Prop)
    (result result' : A → Prop) (p : prog A) :
  (∀ c, calls c → calls' c) → (inputs → inputs') → (uuids → uuids') →
  (∀ a, result a → result' a) →
  confined calls inputs uuids result p → confined calls' inputs' uuids' result' p.
Proof.
  intros H1 H2 H3 H4. induction p as [a|e| |pr k IH|m k IH|k IH|c k IH]; simpl; try done.
  - apply H4.
  - intros [Hi Hk]. split; [tauto|]. intros l. by apply IH.
  - intros [Hu Hk]. split; [tauto|]. intros u. by apply IH.
  - intros [Hc Hk]. split; [by apply H1|]. intros r. by apply IH.
Qed.

Lemma confined_bind {A B} calls inputs uuids (result : A → Prop) (result' : B → Prop)
    (p : prog A) (f : A → prog B) :
  confined calls inputs uuids result p →
  (∀ a, result a → confined calls inputs uuids result' (f a)) →
  confined calls inputs uuids result' (p ≫= f).
Proof.
  intros Hp Hf. induction p as [a|e| |pr k IH|m k IH|k IH|c k IH]; simpl in *; try done.
  - by apply Hf.
  - destruct Hp as [Hi Hk]. split; [done|]. intros l. by apply IH.
  - by apply IH.
  - destruct Hp as [Hu Hk]. split; [done|]. intros u. by apply IH.
  - destruct Hp as [Hc Hk]. split; [done|]. intros r. by apply IH.
Qed.

Lemma confined_fmap {A B} calls inputs uuids (result : B → Prop) (g : A → B) (p : prog A) :
  confined calls inputs uuids (λ a, result (g a)) p →
  confined calls inputs uuids result (g <$> p).
Proof. intros Hp. by apply (confined_bind _ _ _ _ _ p (λ a, Ret (g a)) Hp). Qed.

Lemma confined_try_except {A} calls inputs uuids (result : A → Prop) (p : prog A) class h :
  confined calls inputs uuids result p → (∀ e, confined calls inputs uuids result (h e)) →
  confined calls inputs uuids result (try_except p class h).
Proof.
  intros Hp Hh. induction p as [a|e| |pr k IH|m k IH|k IH|c k IH]; simpl in *; try done.
  - by destruct (class e).
  - destruct Hp as [Hi Hk]. split; [done|]. intros l. by apply IH.
  - by apply IH.
  - destruct Hp as [Hu Hk]. split; [done|]. intros u. by apply IH.
  - destruct Hp as [Hc Hk]. split; [done|]. intros r. by apply IH.
Qed.

End Run.

(** ** The effects of each function *)

Lemma in_layout_index (c : command) :
  keys_of c = [ALL_BOOKS_KEY] → in_layout KEY_PREFIX ALL_BOOKS_KEY c.
Proof. intros Hk k. rewrite Hk. intros ->%list_elem_of_singleton. by left. Qed.

Lemma in_layout_libro (c : command) (id : string) :
  keys_of c = [KEY_PREFIX +:+ id] → in_layout KEY_PREFIX ALL_BOOKS_KEY c.
Proof. intros Hk k. rewrite Hk. intros ->%list_elem_of_singleton. right. by exists id. Qed.

Lemma in_layout_mget (ids : list string) :
  in_layout KEY_PREFIX ALL_BOOKS_KEY (MGET ((λ id, KEY_PREFIX +:+ id) <$> ids)).
Proof. intros k. simpl. intros (id & -> & _)%list_elem_of_fmap. right. by exists id. Qed.

Ltac confine_step :=
  match goal with
  | |- confined _ _ _ _ (_ ≫= _) => apply (confined_bind _ _ _ any)
  | |- confined _ _ _ _ (_ <$> _) => apply confined_fmap
  | |- confined _ _ _ _ (try_except _ _ _) => apply confined_try_except
  | |- confined _ _ _ _ (if ?b then _ else _) => destruct b
  | |- confined _ _ _ _ (match ?x with _ => _ end) => destruct x
  | |- ∀ _, _ => intro
  | |- _ ∧ _ => split
  | |- in_layout _ _ _ => (by apply in_layout_index) || (by eapply in_layout_libro) || apply in_layout_mget
  | |- lookup_only _ => split
  | |- True => exact I
  | |- any _ => exact I
  | |- _ = _ => reflexivity
  end.

Ltac confine := repeat (confine_step || (progress simpl)).

Lemma confined_pure {A} calls inputs uuids (p : prog A) :
  pure p → confined calls inputs uuids any p.
Proof. by destruct p. Qed.

Lemma pure_json_loads (j : string) : pure (json_loads j).
Proof. unfold json_loads. by destruct (Json.loads j). Qed.

Lemma pure_decodificar (l : list (option string)) (acc : list value) :
  pure (decodificar l acc).
Proof.
  revert acc. induction l as [|[j|] l IH]; intros acc; simpl; [done| |apply IH].
  destruct (Text.is_empty j); [apply IH|].
  unfold json_loads. destruct (Json.loads j); simpl; [apply IH|done|done].
Qed.

Lemma pure_bind {A B} (p : prog A) (f : A → prog B) :
  pure p → (∀ a, pure (f a)) → pure (p ≫= f).
Proof. intros Hp Hf. destruct p; try done. apply Hf. Qed.

Lemma pure_py_item (v : value) (k : string) : pure (py_item v k).
Proof. unfold py_item. destruct v as [| | | | |d]; try done. by destruct (dict_get k d). Qed.

Lemma pure_py_get (v : value) (k : string) (x : value) : pure (py_get v k x).
Proof. unfold py_get. by destruct v. Qed.

Lemma pure_celda (f : string → string) (v : value) : pure (celda f v).
Proof. by destruct v. Qed.

Lemma pure_celda_anio (v : value) : pure (celda_anio v).
Proof. unfold celda_anio. destruct (truthy v); [|done]. by destruct v. Qed.

Lemma pure_fila_de (libro : value) : pure (fila_de libro).
Proof.
  unfold fila_de.
  repeat (apply pure_bind;
          [apply pure_py_get || apply pure_py_item || apply pure_celda || apply pure_celda_anio
          |intros ?]).
  done.
Qed.

Section Confined.
Context (inputs uuids : Prop).

Lemma confined_imprimir_filas calls (libros : list value) :
  confined calls inputs uuids any (imprimir_filas libros).
Proof.
  induction libros as [|libro libros IH]; [done|].
  change (imprimir_filas (libro :: libros))
    with (f ← fila_de libro; print (MsgFila f);; imprimir_filas libros).
  apply (confined_bind _ _ _ any); [apply confined_pure, pure_fila_de|]. intros f _.
  apply (confined_bind _ _ _ any); [done|]. intros _ _. apply IH.
Qed.

Lemma confined_recuperar_libros : confined lookup_only inputs uuids any recuperar_libros.
Proof.
  unfold recuperar_libros, redis_smembers, redis_mget.
  apply (confined_bind _ _ _ any); [confine|]. intros all_ids _.
  apply (confined_bind _ _ _ any); [confine|]. intros js _.
  apply (confined_bind _ _ _ any); [apply confined_pure, pure_decodificar|]. done.
Qed.

Lemma confined_listar_libros : confined lookup_only inputs uuids any listar_libros.
Proof.
  unfold listar_libros. apply (confined_bind _ _ _ any); [apply confined_recuperar_libros|].
  intros [|libro libros] _; [confine|].
  repeat (apply (confined_bind _ _ _ any); [done|]; intros _ _).
  apply (confined_bind _ _ _ any); [apply confined_imprimir_filas|]. done.
Qed.

Lemma confined_buscar (id_parcial : string) :
  confined lookup_only inputs uuids found_key (buscar_libro_por_id_parcial id_parcial).
Proof.
  unfold buscar_libro_por_id_parcial, redis_smembers, redis_get.
  apply (confined_bind _ _ _ any); [confine|]. intros all_ids _.
  destruct (find _ all_ids) as [id|]; [|done].
  destruct (Text.is_empty id); [done|].
  apply (confined_bind _ _ _ any); [confine|]. intros [j|] _; [|done].
  destruct (Text.is_empty j); [done|].
  apply (confined_bind _ _ _ any); [apply confined_pure, pure_json_loads|].
  intros v _ libro key [= <- <-]. by exists id.
Qed.

End Confined.

Lemma lookup_only_layout (c : command) : lookup_only c → in_layout KEY_PREFIX ALL_BOOKS_KEY c.
Proof. by intros [? _]. Qed.

Lemma confined_agregar_libro :
  confined (in_layout KEY_PREFIX ALL_BOOKS_KEY) True True any agregar_libro.
Proof.
  unfold agregar_libro, leer_anio, input, print, uuid4, redis_set, redis_sadd.
  confine.
Qed.

Lemma confined_marcar_como_leido :
  confined (in_layout KEY_PREFIX ALL_BOOKS_KEY) True False any marcar_como_leido.
Proof.
  unfold marcar_como_leido.
  apply (confined_bind _ _ _ any).
  { eapply confined_mono; [apply lookup_only_layout|..|apply (confined_listar_libros False False)]; tauto. }
  intros _ _. apply (confined_bind _ _ _ any); [unfold input; confine|]. intros id_parcial _.
  destruct (Text.is_empty id_parcial); [done|].
  apply confined_try_except; [|done].
  apply (confined_bind _ _ _ found_key).
  { eapply confined_mono; [apply lookup_only_layout|..|apply (confined_buscar False False)]; tauto. }
  intros [[libro key]|] Hk; [|done]. destruct (Hk libro key eq_refl) as [id ->].
  unfold py_get, py_item, actualizar_libro, redis_set, libro_key. confine.
Qed.

Lemma confined_eliminar_libro :
  confined (in_layout KEY_PREFIX ALL_BOOKS_KEY) True False any eliminar_libro.
Proof.
  unfold eliminar_libro.
  apply (confined_bind _ _ _ any).
  { eapply confined_mono; [apply lookup_only_layout|..|apply (confined_listar_libros False False)]; tauto. }
  intros _ _. apply (confined_bind _ _ _ any); [unfold input; confine|]. intros id_parcial _.
  destruct (Text.is_empty id_parcial); [done|].
  apply confined_try_except; [|done].
  apply (confined_bind _ _ _ found_key).
  { eapply confined_mono; [apply lookup_only_layout|..|apply (confined_buscar False False)]; tauto. }
  intros [[libro key]|] Hk; [|done]. destruct (Hk libro key eq_refl) as [id ->].
  unfold py_get, py_item, redis_delete, redis_srem, redis_arg, libro_key. confine.
Qed.

(** ** The commands a run sends *)

Section Issued.
Context {S : Type} (serve : S → command → reply * S).

Lemma issued_from {A} (p : prog A) (w : world S) (t : list (command * reply)) :
  trace (run serve p w).2 = trace w ++ t → issued serve p w = t.
Proof. unfold issued. intros ->. by rewrite drop_app_length. Qed.

Lemma issued_call {A} (c : command) (k : reply → prog A) (w : world S) :
  issued serve (Call c k) w
  = (c, (serve (server w) c).1)
      :: issued serve (k (serve (server w) c).1)
           (answered (serve (server w) c).2 c (serve (server w) c).1 w).
Proof.
  apply issued_from. simpl. destruct (serve (server w) c) as [r s']. simpl.
  rewrite run_trace. simpl. by rewrite <- app_assoc.
Qed.

Lemma issued_bind {A B} (p : prog A) (f : A → prog B) (w : world S) :
  issued serve (p ≫= f) w
  = issued serve p w ++ match run serve p w with
                        | (Returned a, w') => issued serve (f a) w'
                        | _ => []
                        end.
Proof.
  apply issued_from. rewrite run_bind.
  pose proof (run_trace serve p w) as Hp.
  destruct (run serve p w) as [[a|e|] w']; simpl in *.
  - rewrite run_trace, Hp. by rewrite app_assoc.
  - by rewrite app_nil_r.
  - by rewrite app_nil_r.
Qed.

Lemma issued_try_except {A} (p : prog A) class (h : exn → prog A) (w : world S) :
  issued serve (try_except p class h) w
  = issued serve p w ++ match run serve p w with
                        | (Uncaught e, w') => if class e then issued serve (h e) w' else []
                        | _ => []
                        end.
Proof.
  apply issued_from. rewrite run_try_except.
  pose proof (run_trace serve p w) as Hp.
  destruct (run serve p w) as [[a|e|] w']; simpl in *.
  - by rewrite app_nil_r.
  - destruct (class e); simpl.
    + rewrite run_trace, Hp. by rewrite app_assoc.
    + by rewrite app_nil_r.
  - by rewrite app_nil_r.
Qed.

End Issued.

(** ** Runs against the in-memory server *)

Lemma exec_lookup (db : gmap string entry) (c : command) :
  is_write c = false → (exec db c).2 = db.
Proof.
  destruct c; try done; intros _; simpl.
  - by destruct (db !! key) as [[]|].
  - by destruct (db !! key) as [[]|].
Qed.

(** The store after a run is the store before it, changed by the commands
    the run sent. *)
Lemma run_exec_replay {A} (p : prog A) (w : world (gmap string entry)) :
  server (run exec p w).2
  = fold_left (λ db cr, (exec db cr.1).2) (issued exec p w) (server w).
Proof.
  revert w. induction p as [a|e| |pr k IH|m k IH|k IH|c k IH]; intros w;
    try (unfold issued; simpl; by rewrite drop_all).
  - unfold issued in *. simpl. destruct (stdin w); rewrite IH; reflexivity.
  - unfold issued in *. simpl. by rewrite IH.
  - unfold issued in *. simpl. by rewrite IH.
  - rewrite issued_call. simpl. destruct (exec (server w) c) as [r db'] eqn:He.
    simpl. by rewrite IH.
Qed.

Lemma replay_lookups (t : list (command * reply)) (db : gmap string entry) :
  Forall (λ cr, is_write cr.1 = false) t →
  fold_left (λ db cr, (exec db cr.1).2) t db = db.
Proof.
  induction 1 as [|cr t Hcr _ IH]; [done|]. simpl. by rewrite exec_lookup.
Qed.

Lemma run_exec_lookups {A} inputs uuids result (p : prog A) (w : world (gmap string entry)) :
  confined lookup_only inputs uuids result p → server (run exec p w).2 = server w.
Proof.
  intros Hc. rewrite run_exec_replay. apply replay_lookups.
  destruct (confined_run exec _ _ _ _ p Hc w) as [Hf _].
  eapply Forall_impl; [exact Hf|]. by intros cr [_ ?].
Qed.

#[local] Arguments exec : simpl never.
#[local] Arguments Json.dumps : simpl never.
#[local] Arguments Json.loads : simpl never.

Lemma is_empty_false (s : string) : s ≠ EmptyString → Text.is_empty s = false.
Proof. by destruct s. Qed.

Lemma is_empty_true (s : string) : Text.is_empty s = true ↔ s = EmptyString.
Proof. by destruct s. Qed.

(** The year the record gets for the line [y] typed at the year prompt. *)

Lemma run_leer_anio {S} (serve : S → command → reply * S) (w : world S) y rest :
  stdin w = y :: rest →
  run serve leer_anio w
  = (Returned (anio_de y),
     World (server w) rest
       (stdout w ++ Prompt PromptAnio ::
          (if Text.isdigit y then
             match Text.py_int y with Some _ => [] | None => [MsgAnioNoValido] end
           else []))
       (uuid_source w) (uuid_count w) (trace w)).
Proof.
  intros Hin. destruct w as [db inp out src cnt tr]. simpl in *. subst inp.
  unfold leer_anio, anio_de. simpl.
  destruct (Text.isdigit y); [|done].
  destruct (Text.py_int y); [done|]. simpl. unfold write_out. simpl.
  by rewrite <- app_assoc.
Qed.

Lemma libro_key_not_index (id : string) : libro_key id ≠ ALL_BOOKS_KEY.
Proof. unfold libro_key, KEY_PREFIX, ALL_BOOKS_KEY. rewrite !append_cons. congruence. Qed.

Lemma libro_key_inj (id id' : string) : libro_key id = libro_key id' → id = id'.
Proof. unfold libro_key, KEY_PREFIX. rewrite !append_cons, !append_nil_l. congruence. Qed.

(** A complete run of [agregar_libro] on valid title and author. *)
Lemma run_agregar_libro (w : world (gmap string entry)) (t a y g : string)
    (rest : list string) :
  stdin w = t :: a :: y :: g :: rest →
  Text.strip t ≠ EmptyString → Text.strip a ≠ EmptyString →
  let u := uuid_source w (uuid_count w) in
  let libro := nuevo_libro u (Text.strip t) (Text.strip a) (anio_de y) (Text.strip g) in
  let db1 := <[libro_key u := EStr (Json.dumps libro)]> (server w) in
  ∃ out,
    run exec agregar_libro w
    = (Returned tt,
       World (exec db1 (SADD ALL_BOOKS_KEY u)).2 rest (stdout w ++ out) (uuid_source w)
         (Datatypes.S (uuid_count w))
         (trace w ++ [(SET (libro_key u) (Json.dumps libro), ROk);
                      (SADD ALL_BOOKS_KEY u, (exec db1 (SADD ALL_BOOKS_KEY u)).1)])).
Proof.
  intros Hin Ht Ha u libro db1.
  assert (He : Text.is_empty (Text.strip t) || Text.is_empty (Text.strip a) = false).
  { by rewrite !is_empty_false. }
  destruct w as [db inp out src cnt tr]. simpl in Hin. subst inp.
  simpl in u, db1. subst u.
  unfold agregar_libro. rewrite run_bind. simpl run at 1. cbv beta match.
  rewrite run_bind. simpl run at 1. cbv beta match.
  rewrite run_bind. simpl run at 1. cbv beta match. rewrite He.
  rewrite run_bind, (run_leer_anio _ _ y (g :: rest)) by done. cbv beta match.
  rewrite run_bind. simpl run at 1. cbv beta match.
  rewrite run_bind. simpl run at 1. cbv beta match.
  cbv zeta. fold (libro_key (src cnt)). fold libro.
  rewrite run_try_except, run_bind.
  unfold redis_set at 1. rewrite run_call.
  change (exec ?d (SET ?k ?v)) with (ROk, <[k := EStr v]> d).
  cbn [fst snd server answered]. fold db1. simpl run at 1. cbv beta match.
  rewrite run_bind. unfold redis_sadd at 1. rewrite run_call.
  cbn [fst snd server answered].
  subst db1.
  destruct (exec _ (SADD ALL_BOOKS_KEY (src cnt))) as [r db2] eqn:Hsadd.
  assert (Hr : r = RInt 0 ∨ r = RInt 1 ∨ r = RError).
  { unfold exec in Hsadd.
    destruct (_ !! ALL_BOOKS_KEY) as [[v|ms]|];
      [injection Hsadd as <- _; auto| |injection Hsadd as <- _; auto].
    destruct (decide (src cnt ∈ ms)); injection Hsadd as <- _; auto. }
  destruct Hr as [-> | [-> | ->]]; simpl; unfold write_out; simpl;
    rewrite <- !app_assoc; simpl; eexists; f_equal; f_equal; rewrite <- ?app_assoc; done.
Qed.

(** ** Suffixes *)

Lemma endswith_cons (c : ascii) (s t : string) :
  Text.endswith (String c s) t
  = if String.eqb (String c s) t then true else Text.endswith s t.
Proof. reflexivity. Qed.

Lemma endswith_spec (s t : string) : Text.endswith s t = true ↔ ends_with s t.
Proof.
  split.
  - induction s as [|c s IH].
    + destruct t; [|done]. intros _. by exists EmptyString.
    + rewrite endswith_cons. destruct (String.eqb_spec (String c s) t) as [<-|].
      * intros _. by exists EmptyString.
      * intros [p ->]%IH. by exists (String c p).
  - intros [p ->]. induction p as [|c p IH].
    + rewrite append_nil_l. destruct t; [done|].
      rewrite endswith_cons. by rewrite String.eqb_refl.
    + rewrite append_cons, endswith_cons, IH. by destruct (String.eqb _ t).
Qed.

Lemma find_first_match (sfx : string) (ms : list string) (id : string) :
  first_match sfx ms id ↔ List.find (λ x, Text.endswith x sfx) ms = Some id.
Proof.
  split.
  - intros (pre & post & -> & He & Hpre). induction pre as [|x pre IH]; simpl.
    + by apply endswith_spec in He as ->.
    + destruct (Text.endswith x sfx) eqn:Hx.
      * apply endswith_spec in Hx. destruct (Hpre x); [left|done].
      * apply IH. intros y Hy. apply Hpre. by right.
  - induction ms as [|x ms IH]; [done|]. simpl.
    destruct (Text.endswith x sfx) eqn:Hx.
    + intros [= ->]. exists [], ms. split; [done|]. split; [by apply endswith_spec|].
      intros y Hy. by apply elem_of_nil in Hy.
    + intros (pre & post & -> & He & Hpre)%IH. exists (x :: pre), post.
      split; [done|]. split; [done|]. intros y [->|Hy]%elem_of_cons; [|by apply Hpre].
      intros Hc%endswith_spec. congruence.
Qed.

Lemma find_no_match (sfx : string) (ms : list string) :
  (∀ id, id ∈ ms → ¬ ends_with id sfx) ↔ List.find (λ x, Text.endswith x sfx) ms = None.
Proof.
  split.
  - intros Hn. destruct (find _ ms) as [id|] eqn:Hf; [|done].
    apply find_some in Hf as [Hin He]. apply endswith_spec in He.
    destruct (Hn id); [by apply list_elem_of_In|done].
  - intros Hf id Hin He. apply endswith_spec in He.
    apply list_elem_of_In in Hin. by pose proof (find_none _ _ Hf id Hin) as Hc; simpl in Hc; congruence.
Qed.

(** ** [buscar_libro_por_id_parcial] against the in-memory server *)

(** The result of the search in the store [db]. *)
Lemma run_buscar (w : world (gmap string entry)) (sfx : string) :
  (run exec (buscar_libro_por_id_parcial sfx) w).1
  = match server w !! ALL_BOOKS_KEY with
    | Some (EStr _) => Uncaught RedisError
    | _ =>
        match List.find (λ x, Text.endswith x sfx) (indexed (server w)) with
        | None => Returned None
        | Some id =>
            if Text.is_empty id then Returned None
            else match server w !! libro_key id with
                 | None => Returned None
                 | Some (ESet _) => Uncaught RedisError
                 | Some (EStr j) =>
                     if Text.is_empty j then Returned None
                     else match Json.loads j with
                          | Json.Ok libro => Returned (Some (libro, libro_key id))
                          | Json.DecodeError => Uncaught JSONDecodeError
                          | Json.Outside => NotModelled
                          end
                 end
        end
    end.
Proof.
  unfold buscar_libro_por_id_parcial, indexed.
  rewrite run_bind. unfold redis_smembers. rewrite run_call. unfold exec at 1 2 3.
  destruct (server w !! ALL_BOOKS_KEY) as [[v|ms]|] eqn:Hidx; cbn [fst snd run];
    [done| |done].
  destruct (find _ ms) as [id|]; [|done].
  destruct (Text.is_empty id); [done|].
  rewrite run_bind. unfold redis_get. rewrite run_call. fold (libro_key id).
  cbn [server answered]. unfold exec.
  destruct (server w !! libro_key id) as [[j|ms']|]; cbn [fst snd run]; [|done|done].
  destruct (Text.is_empty j); [done|].
  rewrite run_bind. unfold json_loads. by destruct (Json.loads j).
Qed.

Lemma server_buscar (w : world (gmap string entry)) (sfx : string) :
  server (run exec (buscar_libro_por_id_parcial sfx) w).2 = server w.
Proof. apply (run_exec_lookups False False _ _ _ (confined_buscar False False sfx)). Qed.

Lemma server_listar (w : world (gmap string entry)) :
  server (run exec listar_libros w).2 = server w.
Proof. apply (run_exec_lookups False False _ _ _ (confined_listar_libros False False)). Qed.

Lemma server_recuperar (w : world (gmap string entry)) :
  server (run exec recuperar_libros w).2 = server w.
Proof. apply (run_exec_lookups False False _ _ _ (confined_recuperar_libros False False)). Qed.

Lemma loads_empty : Json.loads EmptyString = Json.DecodeError.
Proof. reflexivity. Qed.

(** When the index key holds a set, or nothing, the search does not raise
    at the index. *)
Lemma run_buscar_set (w : world (gmap string entry)) (sfx : string) :
  (∀ v, server w !! ALL_BOOKS_KEY ≠ Some (EStr v)) →
  (run exec (buscar_libro_por_id_parcial sfx) w).1
  = match List.find (λ x, Text.endswith x sfx) (indexed (server w)) with
    | None => Returned None
    | Some id =>
        if Text.is_empty id then Returned None
        else match server w !! libro_key id with
             | None => Returned None
             | Some (ESet _) => Uncaught RedisError
             | Some (EStr j) =>
                 if Text.is_empty j then Returned None
                 else match Json.loads j with
                      | Json.Ok libro => Returned (Some (libro, libro_key id))
                      | Json.DecodeError => Uncaught JSONDecodeError
                      | Json.Outside => NotModelled
                      end
             end
    end.
Proof.
  intros Hidx. rewrite run_buscar.
  destruct (server w !! ALL_BOOKS_KEY) as [[v|ms]|] eqn:He; try done.
  by destruct (Hidx v).
Qed.

(** ** [listar_libros] against the in-memory server *)

Lemma decodificar_cons_none (rest : list (option string)) (libros : list value) :
  decodificar (None :: rest) libros = decodificar rest libros.
Proof. reflexivity. Qed.

Lemma decodificar_cons_some (j : string) (rest : list (option string)) (libros : list value) :
  decodificar (Some j :: rest) libros
  = if Text.is_empty j then decodificar rest libros
    else libro ← json_loads j; decodificar rest (libros ++ [libro]).
Proof. reflexivity. Qed.

(** The loop decodes the values that are there, in order. *)
Lemma decodificar_present (js : list (option string)) (acc libros : list value) :
  Forall2 (λ j libro, Json.loads j = Json.Ok libro) (omap id js) libros →
  decodificar js acc = Ret (acc ++ libros).
Proof.
  revert acc libros. induction js as [|[j|] js IH]; intros acc libros Hf.
  - apply Forall2_nil_inv_l in Hf as ->. by rewrite app_nil_r.
  - simpl in Hf. apply Forall2_cons_inv_l in Hf as (libro & libros' & Hl & Hf & ->).
    rewrite decodificar_cons_some.
    destruct (Text.is_empty j) eqn:Hj.
    { apply is_empty_true in Hj as ->. by rewrite loads_empty in Hl. }
    unfold json_loads. rewrite Hl. simpl. rewrite (IH _ _ Hf). by rewrite <- app_assoc.
  - rewrite decodificar_cons_none. by apply IH.
Qed.

Lemma presentes_mget (db : gmap string entry) :
  omap id (string_at db <$> ((λ id, KEY_PREFIX +:+ id) <$> indexed db)) = presentes db.
Proof.
  unfold presentes. generalize (indexed db). intros l.
  induction l as [|x l IH]; [done|].
  rewrite !fmap_cons. cbn [omap list_omap]. fold (libro_key x).
  destruct (string_at db (libro_key x)); simpl; by rewrite <- IH.
Qed.

Lemma run_recuperar_libros (w : world (gmap string entry)) (libros : list value) :
  (∀ v, server w !! ALL_BOOKS_KEY ≠ Some (EStr v)) →
  Forall2 (λ j libro, Json.loads j = Json.Ok libro) (presentes (server w)) libros →
  run exec recuperar_libros w
  = (Returned (rev libros),
     World (server w) (stdin w) (stdout w) (uuid_source w) (uuid_count w)
       (trace w ++ [(SMEMBERS ALL_BOOKS_KEY, RMembers (indexed (server w)));
                    (MGET (libro_key <$> indexed (server w)),
                     RArray (string_at (server w) <$> (libro_key <$> indexed (server w))))])).
Proof.
  intros Hidx Hf. unfold recuperar_libros.
  rewrite run_bind. unfold redis_smembers. rewrite run_call.
  assert (He : exec (server w) (SMEMBERS ALL_BOOKS_KEY) = (RMembers (indexed (server w)), server w)).
  { unfold exec, indexed. destruct (server w !! ALL_BOOKS_KEY) as [[v|ms]|] eqn:E; try done.
    by destruct (Hidx v). }
  rewrite He. cbn [fst snd run]. cbv zeta.
  rewrite run_bind. unfold redis_mget. rewrite run_call.
  change (exec ?db (MGET ?ks)) with (RArray (string_at db <$> ks), db).
  cbn [fst snd run server answered].
  rewrite run_bind. rewrite <- presentes_mget in Hf.
  rewrite (decodificar_present _ [] libros Hf). simpl.
  unfold answered. simpl. by rewrite <- app_assoc.
Qed.

Lemma imprimir_filas_cons (libro : value) (rest : list value) :
  imprimir_filas (libro :: rest)
  = (f ← fila_de libro; print (MsgFila f);; imprimir_filas rest).
Proof. reflexivity. Qed.

Lemma run_imprimir_filas {S} (serve : S → command → reply * S) (w : world S)
    (libros : list value) (filas : list fila) :
  Forall2 (λ libro f, fila_de libro = Ret f) libros filas →
  run serve (imprimir_filas libros) w
  = (Returned tt,
     World (server w) (stdin w) (stdout w ++ (MsgFila <$> filas)) (uuid_source w)
       (uuid_count w) (trace w)).
Proof.
  intros Hf. revert w. induction Hf as [|libro f libros filas Hl _ IH]; intros w.
  - simpl. rewrite app_nil_r. by destruct w.
  - rewrite imprimir_filas_cons, Hl. rewrite run_bind. cbn [run]. rewrite run_bind, run_print.
    cbv beta match. rewrite IH. simpl. by rewrite <- app_assoc.
Qed.

(** Once the books are retrieved, [listar_libros] prints their rows. *)
Lemma run_listar_tras_recuperar {S} (serve : S → command → reply * S) (w w1 : world S)
    (libros : list value) (filas : list fila) :
  run serve recuperar_libros w = (Returned libros, w1) →
  Forall2 (λ libro f, fila_de libro = Ret f) libros filas →
  run serve listar_libros w
  = (Returned tt,
     World (server w1) (stdin w1) (stdout w1 ++ listado filas) (uuid_source w1)
       (uuid_count w1) (trace w1)).
Proof.
  intros Hrun Hr. unfold listar_libros. rewrite run_bind, Hrun. cbv beta match.
  destruct Hr as [|libro f libros' filas' Hl Hr'].
  - simpl. unfold write_out. simpl. by rewrite <- app_assoc.
  - do 3 (rewrite run_bind, run_print; cbv beta match).
    rewrite run_bind, (run_imprimir_filas _ _ (libro :: libros') (f :: filas')) by (by constructor).
    cbv beta match. rewrite run_print. unfold write_out. simpl.
    rewrite <- !app_assoc. simpl. by rewrite <- ?app_assoc.
Qed.

(** ** Books *)

Lemma loads_libro (b : libro) :
  Json.loads (Json.dumps (libro_dict b)) = Json.Ok (libro_dict b).
Proof.
  apply loads_dumps_flat.
  - simpl. repeat (apply NoDup_cons; split; [by vm_compute; intros H; repeat (apply elem_of_cons in H as [H|H]; [discriminate|]); by apply elem_of_nil in H|]).
    apply NoDup_nil_2.
  - repeat (apply Forall_cons; split); try done; simpl.
    + by destruct (libro_anio b).
    + by destruct (libro_genero b).
Qed.

Lemma dumps_libro_not_empty (b : libro) : Text.is_empty (Json.dumps (libro_dict b)) = false.
Proof. unfold libro_dict. by rewrite dumps_dict. Qed.

Lemma fila_de_libro (b : libro) : fila_de (libro_dict b) = Ret (fila_libro b).
Proof.
  destruct b as [id t a [z|] g l]; unfold fila_libro; simpl; [|done].
  unfold fila_de. simpl. unfold celda_anio. simpl. by destruct (z =? 0).
Qed.

Lemma leido_true_dict (b : libro) :
  PDict (dict_update [("leido", PBool true)]
           [("id", PStr (libro_id b));
            ("titulo", PStr (libro_titulo b));
            ("autor", PStr (libro_autor b));
            ("anio_publicacion", match libro_anio b with Some z => PInt z | None => PNone end);
            ("genero", match libro_genero b with Some g => PStr g | None => PNone end);
            ("leido", PBool (libro_leido b))])
  = libro_dict (leido_true b).
Proof. reflexivity. Qed.

(** ** Consistent stores *)

Lemma fmap_rev {A B} (f : A → B) (l : list A) : f <$> rev l = rev (f <$> l).
Proof.
  induction l as [|x l IH]; [done|]. simpl. by rewrite fmap_app, IH.
Qed.

Lemma omap_cons_none {A B} (f : A → option B) (x : A) (l : list A) :
  f x = None → omap f (x :: l) = omap f l.
Proof. intros H. cbn. by rewrite H. Qed.

Lemma omap_cons_some {A B} (f : A → option B) (x : A) (y : B) (l : list A) :
  f x = Some y → omap f (x :: l) = y :: omap f l.
Proof. intros H. cbn. by rewrite H. Qed.

Lemma consistent_present (db : gmap string entry) (l : list string) :
  consistent db → (∀ id, id ∈ l → id ∈ indexed db) →
  ∃ bs, omap (λ id, string_at db (libro_key id)) l = (λ b, Json.dumps (libro_dict b)) <$> bs
        ∧ Forall (stored db) bs.
Proof.
  intros [_ Hc]. induction l as [|id l IH]; intros Hl.
  - by exists [].
  - destruct IH as (bs & Hbs & Hst); [intros; apply Hl; by right|].
    destruct (Hc id) as [_ [Hn | (b & Hb & Hk)]]; [apply Hl; by left|..].
    + exists bs. split; [|done]. rewrite omap_cons_none; [done|].
      unfold string_at. by rewrite Hn.
    + exists (b :: bs). split.
      * rewrite (omap_cons_some _ _ (Json.dumps (libro_dict b))).
        { by rewrite fmap_cons, Hbs. }
        unfold string_at. by rewrite Hk.
      * constructor; [|done]. split; rewrite Hb; [apply Hl; by left|done].
Qed.

Lemma consistent_presentes (db : gmap string entry) :
  consistent db →
  ∃ bs, presentes db = (λ b, Json.dumps (libro_dict b)) <$> bs ∧ Forall (stored db) bs.
Proof. intros Hc. by apply consistent_present. Qed.

(** In a consistent store the listing goes through and shows the books. *)
Lemma run_listar_consistent (w : world (gmap string entry)) :
  consistent (server w) →
  ∃ bs, Forall (stored (server w)) bs ∧
    (run exec recuperar_libros w).1 = Returned (libro_dict <$> rev bs) ∧
    run exec listar_libros w
    = (Returned tt,
       World (server w) (stdin w) (stdout w ++ listado (fila_libro <$> rev bs))
         (uuid_source w) (uuid_count w) (trace w ++ issued exec recuperar_libros w)).
Proof.
  intros Hc. destruct (consistent_presentes _ Hc) as (bs & Hp & Hst).
  exists bs. split; [done|].
  assert (Hidx : ∀ v, server w !! ALL_BOOKS_KEY ≠ Some (EStr v)) by (by destruct Hc).
  assert (Hdec : Forall2 (λ j libro, Json.loads j = Json.Ok libro)
                   (presentes (server w)) (libro_dict <$> bs)).
  { rewrite Hp. apply Forall2_fmap, Forall_Forall2_diag, Forall_forall.
    intros b _. apply loads_libro. }
  pose proof (run_recuperar_libros w (libro_dict <$> bs) Hidx Hdec) as Hrun.
  rewrite <- fmap_rev in Hrun.
  assert (Hi : issued exec recuperar_libros w
    = [(SMEMBERS ALL_BOOKS_KEY, RMembers (indexed (server w)));
       (MGET (libro_key <$> indexed (server w)),
        RArray (string_at (server w) <$> (libro_key <$> indexed (server w))))]).
  { apply issued_from. by rewrite Hrun. }
  split; [by rewrite Hrun|]. rewrite Hi.
  apply (run_listar_tras_recuperar exec w _ (libro_dict <$> rev bs) _ Hrun).
  apply Forall2_fmap, Forall_Forall2_diag, Forall_forall.
  intros b _. apply fila_de_libro.
Qed.

(** ** [marcar_como_leido] on a stored book *)

Lemma indexed_elem_set (db : gmap string entry) (id : string) :
  id ∈ indexed db → ∃ ms, db !! ALL_BOOKS_KEY = Some (ESet ms) ∧ indexed db = ms.
Proof.
  unfold indexed. destruct (db !! ALL_BOOKS_KEY) as [[v|ms]|]; try (by intros ?%elem_of_nil).
  intros _. by exists ms.
Qed.

Lemma first_match_elem (sfx : string) (ms : list string) (id : string) :
  first_match sfx ms id → id ∈ ms.
Proof. intros (pre & post & -> & _). apply elem_of_app. right. by left. Qed.

Lemma run_buscar_libro (w : world (gmap string entry)) (b : libro) (sfx : string) :
  consistent (server w) → stored (server w) b →
  first_match sfx (indexed (server w)) (libro_id b) →
  ∃ w', run exec (buscar_libro_por_id_parcial sfx) w
        = (Returned (Some (libro_dict b, libro_key (libro_id b))), w') ∧
        server w' = server w ∧ stdin w' = stdin w ∧
        trace w' = trace w ++ issued exec (buscar_libro_por_id_parcial sfx) w ∧
        reads_only (issued exec (buscar_libro_por_id_parcial sfx) w).
Proof.
  intros [Hidx Hc] [Hin Hk] Hfm.
  pose proof (run_buscar_set w sfx Hidx) as H1. pose proof (server_buscar w sfx) as Hs.
  apply find_first_match in Hfm.
  rewrite Hfm, (is_empty_false _ (proj1 (Hc _ Hin))), Hk, dumps_libro_not_empty,
    loads_libro in H1.
  destruct (confined_run exec _ _ _ _ _ (confined_buscar False False sfx) w) as (Hr & Hi & _).
  pose proof (run_trace exec (buscar_libro_por_id_parcial sfx) w) as Ht.
  destruct (run exec (buscar_libro_por_id_parcial sfx) w) as [o w'].
  simpl in *. subst o. exists w'. repeat split; try done; [tauto|].
  intros c r Hcr. rewrite Forall_forall in Hr. by destruct (Hr _ Hcr).
Qed.

Lemma reads_only_app (t1 t2 : list (command * reply)) :
  reads_only t1 → reads_only t2 → reads_only (t1 ++ t2).
Proof. intros H1 H2 c r [?|?]%elem_of_app; [by eapply H1|by eapply H2]. Qed.

Lemma reads_only_recuperar {S} (serve : S → command → reply * S) (w : world S) :
  reads_only (issued serve recuperar_libros w).
Proof.
  destruct (confined_run serve _ _ _ _ _ (confined_recuperar_libros False False) w) as (Hr & _).
  intros c r Hcr. rewrite Forall_forall in Hr. by destruct (Hr _ Hcr).
Qed.

Lemma run_marcar_libro (w : world (gmap string entry)) (b : libro) (l : string)
    (rest : list string) :
  consistent (server w) → stored (server w) b →
  stdin w = l :: rest → Text.strip l ≠ EmptyString →
  first_match (Text.strip l) (indexed (server w)) (libro_id b) →
  ∃ w', run exec marcar_como_leido w = (Returned tt, w') ∧ stdin w' = rest ∧
    ((libro_leido b = true ∧ server w' = server w ∧
      last (stdout w') = Some MsgYaLeido ∧
      reads_only (issued exec marcar_como_leido w)) ∨
     (libro_leido b = false ∧
      server w' = <[libro_key (libro_id b) := EStr (Json.dumps (libro_dict (leido_true b)))]>
                    (server w) ∧
      last (stdout w') = Some (MsgMarcado (Text.strip l) (PStr (libro_titulo b))))).
Proof.
  intros Hc Hst Hin Hs Hfm.
  destruct (run_listar_consistent w Hc) as (bs & _ & _ & Hl).
  pose proof (reads_only_recuperar exec w) as Hrl.
  unfold marcar_como_leido at 1. rewrite run_bind, Hl. cbv beta match.
  rewrite run_bind, run_fmap, run_input. cbn [stdin]. rewrite Hin. cbv beta match.
  rewrite is_empty_false by done.
  rewrite run_try_except, run_bind.
  match goal with |- context [run exec (buscar_libro_por_id_parcial _) ?w2] =>
    destruct (run_buscar_libro w2 b (Text.strip l)) as (w3 & Hb & Hs3 & Hi3 & Ht3 & Hr3);
      [done|done|done|] end.
  rewrite Hb. cbv beta match.
  change (negb (truthy (libro_dict b))) with false. cbv beta match.
  rewrite run_bind.
  change (py_get (libro_dict b) "leido" (PBool false)) with (@Ret value (PBool (libro_leido b))).
  cbn [run truthy]. simpl in Hs3, Hi3, Ht3.
  destruct (libro_leido b) eqn:Hleido.
  - rewrite run_print. eexists. split; [reflexivity|]. split; [done|]. left.
    split; [done|]. split; [done|]. split; [simpl; by rewrite last_snoc|].
    erewrite issued_from.
    2:{ unfold marcar_como_leido. rewrite run_bind, Hl. cbv beta match.
        rewrite run_bind, run_fmap, run_input. cbn [stdin]. rewrite Hin. cbv beta match.
        rewrite is_empty_false by done. rewrite run_try_except, run_bind, Hb.
        cbv beta match. change (negb (truthy (libro_dict b))) with false. cbv beta match.
        rewrite run_bind.
        change (py_get (libro_dict b) "leido" (PBool false)) with (@Ret value (PBool (libro_leido b))).
        cbn [run truthy]. rewrite Hleido, run_print. cbn [snd write_out trace].
        rewrite Ht3. rewrite <- app_assoc. reflexivity. }
    by apply reads_only_app.
  - change (actualizar_libro (libro_dict b) ?k ?kw)
      with (redis_set k (Json.dumps (libro_dict (leido_true b)));; Ret (libro_dict (leido_true b))).
    rewrite !run_bind. unfold redis_set. rewrite run_call.
    change (exec ?d (SET ?k ?v)) with (ROk, <[k := EStr v]> d).
    cbn [fst snd run]. rewrite run_bind.
    change (py_item (libro_dict (leido_true b)) "titulo") with (@Ret value (PStr (libro_titulo b))).
    cbn [run]. rewrite run_print. eexists. split; [reflexivity|]. split; [done|]. right.
    split; [done|]. split; [simpl; by rewrite Hs3|]. simpl. by rewrite last_snoc.
Qed.

Lemma indexed_insert_libro (db : gmap string entry) (id : string) (e : entry) :
  indexed (<[libro_key id := e]> db) = indexed db.
Proof. unfold indexed. by rewrite lookup_insert_ne by apply libro_key_not_index. Qed.

Lemma consistent_insert_libro (db : gmap string entry) (b : libro) :
  consistent db → libro_id b ∈ indexed db →
  consistent (<[libro_key (libro_id b) := EStr (Json.dumps (libro_dict b))]> db).
Proof.
  intros [Hidx Hc] Hin. split.
  - intros v. rewrite lookup_insert_ne by apply libro_key_not_index. apply Hidx.
  - intros id. rewrite indexed_insert_libro. intros Hid.
    destruct (Hc id Hid) as [Hne Hk]. split; [done|].
    destruct (decide (id = libro_id b)) as [->|Hd].
    + right. exists b. by rewrite lookup_insert_eq.
    + rewrite lookup_insert_ne; [done|]. intros He%libro_key_inj. congruence.
Qed.

(** ** [eliminar_libro] on a stored book *)

Lemma exec_del_present (db : gmap string entry) (k : string) (e : entry) :
  db !! k = Some e → exec db (DEL k) = (RInt 1, delete k db).
Proof. intros H. unfold exec. by rewrite H. Qed.

Lemma exec_srem_member (db : gmap string entry) (ms : list string) (id : string) :
  db !! ALL_BOOKS_KEY = Some (ESet ms) → id ∈ ms →
  ∃ db', exec db (SREM ALL_BOOKS_KEY id) = (RInt 1, db') ∧
         indexed db' = filter (λ x, x ≠ id) ms ∧
         (∀ v, db' !! ALL_BOOKS_KEY ≠ Some (EStr v)) ∧
         (∀ k, k ≠ ALL_BOOKS_KEY → db' !! k = db !! k).
Proof.
  intros Hidx Hin. unfold exec. rewrite Hidx. rewrite decide_True by done.
  destruct (filter (λ x, x ≠ id) ms) as [|m ms'] eqn:Hf.
  - eexists. split; [done|]. unfold indexed. rewrite lookup_delete_eq.
    split; [done|]. split; [done|]. intros k Hk. by rewrite lookup_delete_ne.
  - eexists. split; [done|]. unfold indexed. rewrite lookup_insert_eq.
    split; [done|]. split; [done|]. intros k Hk. by rewrite lookup_insert_ne.
Qed.

Lemma run_eliminar_libro (w : world (gmap string entry)) (b : libro) (l : string)
    (rest : list string) :
  consistent (server w) → stored (server w) b →
  stdin w = l :: rest → Text.strip l ≠ EmptyString →
  first_match (Text.strip l) (indexed (server w)) (libro_id b) →
  ∃ w', run exec eliminar_libro w = (Returned tt, w') ∧ stdin w' = rest ∧
    server w' !! libro_key (libro_id b) = None ∧
    indexed (server w') = filter (λ x, x ≠ libro_id b) (indexed (server w)) ∧
    (∀ v, server w' !! ALL_BOOKS_KEY ≠ Some (EStr v)) ∧
    (∀ k, k ≠ libro_key (libro_id b) → k ≠ ALL_BOOKS_KEY → server w' !! k = server w !! k) ∧
    last (stdout w') = Some (MsgEliminado (Text.strip l) (PStr (libro_titulo b))) ∧
    ∃ t, reads_only t ∧
         trace w' = trace w ++ t ++ [(DEL (libro_key (libro_id b)), RInt 1);
                                     (SREM ALL_BOOKS_KEY (libro_id b), RInt 1)].
Proof.
  intros Hc Hst Hin Hs Hfm.
  destruct (run_listar_consistent w Hc) as (bs & _ & _ & Hl).
  unfold eliminar_libro. rewrite run_bind, Hl. cbv beta match.
  rewrite run_bind, run_fmap, run_input. cbn [stdin]. rewrite Hin. cbv beta match.
  rewrite is_empty_false by done.
  rewrite run_try_except, run_bind.
  match goal with |- context [run exec (buscar_libro_por_id_parcial _) ?w2] =>
    destruct (run_buscar_libro w2 b (Text.strip l)) as (w3 & Hb & Hs3 & Hi3 & Ht3 & Hr3);
      [done|done|done|] end.
  rewrite Hb. cbv beta match. simpl in Hs3, Hi3.
  change (negb (truthy (libro_dict b))) with false. cbv beta match.
  destruct Hst as [Hid Hk].
  destruct (indexed_elem_set _ _ Hid) as (ms & Hidx & Hms).
  rewrite run_bind. unfold redis_delete. rewrite run_call, Hs3.
  rewrite (exec_del_present _ _ _ Hk). cbn [fst snd run].
  change (0 <? 1) with true. cbv beta match.
  rewrite run_bind.
  change (py_item (libro_dict b) "id") with (@Ret value (PStr (libro_id b))).
  cbn [run]. rewrite run_bind. cbn [run redis_arg].
  rewrite run_bind. unfold redis_srem. rewrite run_call. cbn [server answered].
  destruct (exec_srem_member (delete (libro_key (libro_id b)) (server w)) ms (libro_id b))
    as (db' & He & Hi' & Hn' & Hk').
  { rewrite lookup_delete_ne; [done|]. apply libro_key_not_index. }
  { by rewrite <- Hms. }
  rewrite He. cbn [fst snd run]. rewrite run_bind.
  change (py_item (libro_dict b) "titulo") with (@Ret value (PStr (libro_titulo b))).
  cbn [run]. rewrite run_print.
  eexists. split; [reflexivity|]. split; [done|]. cbn [server stdout write_out answered].
  split.
  { rewrite Hk' by apply libro_key_not_index. apply lookup_delete_eq. }
  split; [by rewrite Hi', Hms|]. split; [done|]. split.
  { intros k Hk1 Hk2. rewrite Hk' by done. by rewrite lookup_delete_ne. }
  split; [by rewrite last_snoc|].
  eexists (issued exec recuperar_libros w ++ _).
  split; [apply reads_only_app; [apply reads_only_recuperar|exact Hr3]|].
  cbn [trace answered write_out]. rewrite Ht3. cbn [trace read_line write_out].
  by rewrite <- !app_assoc.
Qed.

Lemma list_elem_of_filter_ne (ms : list string) (id x : string) :
  x ∈ filter (λ y, y ≠ id) ms ↔ x ≠ id ∧ x ∈ ms.
Proof. apply (list_elem_of_filter (λ y, y ≠ id)). Qed.

Lemma first_match_filter (sfx : string) (ms : list string) (id id' : string) :
  first_match sfx (filter (λ y, y ≠ id) ms) id' → id' ≠ id ∧ id' ∈ ms ∧ ends_with id' sfx.
Proof.
  intros Hfm. pose proof (first_match_elem _ _ _ Hfm) as Hin.
  apply list_elem_of_filter_ne in Hin as [Hne Hin].
  destruct Hfm as (_ & _ & _ & He & _). done.
Qed.

(** After the deletion of a stored book the store is consistent, does not
    list the book, and no search returns its key. *)
Lemma run_eliminar_efecto (w : world (gmap string entry)) (b : libro) (l : string)
    (rest : list string) :
  consistent (server w) → stored (server w) b →
  stdin w = l :: rest → Text.strip l ≠ EmptyString →
  first_match (Text.strip l) (indexed (server w)) (libro_id b) →
  (run exec eliminar_libro w).1 = Returned tt ∧
  (server (run exec eliminar_libro w).2) !! libro_key (libro_id b) = None ∧
  (libro_id b ∉ indexed (server (run exec eliminar_libro w).2)) ∧
  (∀ w2 : world (gmap string entry),
     server w2 = server (run exec eliminar_libro w).2 →
     (∃ bs, (run exec recuperar_libros w2).1 = Returned (libro_dict <$> bs) ∧
            ∀ b', b' ∈ bs → libro_id b' ≠ libro_id b) ∧
     (∀ sfx libro, (run exec (buscar_libro_por_id_parcial sfx) w2).1
                   ≠ Returned (Some (libro, libro_key (libro_id b)))) ∧
     ((∀ id, id ∈ indexed (server w) → id ≠ libro_id b → ¬ ends_with id (Text.strip l)) →
      (run exec (buscar_libro_por_id_parcial (Text.strip l)) w2).1 = Returned None)).
Proof.
  intros Hc Hst Hin Hs Hfm.
  destruct (run_eliminar_libro w b l rest Hc Hst Hin Hs Hfm)
    as (w1 & Hrun & _ & Hgone & Hidx & Htype & Hframe & _ & _).
  rewrite Hrun. cbn [fst snd].
  assert (Hnotin : libro_id b ∉ indexed (server w1)).
  { rewrite Hidx. intros [? _]%list_elem_of_filter_ne. done. }
  assert (Hc1 : consistent (server w1)).
  { split; [done|]. intros id. rewrite Hidx. intros [Hne Hid]%list_elem_of_filter_ne.
    destruct Hc as [_ Hc]. destruct (Hc id Hid) as [Hne' Hk]. split; [done|].
    rewrite Hframe; [done| |apply libro_key_not_index].
    intros He%libro_key_inj. done. }
  split; [done|]. split; [done|]. split; [done|].
  intros w2 Hw2. rewrite <- Hw2 in Hc1, Hnotin, Hidx, Htype. split; [|split].
  - destruct (run_listar_consistent w2 Hc1) as (bs & Hst2 & Hrec & _).
    exists (rev bs). split; [done|]. intros b' Hb'.
    apply list_elem_of_In, in_rev, list_elem_of_In in Hb'.
    rewrite Forall_forall in Hst2. destruct (Hst2 b' Hb') as [Hid' _].
    intros Heq. rewrite Heq in Hid'. done.
  - intros sfx libro. rewrite run_buscar.
    destruct (server w2 !! ALL_BOOKS_KEY) as [[v|ms]|] eqn:Hi2; [done| |].
    + destruct (find _ (indexed (server w2))) as [id|] eqn:Hf; [|done].
      destruct (Text.is_empty id); [done|].
      destruct (server w2 !! libro_key id) as [[j|ms']|]; [|done|done].
      destruct (Text.is_empty j); [done|].
      destruct (Json.loads j); [|done|done].
      intros Heq. assert (Hkk : libro_key id = libro_key (libro_id b)) by congruence.
      apply libro_key_inj in Hkk as ->. apply find_some in Hf as [Hf _].
      apply list_elem_of_In in Hf. done.
    + unfold indexed. rewrite Hi2. done.
  - intros Hother.
    rewrite (run_buscar_set w2 (Text.strip l) Htype).
    assert (Hnone : List.find (λ x, Text.endswith x (Text.strip l)) (indexed (server w2)) = None).
    { apply find_no_match. intros id. rewrite Hidx.
      intros [Hne Hid]%list_elem_of_filter_ne. by apply Hother. }
    by rewrite Hnone.
Qed.

(** ** The shapes of a run of [eliminar_libro], whatever the server *)

Section Shapes.
Context {S : Type} (serve : S → command → reply * S).

Lemma lookups_listar (w : world S) :
  Forall (λ cr, lookup_only cr.1) (issued serve listar_libros w) ∧
  stdin (run serve listar_libros w).2 = stdin w.
Proof.
  destruct (confined_run serve _ _ _ _ _ (confined_listar_libros False False) w) as (H1 & H2 & _).
  split; [done|tauto].
Qed.

Lemma lookups_buscar (w : world S) (sfx : string) :
  Forall (λ cr, lookup_only cr.1) (issued serve (buscar_libro_por_id_parcial sfx) w) ∧
  found_key match (run serve (buscar_libro_por_id_parcial sfx) w).1 with
            | Returned found => found
            | _ => None
            end.
Proof.
  destruct (confined_run serve _ _ _ _ _ (confined_buscar False False sfx) w) as (H1 & _ & _ & H4).
  split; [done|]. destruct (run serve _ w) as [[found| |] w']; simpl in *; try done.
  by apply H4.
Qed.

Lemma confined_tras_borrar (libro : value) (id_parcial : string) :
  confined is_srem False False any (tras_borrar libro id_parcial).
Proof.
  unfold tras_borrar.
  apply (confined_bind _ _ _ any); [apply confined_pure, pure_py_item|]. intros id _.
  apply (confined_bind _ _ _ any); [by destruct id|]. intros m _.
  apply (confined_bind _ _ _ any).
  { unfold redis_srem. split; [by exists m|]. by intros []. }
  intros _ _. apply (confined_bind _ _ _ any); [apply confined_pure, pure_py_item|]. done.
Qed.

(** How a run of [eliminar_libro] can go: it sends lookups only; or
    lookups, then one [DEL] not counted positive, and reports that the
    key could not be removed when the count is an integer; or lookups, one
    [DEL] counted positive, and then removals from the index set only. *)
Lemma eliminar_shapes (w : world S) :
  (Forall (λ cr, lookup_only cr.1) (issued serve eliminar_libro w))
  ∨ (∃ t key r,
        Forall (λ cr, lookup_only cr.1) t ∧
        issued serve eliminar_libro w = t ++ [(DEL key, r)] ∧
        (∀ n, r = RInt n → n ≤ 0 ∧
           (run serve eliminar_libro w).1 = Returned tt ∧
           last (stdout (run serve eliminar_libro w).2) = Some MsgNoSePudoEliminar))
  ∨ (∃ t key n t',
        Forall (λ cr, lookup_only cr.1) t ∧ 0 < n ∧
        issued serve eliminar_libro w = t ++ (DEL key, RInt n) :: t' ∧
        Forall (λ cr, is_srem cr.1) t').
Proof.
  destruct (lookups_listar w) as [Hl1 Hl2].
  pose proof (run_trace serve listar_libros w) as Ht1.
  set (t1 := issued serve listar_libros w) in *.
  unfold issued. destruct (run serve eliminar_libro w) as [o w'] eqn:Hrun. cbn [fst snd].
  unfold eliminar_libro in Hrun. rewrite run_bind in Hrun.
  destruct (run serve listar_libros w) as [o1 w1]. cbn [fst snd] in *.
  assert (Hdrop : ∀ t, drop (length (trace w)) (trace w ++ t) = t)
    by (intros; apply drop_app_length).
  destruct o1 as [[]|e|]; [|injection Hrun as <- <-; left; by rewrite Ht1, Hdrop..].
  rewrite run_bind, run_fmap, run_input, Hl2 in Hrun.
  destruct (stdin w) as [|l ls]; [injection Hrun as <- <-; left; simpl; by rewrite Ht1, Hdrop|].
  cbv beta match in Hrun.
  destruct (Text.is_empty (Text.strip l));
    [injection Hrun as <- <-; left; simpl; by rewrite Ht1, Hdrop|].
  rewrite run_try_except, run_bind in Hrun.
  match type of Hrun with context [run serve (buscar_libro_por_id_parcial _) ?w2] =>
    destruct (lookups_buscar w2 (Text.strip l)) as [Hb1 Hb2];
    pose proof (run_trace serve (buscar_libro_por_id_parcial (Text.strip l)) w2) as Ht3;
    set (t3 := issued serve (buscar_libro_por_id_parcial (Text.strip l)) w2) in *;
    destruct (run serve (buscar_libro_por_id_parcial (Text.strip l)) w2) as [o3 w3]
  end.
  cbn [fst snd trace read_line write_out] in *. rewrite Ht1 in Ht3.
  assert (Hlook : Forall (λ cr, lookup_only cr.1) (t1 ++ t3)) by (by apply Forall_app).
  destruct o3 as [[[libro key]|]|e|];
    [|injection Hrun as <- <-; left; simpl; by rewrite Ht3, <- app_assoc, Hdrop..].
  cbv beta match in Hrun.
  destruct (negb (truthy libro));
    [injection Hrun as <- <-; left; simpl; by rewrite Ht3, <- app_assoc, Hdrop|].
  rewrite run_bind in Hrun. unfold redis_delete in Hrun. rewrite run_call in Hrun.
  destruct (serve (server w3) (DEL key)) as [r s4]. cbn [fst snd] in Hrun.
  assert (Hone : ∀ t', drop (length (trace w)) (((trace w ++ t1) ++ t3) ++ t')
                        = (t1 ++ t3) ++ t').
  { intros t'. by rewrite <- !app_assoc, Hdrop. }
  destruct r as [|n|v|vs|ms|];
    try (cbn [run] in Hrun; injection Hrun as <- <-; right; left;
         exists (t1 ++ t3), key; eexists; split; [done|]; split;
         [simpl; by rewrite Ht3, Hone|done]).
  cbn [run] in Hrun. destruct (0 <? n) eqn:Hn.
  - fold (tras_borrar libro (Text.strip l)) in Hrun.
    match type of Hrun with context [run serve (tras_borrar _ _) ?w4] =>
      destruct (confined_run serve _ _ _ _ _ (confined_tras_borrar libro (Text.strip l)) w4)
        as (Hs1 & _);
      pose proof (run_trace serve (tras_borrar libro (Text.strip l)) w4) as Ht5;
      set (t5 := issued serve (tras_borrar libro (Text.strip l)) w4) in *;
      destruct (run serve (tras_borrar libro (Text.strip l)) w4) as [o5 w5]
    end.
    cbn [fst snd trace answered] in *. rewrite Ht3 in Ht5.
    right; right. exists (t1 ++ t3), key, n, t5.
    split; [done|]. split; [by apply Z.ltb_lt|]. split; [|done].
    destruct o5 as [[]|e|]; injection Hrun as <- <-; simpl;
      rewrite Ht5, <- !app_assoc, Hdrop; by rewrite <- ?app_assoc.
  - cbn [run] in Hrun. injection Hrun as <- <-. right; left.
    exists (t1 ++ t3), key, (RInt n). split; [done|]. split.
    + simpl. by rewrite Ht3, Hone.
    + intros n' [= <-]. split; [by apply Z.ltb_ge|]. split; [done|].
      simpl. by rewrite last_snoc.
Qed.

End Shapes.

Lemma lookup_not_write (t : list (command * reply)) (c : command) (r : reply) :
  Forall (λ cr, lookup_only cr.1) t → (c, r) ∈ t → is_write c = false.
Proof. rewrite Forall_forall. intros Hf Hin. by destruct (Hf _ Hin). Qed.

(** A deletion that removes nothing is followed by no other command and by
    the report that the key could not be removed. *)
Lemma eliminar_sin_borrado {S} (serve : S → command → reply * S) (w : world S)
    (k : string) (n : Z) :
  (DEL k, RInt n) ∈ issued serve eliminar_libro w → n ≤ 0 →
  (∀ c r, (c, r) ∈ issued serve eliminar_libro w → is_write c = true → c = DEL k) ∧
  (run serve eliminar_libro w).1 = Returned tt ∧
  last (stdout (run serve eliminar_libro w).2) = Some MsgNoSePudoEliminar.
Proof.
  intros Hin Hn.
  destruct (eliminar_shapes serve w)
    as [Hl | [(t & key & r & Hl & Hi & Hr) | (t & key & n' & t' & Hl & Hn' & Hi & Hs)]].
  - by pose proof (lookup_not_write _ _ _ Hl Hin).
  - rewrite Hi in Hin |- *. apply elem_of_app in Hin as [Hin|Hin].
    { by pose proof (lookup_not_write _ _ _ Hl Hin). }
    apply list_elem_of_singleton in Hin. injection Hin as <- <-.
    destruct (Hr n eq_refl) as (_ & Ho & Hlast). split; [|done].
    intros c r [Hc|Hc]%elem_of_app Hw.
    + pose proof (lookup_not_write _ _ _ Hl Hc). congruence.
    + apply list_elem_of_singleton in Hc. congruence.
  - rewrite Hi in Hin. apply elem_of_app in Hin as [Hin|Hin].
    { by pose proof (lookup_not_write _ _ _ Hl Hin). }
    apply elem_of_cons in Hin as [Hin|Hin]; [injection Hin as <- <-; lia|].
    rewrite Forall_forall in Hs. by destruct (Hs _ Hin) as [m Hm].
Qed.

(** ** What each operation does to the store *)

Lemma exec_del (db : gmap string entry) (k : string) : (exec db (DEL k)).2 = delete k db.
Proof.
  unfold exec. destruct (db !! k) eqn:Hk; [done|]. simpl. by rewrite delete_id.
Qed.

Lemma exec_sadd_other (db : gmap string entry) (k idx m : string) :
  k ≠ idx → (exec db (SADD idx m)).2 !! k = db !! k.
Proof.
  intros Hk. unfold exec. destruct (db !! idx) as [[v|ms]|]; simpl; [done| |].
  - destruct (decide (m ∈ ms)); simpl; [done|]. by rewrite lookup_insert_ne.
  - by rewrite lookup_insert_ne.
Qed.

Lemma exec_srem_other (db : gmap string entry) (k idx m : string) :
  k ≠ idx → (exec db (SREM idx m)).2 !! k = db !! k.
Proof.
  intros Hk. unfold exec. destruct (db !! idx) as [[v|ms]|]; simpl; [done| |done].
  destruct (decide (m ∈ ms)); simpl; [|done].
  destruct (filter _ ms); simpl; [by rewrite lookup_delete_ne|by rewrite lookup_insert_ne].
Qed.

Lemma replay_srem (t : list (command * reply)) (db : gmap string entry) (k : string) :
  Forall (λ cr, is_srem cr.1) t → k ≠ ALL_BOOKS_KEY →
  fold_left (λ db cr, (exec db cr.1).2) t db !! k = db !! k.
Proof.
  intros Hf Hk. revert db. induction Hf as [|[c r] t [m Hm] _ IH]; intros db; [done|].
  simpl in *. subst c. by rewrite IH, exec_srem_other.
Qed.

Lemma lookups_no_write (t : list (command * reply)) :
  Forall (λ cr, lookup_only cr.1) t → Forall (λ cr, is_write cr.1 = false) t.
Proof. intros Hl. eapply Forall_impl; [exact Hl|]. by intros ? []. Qed.

Lemma server_eliminar (w : world (gmap string entry)) (k : string) :
  k ≠ ALL_BOOKS_KEY →
  server (run exec eliminar_libro w).2 !! k = server w !! k ∨
  server (run exec eliminar_libro w).2 !! k = None.
Proof.
  intros Hk. rewrite run_exec_replay.
  destruct (eliminar_shapes exec w)
    as [Hl | [(t & key & r & Hl & -> & _) | (t & key & n' & t' & Hl & _ & -> & Hs)]].
  - left. by rewrite replay_lookups by (by apply lookups_no_write).
  - rewrite fold_left_app, (replay_lookups t) by (by apply lookups_no_write).
    simpl. rewrite exec_del. destruct (decide (k = key)) as [->|Hne].
    + right. apply lookup_delete_eq.
    + left. by rewrite lookup_delete_ne.
  - rewrite fold_left_app, (replay_lookups t) by (by apply lookups_no_write).
    simpl. rewrite replay_srem, exec_del by done. destruct (decide (k = key)) as [->|Hne].
    + right. apply lookup_delete_eq.
    + left. by rewrite lookup_delete_ne.
Qed.

Lemma buscar_found (w : world (gmap string entry)) (sfx : string) (libro : value)
    (key : string) :
  (run exec (buscar_libro_por_id_parcial sfx) w).1 = Returned (Some (libro, key)) →
  ∃ id j, key = libro_key id ∧ server w !! key = Some (EStr j) ∧ Json.loads j = Json.Ok libro.
Proof.
  rewrite run_buscar.
  destruct (server w !! ALL_BOOKS_KEY) as [[v|ms]|]; [done|..];
    (destruct (find _ _) as [id|]; [|done]);
    (destruct (Text.is_empty id); [done|]);
    (destruct (server w !! libro_key id) as [[j|ms']|] eqn:Hk; [|done|done]);
    (destruct (Text.is_empty j); [done|]);
    (destruct (Json.loads j) eqn:Hj; [|done|done]);
    intros [= <- <-]; by exists id, j.
Qed.

(** [marcar_como_leido] leaves the store as it is, or rewrites one book key
    with the decoded [dict] updated. *)
Lemma server_marcar (w : world (gmap string entry)) :
  server (run exec marcar_como_leido w).2 = server w ∨
  ∃ id j d,
    server w !! libro_key id = Some (EStr j) ∧ Json.loads j = Json.Ok (PDict d) ∧
    server (run exec marcar_como_leido w).2
    = <[libro_key id := EStr (Json.dumps (PDict (dict_update [("leido", PBool true)] d)))]>
        (server w).
Proof.
  pose proof (server_listar w) as Hs1.
  destruct (lookups_listar exec w) as [_ Hl2].
  destruct (run exec marcar_como_leido w) as [o w'] eqn:Hrun. cbn [fst snd].
  unfold marcar_como_leido in Hrun. rewrite run_bind in Hrun.
  destruct (run exec listar_libros w) as [o1 w1]. cbn [fst snd] in *.
  destruct o1 as [[]|e|]; [|injection Hrun as <- <-; by left..].
  rewrite run_bind, run_fmap, run_input, Hl2 in Hrun.
  destruct (stdin w) as [|l ls]; [injection Hrun as <- <-; by left|].
  cbv beta match in Hrun.
  destruct (Text.is_empty (Text.strip l)); [injection Hrun as <- <-; by left|].
  rewrite run_try_except, run_bind in Hrun.
  match type of Hrun with context [run exec (buscar_libro_por_id_parcial _) ?w2] =>
    pose proof (server_buscar w2 (Text.strip l)) as Hs3;
    pose proof (buscar_found w2 (Text.strip l)) as Hf3;
    destruct (run exec (buscar_libro_por_id_parcial (Text.strip l)) w2) as [o3 w3]
  end.
  cbn [fst snd server read_line write_out] in *. rewrite Hs1 in Hs3, Hf3.
  destruct o3 as [[[libro key]|]|e|]; [|injection Hrun as <- <-; by left..].
  cbv beta match in Hrun.
  destruct (negb (truthy libro)); [injection Hrun as <- <-; by left|].
  destruct (Hf3 libro key eq_refl) as (id & j & -> & Hk & Hj).
  destruct libro as [| | | | |d]; try (injection Hrun as <- <-; by left).
  rewrite run_bind in Hrun. cbn [py_get run] in Hrun.
  destruct (truthy _); [injection Hrun as <- <-; by left|].
  rewrite run_bind in Hrun. cbn [actualizar_libro] in Hrun. cbv zeta in Hrun.
  rewrite run_bind in Hrun. unfold redis_set in Hrun. rewrite run_call in Hrun.
  change (exec ?d (SET ?k ?v)) with (ROk, <[k := EStr v]> d) in Hrun.
  cbn [fst snd run] in Hrun. rewrite run_bind in Hrun.
  right. exists id, j, d. split; [done|]. split; [done|]. rewrite <- Hs3.
  unfold py_item in Hrun.
  destruct (dict_get "titulo" _); cbn [run is_Exception] in Hrun;
    injection Hrun as <- <-; done.
Qed.

Lemma server_agregar (w : world (gmap string entry)) (k : string) :
  k ≠ ALL_BOOKS_KEY → k ≠ libro_key (uuid_source w (uuid_count w)) →
  server (run exec agregar_libro w).2 !! k = server w !! k.
Proof.
  intros Hk Hu.
  destruct (stdin w) as [|t [|a [|y [|g rest]]]] eqn:Hin.
  1,2: destruct w as [db inp out src cnt tr]; simpl in Hin; subst inp; reflexivity.
  all: destruct (Text.is_empty (Text.strip t) || Text.is_empty (Text.strip a)) eqn:He.
  1,3,5: (destruct w as [db inp out src cnt tr]; simpl in Hin; subst inp;
          unfold agregar_libro; simpl; rewrite He; reflexivity).
  - destruct w as [db inp out src cnt tr]; simpl in Hin; subst inp.
    unfold agregar_libro. simpl. rewrite He. reflexivity.
  - destruct w as [db inp out src cnt tr]; simpl in Hin; subst inp.
    unfold agregar_libro. simpl. rewrite He. simpl.
    destruct (Text.isdigit y); [destruct (Text.py_int y)|]; reflexivity.
  - apply orb_false_iff in He as [Ht Ha].
    destruct (run_agregar_libro w t a y g rest Hin) as (out & ->).
    { intros H. by rewrite H in Ht. } { intros H. by rewrite H in Ha. }
    cbn [snd server]. rewrite exec_sadd_other by done. by rewrite lookup_insert_ne.
Qed.

(** ** The storage layout *)

Lemma keys_within_layout {S A} (serve : S → command → reply * S) (p : prog A) (w : world S)
    inputs uuids result :
  confined (in_layout KEY_PREFIX ALL_BOOKS_KEY) inputs uuids result p →
  keys_within KEY_PREFIX ALL_BOOKS_KEY (issued serve p w).
Proof.
  intros Hc. destruct (confined_run serve _ _ _ _ p Hc w) as (Hf & _).
  intros c r k Hcr Hk. rewrite Forall_forall in Hf. by apply (Hf _ Hcr).
Qed.

Lemma keys_within_lookups {S A} (serve : S → command → reply * S) (p : prog A) (w : world S)
    inputs uuids result :
  confined lookup_only inputs uuids result p →
  keys_within KEY_PREFIX ALL_BOOKS_KEY (issued serve p w).
Proof.
  intros Hc. eapply keys_within_layout, confined_mono; [apply lookup_only_layout|..|exact Hc]; done.
Qed.

Lemma exec_sadd_member (db : gmap string entry) (u : string) :
  (∀ v, db !! ALL_BOOKS_KEY ≠ Some (EStr v)) →
  ∃ ms, (exec db (SADD ALL_BOOKS_KEY u)).2 !! ALL_BOOKS_KEY = Some (ESet ms) ∧ u ∈ ms.
Proof.
  intros Hidx. unfold exec. destruct (db !! ALL_BOOKS_KEY) as [[v|ms]|] eqn:Hi.
  - by destruct (Hidx v).
  - destruct (decide (u ∈ ms)); simpl.
    + by exists ms.
    + exists (ms ++ [u]). rewrite lookup_insert_eq. split; [done|]. apply elem_of_app. right. by left.
  - simpl. exists [u]. rewrite lookup_insert_eq. split; [done|]. by left.
Qed.

(** ** The year *)

Lemma isdigit_spec (y : string) :
  Text.isdigit y = true ↔
  y ≠ EmptyString ∧ ∀ c, c ∈ list_ascii_of_string y → Text.is_digit c = true.
Proof.
  unfold Text.isdigit. rewrite andb_true_iff, negb_true_iff.
  assert (Ha : Text.all_chars Text.is_digit y = true
               ↔ ∀ c, c ∈ list_ascii_of_string y → Text.is_digit c = true).
  { induction y as [|c y IH]; simpl.
    - split; [|done]. by intros _ c ?%elem_of_nil.
    - rewrite andb_true_iff, IH. split.
      + intros [Hc Hy] c' [->|?]%elem_of_cons; auto.
      + intros H. split; [apply H; by left|]. intros c' Hc'. apply H. by right. }
  rewrite Ha. split; intros [H1 H2]; (split; [|done]); by destruct y.
Qed.

Lemma anio_de_not_digits (y : string) :
  (y = EmptyString ∨ ∃ c, c ∈ list_ascii_of_string y ∧ Text.is_digit c = false) →
  anio_de y = PNone.
Proof.
  intros Hy. unfold anio_de. destruct (Text.isdigit y) eqn:Hd; [|done].
  apply isdigit_spec in Hd as [Hne Hall]. destruct Hy as [->|(c & Hc & Hf)]; [done|].
  rewrite (Hall c Hc) in Hf. done.
Qed.

Lemma anio_de_int (y : string) (z : Z) :
  anio_de y = PInt z → Text.isdigit y = true ∧ Text.py_int y = Some z.
Proof.
  unfold anio_de. destruct (Text.isdigit y); [|done].
  destruct (Text.py_int y); [|done]. by intros [= ->].
Qed.

Lemma anio_de_cases (y : string) : anio_de y = PNone ∨ ∃ z, anio_de y = PInt z.
Proof.
  unfold anio_de. destruct (Text.isdigit y); [|by left].
  destruct (Text.py_int y); [right; by eexists|by left].
Qed.

Lemma agregar_anio (w : world (gmap string entry)) (t a y g : string) (rest : list string) :
  stdin w = t :: a :: y :: g :: rest →
  Text.strip t ≠ EmptyString → Text.strip a ≠ EmptyString →
  let u := uuid_source w (uuid_count w) in
  (run exec agregar_libro w).1 = Returned tt ∧
  (server (run exec agregar_libro w).2) !! libro_key u
  = Some (EStr (Json.dumps
                  (nuevo_libro u (Text.strip t) (Text.strip a) (anio_de y) (Text.strip g)))) ∧
  stdin (run exec agregar_libro w).2 = rest.
Proof.
  intros Hin Ht Ha u.
  destruct (run_agregar_libro w t a y g rest Hin Ht Ha) as (out & ->).
  cbn [fst snd server stdin]. split; [done|]. split; [|done].
  rewrite exec_sadd_other by apply libro_key_not_index. by rewrite lookup_insert_eq.
Qed.

(** ** The year line read by [int] *)

Lemma is_digit_cases (c : ascii) :
  Text.is_digit c = true →
  Text.is_space c = false ∧ Ascii.eqb c "_" = false ∧ c ≠ "-"%char ∧ c ≠ "+"%char.
Proof.
  destruct c as [[] [] [] [] [] [] [] []]; intros H;
    try (vm_compute in H; discriminate H); repeat split; discriminate.
Qed.

Lemma rstrip_no_space (s : string) :
  Text.all_chars (λ c, negb (Text.is_space c)) s = true → Text.rstrip s = s.
Proof.
  induction s as [|c s IH]; simpl; [done|]. intros [Hc Hs]%andb_true_iff.
  rewrite (IH Hs). apply negb_true_iff in Hc. rewrite Hc. by destruct s.
Qed.

Lemma strip_no_space (s : string) :
  Text.all_chars (λ c, negb (Text.is_space c)) s = true → Text.strip s = s.
Proof.
  intros H. unfold Text.strip.
  assert (Hl : Text.lstrip s = s).
  { destruct s as [|c s]; [done|]. simpl in *. apply andb_true_iff in H as [Hc _].
    apply negb_true_iff in Hc. by rewrite Hc. }
  rewrite Hl. by apply rstrip_no_space.
Qed.

Lemma all_chars_impl (p q : ascii → bool) (s : string) :
  (∀ c, p c = true → q c = true) → Text.all_chars p s = true → Text.all_chars q s = true.
Proof.
  intros Hpq. induction s as [|c s IH]; simpl; [done|].
  intros [Hc Hs]%andb_true_iff. by rewrite (Hpq c Hc), IH.
Qed.

(** On a text of digits [int] reads the decimal ones and gives up at the
    first of the others. *)
Lemma int_digits_digits (s : string) (b : bool) :
  Text.all_chars Text.is_digit s = true →
  if Text.all_chars Text.is_decimal s
  then (s = EmptyString ∧ b = false ∧ Text.int_digits b s = None) ∨
       ∃ u, Text.int_digits b s = Some u
  else Text.int_digits b s = None.
Proof.
  revert b. induction s as [|c s IH]; intros b; simpl.
  - intros _. destruct b; [right; by eexists|left; done].
  - intros [Hc Hs]%andb_true_iff.
    destruct (is_digit_cases c Hc) as (_ & -> & _).
    unfold Text.is_decimal at 1. destruct (Text.decimal_of c) as [d|] eqn:Hd; simpl; [|done].
    specialize (IH true Hs). destruct (Text.all_chars Text.is_decimal s).
    + destruct IH as [(_ & ? & _)|(u & ->)]; [done|]. right. by eexists.
    + by rewrite IH.
Qed.

Lemma py_int_digits (y : string) :
  Text.isdigit y = true →
  Text.py_int y = Text.int_digits false y ≫= Text.int_value.
Proof.
  intros [Hne Hd]%andb_true_iff. unfold Text.py_int.
  rewrite strip_no_space.
  2:{ eapply all_chars_impl; [|exact Hd]. intros c Hc.
      destruct (is_digit_cases c Hc) as (-> & _). done. }
  destruct y as [|c s]; [done|]. simpl in Hd. apply andb_true_iff in Hd as [Hc _].
  destruct (is_digit_cases c Hc) as (_ & _ & Hm & Hp).
  destruct c as [[] [] [] [] [] [] [] []]; try done.
Qed.

(** The text of a decimal numeral is read back as its digits. *)
Lemma int_digits_print (d : uint) (b : bool) :
  d ≠ Nil ∨ b = true → Text.int_digits b (NilEmpty.string_of_uint d) = Some d.
Proof.
  revert b. induction d as [|d IH|d IH|d IH|d IH|d IH|d IH|d IH|d IH|d IH|d IH];
    intros b Hb; simpl.
  1: by destruct Hb as [?| ->].
  all: by rewrite IH by (by right).
Qed.

Lemma isdigit_print (d : uint) :
  d ≠ Nil → Text.isdigit (NilEmpty.string_of_uint d) = true.
Proof.
  intros Hd. unfold Text.isdigit. apply andb_true_iff. split; [by destruct d|].
  clear Hd. induction d; simpl; done.
Qed.

(** A text of decimal digits is the text of a numeral with as many
    digits. *)
Lemma decimal_text (y : string) :
  Text.all_chars Text.is_decimal y = true →
  ∃ d, y = NilEmpty.string_of_uint d ∧ nb_digits d = String.length y.
Proof.
  induction y as [|c y IH]; simpl.
  - intros _. by exists Nil.
  - intros [Hc Hy]%andb_true_iff. destruct (IH Hy) as (d & -> & Hl).
    destruct c as [[] [] [] [] [] [] [] []]; try (vm_compute in Hc; discriminate Hc);
      first [ exists (D0 d); split; [reflexivity|simpl; by rewrite Hl]
            | exists (D1 d); split; [reflexivity|simpl; by rewrite Hl]
            | exists (D2 d); split; [reflexivity|simpl; by rewrite Hl]
            | exists (D3 d); split; [reflexivity|simpl; by rewrite Hl]
            | exists (D4 d); split; [reflexivity|simpl; by rewrite Hl]
            | exists (D5 d); split; [reflexivity|simpl; by rewrite Hl]
            | exists (D6 d); split; [reflexivity|simpl; by rewrite Hl]
            | exists (D7 d); split; [reflexivity|simpl; by rewrite Hl]
            | exists (D8 d); split; [reflexivity|simpl; by rewrite Hl]
            | exists (D9 d); split; [reflexivity|simpl; by rewrite Hl] ].
Qed.

(** The year for the text of a numeral: its number, unless the digits are
    more than [int] accepts. *)
Lemma anio_de_print (d : uint) :
  d ≠ Nil →
  anio_de (NilEmpty.string_of_uint d)
  = if (N.of_nat (nb_digits d) <=? Text.int_max_str_digits)%N
    then PInt (Z.of_N (N.of_uint d))
    else PNone.
Proof.
  intros Hd. unfold anio_de.
  rewrite isdigit_print, py_int_digits by (by apply isdigit_print || done).
  rewrite int_digits_print by (by left). cbn. unfold Text.int_value.
  by destruct (N.of_nat (nb_digits d) <=? Text.int_max_str_digits)%N.
Qed.

Lemma anio_de_decimal (y : string) :
  if negb (Text.is_empty y) && Text.all_chars Text.is_decimal y
     && (N.of_nat (String.length y) <=? Text.int_max_str_digits)%N
  then ∃ d, y = NilEmpty.string_of_uint d ∧ anio_de y = PInt (Z.of_N (N.of_uint d)) ∧
            Text.py_int y = Some (Z.of_N (N.of_uint d))
  else anio_de y = PNone ∧ (Text.isdigit y = true → Text.py_int y = None).
Proof.
  destruct (negb (Text.is_empty y)) eqn:Hne; cbn [andb].
  2:{ unfold anio_de, Text.isdigit. rewrite Hne. done. }
  destruct (Text.all_chars Text.is_decimal y) eqn:Hdec; cbn [andb].
  - destruct (decimal_text y Hdec) as (d & -> & Hl).
    assert (Hd : d ≠ Nil) by (intros ->; done).
    rewrite <- Hl. pose proof (anio_de_print d Hd) as Ha.
    pose proof (py_int_digits _ (isdigit_print d Hd)) as Hp.
    rewrite int_digits_print in Hp by (by left). cbn in Hp. unfold Text.int_value in Hp.
    destruct (N.of_nat (nb_digits d) <=? Text.int_max_str_digits)%N.
    + by exists d.
    + done.
  - unfold anio_de. destruct (Text.isdigit y) eqn:Hdig; [|done].
    pose proof (py_int_digits y Hdig) as Hp.
    apply andb_true_iff in Hdig as [_ Hd].
    pose proof (int_digits_digits y false Hd) as Hi. rewrite Hdec in Hi.
    rewrite Hp, Hi. done.
Qed.

(** ** Round trip *)

Lemma libro_dict_inj (b b' : libro) : libro_dict b = libro_dict b' → b = b'.
Proof.
  destruct b as [i t a [z|] [g|] l], b' as [i' t' a' [z'|] [g'|] l']; simpl;
    intros [=]; by subst.
Qed.

(** ** A stored record changes only by its flag *)

Lemma marcar_frame (w : world (gmap string entry)) (b : libro) :
  server w !! libro_key (libro_id b) = Some (EStr (Json.dumps (libro_dict b))) →
  (server (run exec marcar_como_leido w).2) !! libro_key (libro_id b)
  = Some (EStr (Json.dumps (libro_dict b))) ∨
  (server (run exec marcar_como_leido w).2) !! libro_key (libro_id b)
  = Some (EStr (Json.dumps (libro_dict (leido_true b)))).
Proof.
  intros Hk. destruct (server_marcar w) as [-> | (id & j & d & Hj & Hl & ->)]; [by left|].
  destruct (decide (id = libro_id b)) as [->|Hne].
  - right. rewrite lookup_insert_eq. rewrite Hk in Hj. injection Hj as <-.
    rewrite loads_libro in Hl. injection Hl as <-. reflexivity.
  - left. rewrite lookup_insert_ne; [done|]. by intros ?%libro_key_inj.
Qed.

(* ===================================================================== *)
(** ** The claims *)
(* ===================================================================== *)

Ltac concrete_ne := vm_compute; discriminate.

Ltac concrete_first_match := apply find_first_match; vm_compute; reflexivity.

Ltac concrete_consistent :=
  split;
  [ intros v; vm_compute; discriminate
  | intros id Hid; vm_compute in Hid;
    repeat (apply elem_of_cons in Hid as [->|Hid];
            [ split; [discriminate|];
              right;
              first [ exists libro_dune; split; vm_compute; reflexivity
                    | exists libro_emma; split; vm_compute; reflexivity ]
            | ]);
    by apply elem_of_nil in Hid ].

Ltac concrete_stored :=
  split; [vm_compute; repeat first [left | right] | vm_compute; reflexivity].

(** Claim C1, with the names the code uses. Every stored record is kept
    under the string key [libro:<id>] and the index set of all record
    identifiers under the set key [libros:ids]: what [agregar_libro] stores
    is found there, and for every add, find, list, mark-read and delete
    operation, against any server, these are the only keys named by the
    commands sent. *)
Theorem storage_layout_libros :
  KEY_PREFIX = "libro:" ∧ ALL_BOOKS_KEY = "libros:ids" ∧
  storage_layout KEY_PREFIX ALL_BOOKS_KEY.
Proof.
  split; [done|]. split; [done|].
  split.
  - intros w t a y g rest Hin Ht Ha Hidx u.
    destruct (run_agregar_libro w t a y g rest Hin Ht Ha) as (out & ->).
    cbn [snd server]. fold u. fold (libro_key u). split.
    + rewrite exec_sadd_other by apply libro_key_not_index. by rewrite lookup_insert_eq.
    + apply exec_sadd_member. intros v.
      rewrite lookup_insert_ne by apply libro_key_not_index. apply Hidx.
  - intros S serve w. repeat split.
    + eapply keys_within_layout, confined_agregar_libro.
    + intros sfx. eapply keys_within_lookups, (confined_buscar False False).
    + eapply keys_within_lookups, (confined_listar_libros False False).
    + eapply keys_within_layout, confined_marcar_como_leido.
    + eapply keys_within_layout, confined_eliminar_libro.
Qed.

(** The layout holds on a run: the book is found under its [libro:] key. *)
Lemma storage_layout_libros_witness :
  (server (run exec agregar_libro (mundo ∅ ["Dune"; "Herbert"; "1965"; "Sci-Fi"])).2)
    !! "libro:cccc-33333"
  = Some (EStr (Json.dumps
                  (nuevo_libro "cccc-33333" "Dune" "Herbert" (PInt 1965) "Sci-Fi"))).
Proof.
  destruct storage_layout_libros as (_ & _ & [H _]).
  destruct (H (mundo ∅ ["Dune"; "Herbert"; "1965"; "Sci-Fi"])
              "Dune" "Herbert" "1965" "Sci-Fi" []) as [Hk _].
  - reflexivity.
  - concrete_ne.
  - concrete_ne.
  - intros v. concrete_ne.
  - exact Hk.
Defined.

(** Claim C1 as the specification words it, with the key [record:<id>] and
    the set key [records:ids], fails: after an add nothing is stored under
    a [record:] key. *)
Lemma storage_layout_record_counterexample :
  ¬ storage_layout "record:" "records:ids".
Proof.
  intros [H _].
  destruct (H (mundo ∅ ["Dune"; "Herbert"; "1965"; "Sci-Fi"])
              "Dune" "Herbert" "1965" "Sci-Fi" []) as [Hk _].
  - reflexivity.
  - concrete_ne.
  - concrete_ne.
  - intros v. concrete_ne.
  - vm_compute in Hk. discriminate.
Qed.

(** Claim C2, amended. For every successful delete of a stored book (the
    removal of its key reports one key deleted), the value and the
    membership of the identifier in the index set are both removed; a
    later listing has no book with that identifier; a later search never
    returns the key of the book, and returns absent for the suffix typed
    provided no other indexed identifier ends with it. Against any server,
    when the removal of the key reports no key deleted, no other command
    that can change the store is sent and the failure is reported. *)
Theorem eliminar_libro_spec (w : world (gmap string entry)) (b : libro) (l : string)
    (rest : list string) :
  consistent (server w) → stored (server w) b →
  stdin w = l :: rest → Text.strip l ≠ EmptyString →
  first_match (Text.strip l) (indexed (server w)) (libro_id b) →
  (run exec eliminar_libro w).1 = Returned tt ∧
  (∃ t, reads_only t ∧
        issued exec eliminar_libro w
        = t ++ [(DEL (libro_key (libro_id b)), RInt 1);
                (SREM ALL_BOOKS_KEY (libro_id b), RInt 1)]) ∧
  (server (run exec eliminar_libro w).2) !! libro_key (libro_id b) = None ∧
  (libro_id b ∉ indexed (server (run exec eliminar_libro w).2)) ∧
  (∀ w2 : world (gmap string entry),
     server w2 = server (run exec eliminar_libro w).2 →
     (∃ bs, (run exec recuperar_libros w2).1 = Returned (libro_dict <$> bs) ∧
            ∀ b', b' ∈ bs → libro_id b' ≠ libro_id b) ∧
     (∀ sfx libro, (run exec (buscar_libro_por_id_parcial sfx) w2).1
                   ≠ Returned (Some (libro, libro_key (libro_id b)))) ∧
     ((∀ id, id ∈ indexed (server w) → id ≠ libro_id b → ¬ ends_with id (Text.strip l)) →
      (run exec (buscar_libro_por_id_parcial (Text.strip l)) w2).1 = Returned None)) ∧
  (∀ (S : Type) (serve : S → command → reply * S) (w' : world S) (k : string) (n : Z),
     (DEL k, RInt n) ∈ issued serve eliminar_libro w' → n ≤ 0 →
     (∀ c r, (c, r) ∈ issued serve eliminar_libro w' → is_write c = true → c = DEL k) ∧
     (run serve eliminar_libro w').1 = Returned tt ∧
     last (stdout (run serve eliminar_libro w').2) = Some MsgNoSePudoEliminar).
Proof.
  intros Hc Hst Hin Hs Hfm.
  destruct (run_eliminar_efecto w b l rest Hc Hst Hin Hs Hfm) as (H1 & H2 & H3 & H4).
  destruct (run_eliminar_libro w b l rest Hc Hst Hin Hs Hfm)
    as (w1 & Hrun & _ & _ & _ & _ & _ & _ & t & Ht & Htr).
  split; [done|]. split.
  { exists t. split; [done|]. apply issued_from. by rewrite Hrun. }
  split; [done|]. split; [done|]. split; [done|].
  intros S serve w' k n. apply eliminar_sin_borrado.
Qed.

Lemma eliminar_libro_spec_witness :
  (server (run exec eliminar_libro (mundo db_dos ["22211"])).2) !! libro_key "bbbb-22211" = None.
Proof.
  apply (eliminar_libro_spec (mundo db_dos ["22211"]) libro_emma "22211" []).
  - concrete_consistent.
  - concrete_stored.
  - reflexivity.
  - concrete_ne.
  - concrete_first_match.
Defined.

(** Claim C2 as stated fails: with two indexed identifiers that end with
    the suffix typed, the delete removes the first and a later search for
    the same suffix returns the second. *)
Lemma eliminar_luego_buscar_counterexample :
  ¬ (∀ (w : world (gmap string entry)) (b : libro) (l : string) (rest : list string),
       consistent (server w) → stored (server w) b →
       stdin w = l :: rest → Text.strip l ≠ EmptyString →
       first_match (Text.strip l) (indexed (server w)) (libro_id b) →
       ∀ w2 : world (gmap string entry),
         server w2 = server (run exec eliminar_libro w).2 →
         (run exec (buscar_libro_por_id_parcial (Text.strip l)) w2).1 = Returned None).
Proof.
  intros H.
  specialize (H (mundo db_dos ["11"]) libro_dune "11" []).
  assert (Hr : (run exec (buscar_libro_por_id_parcial (Text.strip "11"))
                  (run exec eliminar_libro (mundo db_dos ["11"])).2).1
               = Returned None).
  { apply H.
    - concrete_consistent.
    - concrete_stored.
    - reflexivity.
    - concrete_ne.
    - concrete_first_match.
    - exact eq_refl. }
  vm_compute in Hr. discriminate.
Qed.

(** Claim C3. [marcar_como_leido] is idempotent in effect: for every stored
    book, after one call the stored record has [leido] true, and a second
    call for the same suffix reports that the book was already read, sends
    no command that can change the store, and leaves the record as it is,
    [leido] still true. *)
Theorem marcar_como_leido_idempotente (w : world (gmap string entry)) (b : libro)
    (l : string) (rest : list string) :
  consistent (server w) → stored (server w) b →
  stdin w = l :: rest → Text.strip l ≠ EmptyString →
  first_match (Text.strip l) (indexed (server w)) (libro_id b) →
  (run exec marcar_como_leido w).1 = Returned tt ∧
  stored (server (run exec marcar_como_leido w).2) (leido_true b) ∧
  ∀ (w2 : world (gmap string entry)) (l2 : string) (rest2 : list string),
    server w2 = server (run exec marcar_como_leido w).2 →
    stdin w2 = l2 :: rest2 → Text.strip l2 = Text.strip l →
    (run exec marcar_como_leido w2).1 = Returned tt ∧
    last (stdout (run exec marcar_como_leido w2).2) = Some MsgYaLeido ∧
    reads_only (issued exec marcar_como_leido w2) ∧
    server (run exec marcar_como_leido w2).2 = server w2 ∧
    stored (server (run exec marcar_como_leido w2).2) (leido_true b).
Proof.
  intros Hc Hst Hin Hs Hfm.
  destruct (run_marcar_libro w b l rest Hc Hst Hin Hs Hfm) as (w1 & Hrun & _ & Hcases).
  rewrite Hrun. cbn [fst snd].
  assert (H1 : consistent (server w1) ∧ stored (server w1) (leido_true b)
               ∧ indexed (server w1) = indexed (server w)).
  { destruct Hst as [Hid Hk]. destruct Hcases as [(Hl & -> & _) | (Hl & -> & _)].
    - assert (Hb : leido_true b = b) by (destruct b; simpl in *; by subst).
      rewrite Hb. done.
    - split; [by apply (consistent_insert_libro _ (leido_true b))|].
      split; [|apply indexed_insert_libro].
      split; [by rewrite indexed_insert_libro|]. simpl. by rewrite lookup_insert_eq. }
  destruct H1 as (Hc1 & Hst1 & Hi1).
  split; [done|]. split; [done|].
  intros w2 l2 rest2 Hw2 Hin2 Hs2.
  destruct (run_marcar_libro w2 (leido_true b) l2 rest2) as (w3 & Hrun2 & _ & Hcases2).
  - by rewrite Hw2.
  - by rewrite Hw2.
  - done.
  - by rewrite Hs2.
  - by rewrite Hs2, Hw2, Hi1.
  - rewrite Hrun2. cbn [fst snd].
    destruct Hcases2 as [(_ & Hs3 & Hlast & Hreads) | (Hl & _)]; [|done].
    rewrite Hs3, Hw2. done.
Qed.

Lemma marcar_como_leido_idempotente_witness :
  stored (server (run exec marcar_como_leido (mundo db_dos ["11111"])).2)
    (leido_true libro_dune).
Proof.
  apply (marcar_como_leido_idempotente (mundo db_dos ["11111"]) libro_dune "11111" []).
  - concrete_consistent.
  - concrete_stored.
  - reflexivity.
  - concrete_ne.
  - concrete_first_match.
Defined.

(** Claim C4. For every add where the title or the author is empty after
    trimming, against any server, [agregar_libro] sends no command (neither
    the record key nor the index set is written), draws no identifier, and
    prints the validation message. *)
Theorem agregar_libro_campos_vacios {S : Type} (serve : S → command → reply * S)
    (w : world S) (t a : string) (rest : list string) :
  stdin w = t :: a :: rest →
  Text.strip t = EmptyString ∨ Text.strip a = EmptyString →
  run serve agregar_libro w
  = (Returned tt,
     World (server w) rest
       (stdout w ++ [MsgAgregarNuevo; Prompt PromptTitulo; Prompt PromptAutor; MsgCamposVacios])
       (uuid_source w) (uuid_count w) (trace w)).
Proof.
  intros Hin Hv. destruct w as [db inp out src cnt tr]. simpl in *. subst inp.
  unfold agregar_libro.
  assert (He : Text.is_empty (Text.strip t) || Text.is_empty (Text.strip a) = true).
  { destruct Hv as [-> | ->]; [done|]. by rewrite orb_true_r. }
  simpl. rewrite He. simpl. unfold write_out, read_line. simpl.
  by rewrite <- !app_assoc.
Qed.

Lemma agregar_libro_campos_vacios_witness :
  run exec agregar_libro (mundo db_dos ["   "; "Herbert"])
  = (Returned tt,
     World db_dos []
       [MsgAgregarNuevo; Prompt PromptTitulo; Prompt PromptAutor; MsgCamposVacios]
       (fun _ => "cccc-33333") 0%nat []).
Proof.
  apply (agregar_libro_campos_vacios exec (mundo db_dos ["   "; "Herbert"]) "   " "Herbert" []).
  - reflexivity.
  - left. vm_compute. reflexivity.
Defined.

(** Claim C5. For every suffix, [buscar_libro_por_id_parcial] scans the
    members of the index set and returns the decoded record and the key of
    the first identifier that ends with the suffix (identifiers are not
    empty); it returns absent both when no indexed identifier ends with the
    suffix and when the key of the matched identifier holds no value. The
    store is left as it is. *)
Theorem buscar_por_sufijo (w : world (gmap string entry)) (sfx : string) :
  (∀ v, server w !! ALL_BOOKS_KEY ≠ Some (EStr v)) →
  (∀ id j libro,
     first_match sfx (indexed (server w)) id → id ≠ EmptyString →
     server w !! libro_key id = Some (EStr j) → Json.loads j = Json.Ok libro →
     (run exec (buscar_libro_por_id_parcial sfx) w).1 = Returned (Some (libro, libro_key id))) ∧
  ((∀ id, id ∈ indexed (server w) → ¬ ends_with id sfx) →
     (run exec (buscar_libro_por_id_parcial sfx) w).1 = Returned None) ∧
  (∀ id,
     first_match sfx (indexed (server w)) id → server w !! libro_key id = None →
     (run exec (buscar_libro_por_id_parcial sfx) w).1 = Returned None) ∧
  server (run exec (buscar_libro_por_id_parcial sfx) w).2 = server w.
Proof.
  intros Hidx. rewrite (run_buscar_set w sfx Hidx). repeat split.
  - intros id j libro Hf%find_first_match Hid Hj Hl. rewrite Hf, is_empty_false, Hj by done.
    destruct (Text.is_empty j) eqn:Hej; [|by rewrite Hl].
    apply is_empty_true in Hej as ->. by rewrite loads_empty in Hl.
  - intros Hn%find_no_match. by rewrite Hn.
  - intros id Hf%find_first_match Hj. rewrite Hf, Hj. by destruct (Text.is_empty id).
  - apply server_buscar.
Qed.

Lemma buscar_por_sufijo_witness :
  (run exec (buscar_libro_por_id_parcial "11") (mundo db_dos [])).1
  = Returned (Some (libro_dict libro_dune, libro_key "aaaa-11111")).
Proof.
  destruct (buscar_por_sufijo (mundo db_dos []) "11") as (H & _).
  - intros v. concrete_ne.
  - apply (H "aaaa-11111" (Json.dumps (libro_dict libro_dune))).
    + concrete_first_match.
    + discriminate.
    + vm_compute. reflexivity.
    + vm_compute. reflexivity.
Defined.

(** Claim C6. For every record, decoding the encoding of the record gives
    the record back, and two records with the same [dict] agree on every
    field: an absent year and an absent genre stay absent. *)
Theorem json_roundtrip_libro (b : libro) :
  Json.loads (Json.dumps (libro_dict b)) = Json.Ok (libro_dict b) ∧
  (∀ b', Json.loads (Json.dumps (libro_dict b)) = Json.Ok (libro_dict b') → b' = b) ∧
  (libro_anio b = None →
   ∃ d, Json.loads (Json.dumps (libro_dict b)) = Json.Ok (PDict d) ∧
        dict_get "anio_publicacion" d = Some PNone) ∧
  (libro_genero b = None →
   ∃ d, Json.loads (Json.dumps (libro_dict b)) = Json.Ok (PDict d) ∧
        dict_get "genero" d = Some PNone).
Proof.
  rewrite loads_libro. split; [done|]. split.
  { intros b' Hb. assert (Hd : libro_dict b = libro_dict b') by congruence.
    symmetry. by apply libro_dict_inj. }
  split; intros Hn; eexists; (split; [reflexivity|]); simpl; by rewrite Hn.
Qed.

(** Claim C7. In [agregar_libro] the year is parsed only from a line made
    of digits: the record stored has a year only if [isdigit] holds of the
    line and [int] reads it; for every line with a character that is no
    digit, and for the empty line, the year is absent, no exception is
    raised and the record is stored all the same. A line that is the text
    of a decimal numeral gives the number of the numeral as the year,
    unless it has more digits than [int] accepts, when the year is
    absent. *)
Theorem anio_solo_digitos (w : world (gmap string entry)) (t a y g : string)
    (rest : list string) :
  stdin w = t :: a :: y :: g :: rest →
  Text.strip t ≠ EmptyString → Text.strip a ≠ EmptyString →
  ∃ anio : value,
    (run exec agregar_libro w).1 = Returned tt ∧
    (server (run exec agregar_libro w).2) !! libro_key (uuid_source w (uuid_count w))
    = Some (EStr (Json.dumps
                    (nuevo_libro (uuid_source w (uuid_count w)) (Text.strip t) (Text.strip a)
                       anio (Text.strip g)))) ∧
    (anio = PNone ∨ ∃ z, anio = PInt z) ∧
    (∀ z, anio = PInt z →
          y ≠ EmptyString ∧
          (∀ c, c ∈ list_ascii_of_string y → Text.is_digit c = true) ∧
          Text.py_int y = Some z) ∧
    ((y = EmptyString ∨ ∃ c, c ∈ list_ascii_of_string y ∧ Text.is_digit c = false) →
     anio = PNone) ∧
    (∀ d : uint,
       y = NilEmpty.string_of_uint d → d ≠ Nil →
       if (N.of_nat (nb_digits d) <=? Text.int_max_str_digits)%N
       then anio = PInt (Z.of_N (N.of_uint d))
       else anio = PNone).
Proof.
  intros Hin Ht Ha. exists (anio_de y).
  destruct (agregar_anio w t a y g rest Hin Ht Ha) as (H1 & H2 & _).
  split; [done|]. split; [done|]. split; [apply anio_de_cases|]. split; [|split].
  - intros z [Hd Hi]%anio_de_int. apply isdigit_spec in Hd as [? ?]. done.
  - apply anio_de_not_digits.
  - intros d -> Hd. rewrite (anio_de_print d Hd).
    by destruct (N.of_nat (nb_digits d) <=? Text.int_max_str_digits)%N.
Qed.

Lemma anio_solo_digitos_witness :
  (server (run exec agregar_libro (mundo ∅ ["Dune"; "Herbert"; "1965"; "Sci-Fi"])).2)
    !! libro_key "cccc-33333"
  = Some (EStr (Json.dumps (nuevo_libro "cccc-33333" "Dune" "Herbert" (PInt 1965) "Sci-Fi"))) ∧
  (server (run exec agregar_libro (mundo ∅ ["Dune"; "Herbert"; "-1965"; "Sci-Fi"])).2)
    !! libro_key "cccc-33333"
  = Some (EStr (Json.dumps (nuevo_libro "cccc-33333" "Dune" "Herbert" PNone "Sci-Fi"))).
Proof.
  split.
  - destruct (anio_solo_digitos (mundo ∅ ["Dune"; "Herbert"; "1965"; "Sci-Fi"])
                "Dune" "Herbert" "1965" "Sci-Fi" []) as (anio & _ & Hk & _ & _ & _ & Hd).
    + reflexivity.
    + concrete_ne.
    + concrete_ne.
    + specialize (Hd (D1 (D9 (D6 (D5 Nil)))) eq_refl). cbv beta in Hd.
      change (N.of_nat (nb_digits (D1 (D9 (D6 (D5 Nil))))) <=? Text.int_max_str_digits)%N
        with true in Hd.
      rewrite Hd in Hk by discriminate. exact Hk.
  - destruct (anio_solo_digitos (mundo ∅ ["Dune"; "Herbert"; "-1965"; "Sci-Fi"])
                "Dune" "Herbert" "-1965" "Sci-Fi" []) as (anio & _ & Hk & _ & _ & Hn & _).
    + reflexivity.
    + concrete_ne.
    + concrete_ne.
    + rewrite Hn in Hk; [exact Hk|]. right. exists "-"%char. split; [by left|reflexivity].
Defined.

(** Claim C8. [listar_libros] fetches all the members of the index set,
    fetches their values in one batch, decodes each value that is there,
    skips the absent ones, and holds the decoded records in the reverse of
    the retrieval order; it prints them in that order. *)
Theorem listar_libros_orden (w : world (gmap string entry)) (libros : list value)
    (filas : list fila) :
  (∀ v, server w !! ALL_BOOKS_KEY ≠ Some (EStr v)) →
  Forall2 (λ j libro, Json.loads j = Json.Ok libro) (presentes (server w)) libros →
  Forall2 (λ libro f, fila_de libro = Ret f) (rev libros) filas →
  (run exec recuperar_libros w).1 = Returned (rev libros) ∧
  issued exec recuperar_libros w
  = [(SMEMBERS ALL_BOOKS_KEY, RMembers (indexed (server w)));
     (MGET (libro_key <$> indexed (server w)),
      RArray (string_at (server w) <$> (libro_key <$> indexed (server w))))] ∧
  run exec listar_libros w
  = (Returned tt,
     World (server w) (stdin w) (stdout w ++ listado filas) (uuid_source w) (uuid_count w)
       (trace w ++ issued exec recuperar_libros w)).
Proof.
  intros Hidx Hf Hr. pose proof (run_recuperar_libros w libros Hidx Hf) as Hrun.
  assert (Hi : issued exec recuperar_libros w
    = [(SMEMBERS ALL_BOOKS_KEY, RMembers (indexed (server w)));
       (MGET (libro_key <$> indexed (server w)),
        RArray (string_at (server w) <$> (libro_key <$> indexed (server w))))]).
  { apply issued_from. by rewrite Hrun. }
  split; [by rewrite Hrun|]. split; [done|].
  rewrite (run_listar_tras_recuperar exec w _ (rev libros) filas Hrun Hr), Hi.
  reflexivity.
Qed.

Lemma listar_libros_orden_witness :
  (run exec recuperar_libros (mundo db_dos [])).1
  = Returned [libro_dict libro_emma; libro_dict libro_dune].
Proof.
  destruct (listar_libros_orden (mundo db_dos [])
              [libro_dict libro_dune; libro_dict libro_emma]
              [fila_libro libro_emma; fila_libro libro_dune]) as (H & _).
  - intros v. concrete_ne.
  - replace (presentes (server (mundo db_dos [])))
      with [Json.dumps (libro_dict libro_dune); Json.dumps (libro_dict libro_emma)]
      by (vm_compute; reflexivity).
    repeat (constructor; [vm_compute; reflexivity|]). constructor.
  - repeat (constructor; [vm_compute; reflexivity|]). constructor.
  - exact H.
Defined.

(** Claim C9. For every stored record, the only change an operation makes
    to it is setting the flag: after [marcar_como_leido] its key holds the
    record as it was or the record with [leido] true and the identifier,
    title, author, year and genre unchanged; listing and searching leave
    the store as it is; an add with a fresh identifier leaves the record as
    it was; a delete leaves it as it was or removes it. When the suffix
    typed selects the record and it is not read yet, [marcar_como_leido]
    rewrites it: its key then holds the record with [leido] true and every
    other key holds what it held; [actualizar_libro] with [leido=True]
    stores under the key given the record with [leido] true and returns
    it. *)
Theorem registro_solo_cambia_leido (w : world (gmap string entry)) (b : libro) :
  server w !! libro_key (libro_id b) = Some (EStr (Json.dumps (libro_dict b))) →
  ((server (run exec marcar_como_leido w).2) !! libro_key (libro_id b)
   = Some (EStr (Json.dumps (libro_dict b))) ∨
   (server (run exec marcar_como_leido w).2) !! libro_key (libro_id b)
   = Some (EStr (Json.dumps (libro_dict (leido_true b))))) ∧
  (libro_id (leido_true b) = libro_id b ∧ libro_titulo (leido_true b) = libro_titulo b ∧
   libro_autor (leido_true b) = libro_autor b ∧ libro_anio (leido_true b) = libro_anio b ∧
   libro_genero (leido_true b) = libro_genero b ∧ libro_leido (leido_true b) = true) ∧
  server (run exec listar_libros w).2 = server w ∧
  (∀ sfx, server (run exec (buscar_libro_por_id_parcial sfx) w).2 = server w) ∧
  (uuid_source w (uuid_count w) ≠ libro_id b →
   (server (run exec agregar_libro w).2) !! libro_key (libro_id b)
   = Some (EStr (Json.dumps (libro_dict b)))) ∧
  ((server (run exec eliminar_libro w).2) !! libro_key (libro_id b)
   = Some (EStr (Json.dumps (libro_dict b))) ∨
   (server (run exec eliminar_libro w).2) !! libro_key (libro_id b) = None) ∧
  (∀ (l : string) (rest : list string),
     consistent (server w) → libro_id b ∈ indexed (server w) →
     stdin w = l :: rest → Text.strip l ≠ EmptyString →
     first_match (Text.strip l) (indexed (server w)) (libro_id b) →
     libro_leido b = false →
     (run exec marcar_como_leido w).1 = Returned tt ∧
     server (run exec marcar_como_leido w).2
     = <[libro_key (libro_id b) := EStr (Json.dumps (libro_dict (leido_true b)))]> (server w) ∧
     (server (run exec marcar_como_leido w).2) !! libro_key (libro_id b)
     = Some (EStr (Json.dumps (libro_dict (leido_true b)))) ∧
     (∀ k, k ≠ libro_key (libro_id b) →
           (server (run exec marcar_como_leido w).2) !! k = server w !! k) ∧
     last (stdout (run exec marcar_como_leido w).2)
     = Some (MsgMarcado (Text.strip l) (PStr (libro_titulo b)))) ∧
  (∀ (w' : world (gmap string entry)) (key : string),
     (run exec (actualizar_libro (libro_dict b) key [("leido", PBool true)]) w').1
     = Returned (libro_dict (leido_true b)) ∧
     server (run exec (actualizar_libro (libro_dict b) key [("leido", PBool true)]) w').2
     = <[key := EStr (Json.dumps (libro_dict (leido_true b)))]> (server w') ∧
     issued exec (actualizar_libro (libro_dict b) key [("leido", PBool true)]) w'
     = [(SET key (Json.dumps (libro_dict (leido_true b))), ROk)]).
Proof.
  intros Hk. split; [by apply marcar_frame|]. split; [done|].
  split; [apply server_listar|]. split; [intros sfx; apply server_buscar|].
  split; [|split; [|split]].
  - intros Hu. rewrite server_agregar; [done|apply libro_key_not_index|].
    intros He%libro_key_inj. congruence.
  - destruct (server_eliminar w (libro_key (libro_id b))) as [H|H];
      [apply libro_key_not_index|left; by rewrite H|by right].
  - intros l rest Hc Hid Hin Hs Hfm Hleido.
    destruct (run_marcar_libro w b l rest Hc (conj Hid Hk) Hin Hs Hfm)
      as (w1 & Hrun & _ & [(Ht & _)|(_ & Hserver & Hlast)]); [congruence|].
    rewrite Hrun. cbn [fst snd]. rewrite Hserver.
    split; [done|]. split; [done|]. split; [by rewrite lookup_insert_eq|].
    split; [|done]. intros k Hne. by rewrite lookup_insert_ne.
  - intros w' key.
    assert (Hrun : run exec (actualizar_libro (libro_dict b) key [("leido", PBool true)]) w'
      = (Returned (libro_dict (leido_true b)),
         answered (<[key := EStr (Json.dumps (libro_dict (leido_true b)))]> (server w'))
           (SET key (Json.dumps (libro_dict (leido_true b)))) ROk w')).
    { change (actualizar_libro (libro_dict b) ?k ?kw)
        with (redis_set k (Json.dumps (libro_dict (leido_true b)));;
              Ret (libro_dict (leido_true b))).
      rewrite run_bind. unfold redis_set. rewrite run_call.
      change (exec ?d (SET ?k ?v)) with (ROk, <[k := EStr v]> d). reflexivity. }
    split; [by rewrite Hrun|]. split; [by rewrite Hrun|].
    apply issued_from. by rewrite Hrun.
Qed.

Lemma registro_solo_cambia_leido_witness :
  (server (run exec marcar_como_leido (mundo db_dos ["11111"])).2) !! libro_key "aaaa-11111"
  = Some (EStr (Json.dumps (libro_dict (leido_true libro_dune)))) ∧
  (server (run exec marcar_como_leido (mundo db_dos ["22211"])).2) !! libro_key "aaaa-11111"
  = Some (EStr (Json.dumps (libro_dict libro_dune))).
Proof.
  split.
  - destruct (registro_solo_cambia_leido (mundo db_dos ["11111"]) libro_dune)
      as (_ & _ & _ & _ & _ & _ & Hm & _).
    + vm_compute. reflexivity.
    + destruct (Hm "11111" []) as (_ & _ & H & _).
      * concrete_consistent.
      * vm_compute. by left.
      * reflexivity.
      * concrete_ne.
      * concrete_first_match.
      * reflexivity.
      * exact H.
  - destruct (registro_solo_cambia_leido (mundo db_dos ["22211"]) libro_dune) as ([H|H] & _).
    + vm_compute. reflexivity.
    + exact H.
    + vm_compute in H. discriminate.
Defined.

(** Claim C10. For every run of [marcar_como_leido] or [eliminar_libro] in
    which the suffix typed is empty after trimming, against any server, the
    operation prints the error and returns: beyond the listing it opens
    with, it sends no command, so it searches nothing and changes nothing,
    and the empty suffix matches no record. *)
Theorem id_vacio {S : Type} (serve : S → command → reply * S) (w w1 : world S)
    (l : string) (rest : list string) :
  run serve listar_libros w = (Returned tt, w1) →
  stdin w = l :: rest → Text.strip l = EmptyString →
  run serve marcar_como_leido w
  = (Returned tt, write_out MsgIdVacio (read_line (write_out (Prompt PromptMarcar) w1))) ∧
  run serve eliminar_libro w
  = (Returned tt, write_out MsgIdVacio (read_line (write_out (Prompt PromptEliminar) w1))) ∧
  issued serve marcar_como_leido w = issued serve listar_libros w ∧
  issued serve eliminar_libro w = issued serve listar_libros w ∧
  reads_only (issued serve listar_libros w).
Proof.
  intros Hl Hin Hs.
  destruct (confined_run serve _ _ _ _ _ (confined_listar_libros False False) w)
    as (Hreads & Hstdin & _).
  rewrite Hl in Hstdin. simpl in Hstdin. rewrite Hin in Hstdin.
  assert (Hm : run serve marcar_como_leido w
    = (Returned tt, write_out MsgIdVacio (read_line (write_out (Prompt PromptMarcar) w1)))).
  { unfold marcar_como_leido. rewrite run_bind, Hl.
    rewrite run_bind, run_fmap, run_input, Hstdin by tauto.
    cbv beta match. by rewrite Hs. }
  assert (He : run serve eliminar_libro w
    = (Returned tt, write_out MsgIdVacio (read_line (write_out (Prompt PromptEliminar) w1)))).
  { unfold eliminar_libro. rewrite run_bind, Hl.
    rewrite run_bind, run_fmap, run_input, Hstdin by tauto.
    cbv beta match. by rewrite Hs. }
  pose proof (run_trace serve listar_libros w) as Htl. rewrite Hl in Htl. simpl in Htl.
  repeat split; try done.
  - apply issued_from. by rewrite Hm.
  - apply issued_from. by rewrite He.
  - intros c r Hin'. rewrite Forall_forall in Hreads. by destruct (Hreads _ Hin').
Qed.

Lemma id_vacio_witness :
  server (run exec eliminar_libro (mundo db_dos ["  "])).2 = db_dos ∧
  last (stdout (run exec eliminar_libro (mundo db_dos ["  "])).2) = Some MsgIdVacio.
Proof.
  destruct (id_vacio exec (mundo db_dos ["  "])
              (run exec listar_libros (mundo db_dos ["  "])).2 "  " []) as (_ & H & _).
  - vm_compute. reflexivity.
  - reflexivity.
  - vm_compute. reflexivity.
  - rewrite H. split; vm_compute; reflexivity.
Defined.

(* ===================================================================== *)
(** * Further properties: lemmas *)
(* ===================================================================== *)

(** ** The input of a run, and the turns of the menu loop *)

Section RunInput.

Context {S : Type} (serve : S → command → reply * S).

(** A run takes lines from the front of the input and nothing else. *)
Lemma run_stdin {A} (p : prog A) (w : world S) :
  ∃ k, stdin (run serve p w).2 = drop k (stdin w).
Proof.
  revert w. induction p as [a|e| |pr k IH|m k IH|k IH|c k IH]; intros w; simpl.
  - by exists 0%nat.
  - by exists 0%nat.
  - by exists 0%nat.
  - destruct (stdin w) as [|l rest] eqn:Hin.
    + destruct (IH None (write_out (Prompt pr) w)) as (n & Hn). exists n.
      rewrite Hn. simpl. by rewrite Hin.
    + destruct (IH (Some l) (read_line (write_out (Prompt pr) w))) as (n & Hn).
      exists (Datatypes.S n). rewrite Hn. simpl. by rewrite Hin.
  - apply (IH (write_out m w)).
  - apply (IH _ (draw_uuid w)).
  - destruct (serve (server w) c) as [r s']. apply (IH r (answered s' c r w)).
Qed.

Lemma run_stdin_length {A} (p : prog A) (w : world S) :
  (length (stdin (run serve p w).2) ≤ length (stdin w))%nat.
Proof. destruct (run_stdin p w) as (k & ->). rewrite length_drop. lia. Qed.

Lemma run_stdin_elem {A} (p : prog A) (w : world S) (l : string) :
  l ∈ stdin (run serve p w).2 → l ∈ stdin w.
Proof.
  destruct (run_stdin p w) as (k & ->). intros H.
  rewrite <- (take_drop k (stdin w)). apply elem_of_app. by right.
Qed.

End RunInput.

Section Vuelta.

Context {S : Type} (serve : S → command → reply * S).

(** What one turn of the loop does to the world: it takes the option
    line; it ends the session, or runs no operation, or runs one. *)
Lemma vuelta_cases (s : sesion S) :
  (stdin (mundo_en s) = [] ∧ (vuelta serve s).1 = Abortado EOFError ∧
   mundo_en (vuelta serve s).2 = mundo_en s)
  ∨ ∃ l rest, stdin (mundo_en s) = l :: rest ∧
      ((elegir (Text.strip l) = Salir ∧ (vuelta serve s).1 = Termino ∧
        mundo_en (vuelta serve s).2 = read_line (mundo_en s))
       ∨ (elegir (Text.strip l) = NoValida ∧
          ((rest = [] ∧ (vuelta serve s).1 = Abortado EOFError ∧
            mundo_en (vuelta serve s).2 = read_line (mundo_en s))
           ∨ (rest ≠ [] ∧ (vuelta serve s).1 = EnCurso ∧
              mundo_en (vuelta serve s).2 = read_line (read_line (mundo_en s)))))
       ∨ ∃ p, elegir (Text.strip l) = Ejecutar p ∧
           let r := run serve p (read_line (mundo_en s)) in
           match r.1 with
           | Returned _ =>
               (stdin r.2 = [] ∧ (vuelta serve s).1 = Abortado EOFError ∧
                mundo_en (vuelta serve s).2 = r.2)
               ∨ (stdin r.2 ≠ [] ∧ (vuelta serve s).1 = EnCurso ∧
                  mundo_en (vuelta serve s).2 = read_line r.2)
           | Uncaught e => (vuelta serve s).1 = Abortado e ∧ mundo_en (vuelta serve s).2 = r.2
           | NotModelled => (vuelta serve s).1 = FueraDelModelo ∧ mundo_en (vuelta serve s).2 = r.2
           end).
Proof.
  destruct s as [w scr]. unfold vuelta, leer_linea. simpl.
  destruct (stdin w) as [|l rest] eqn:Hin; [by left|]. right. exists l, rest.
  split; [done|]. simpl.
  destruct (elegir (Text.strip l)) as [p| |] eqn:He.
  - right. right. exists p. split; [done|]. unfold operar. simpl.
    destruct (run serve p (read_line w)) as [o w1]. simpl.
    destruct o as [[]|e|]; simpl; [|done|done].
    destruct (stdin w1) eqn:Hin1; simpl; [by left|by right].
  - by left.
  - right. left. split; [done|]. unfold read_line at 1. simpl. rewrite Hin. simpl.
    destruct rest; simpl; [by left|by right].
Qed.

End Vuelta.

Lemma elegir_ejecutar (o : string) (p : prog unit) :
  elegir o = Ejecutar p →
  p = agregar_libro ∨ p = listar_libros ∨ p = marcar_como_leido ∨ p = eliminar_libro.
Proof.
  unfold elegir. repeat case_match; intros [= <-] || intros [=]; auto.
Qed.

Lemma elegir_salir (o : string) : elegir o = Salir ↔ o = "5".
Proof.
  unfold elegir. split.
  - repeat case_match; try done. intros _. by apply String.eqb_eq.
  - intros ->. reflexivity.
Qed.

Section Sesiones.

Context {S : Type} (serve : S → command → reply * S).

Lemma vuelta_stdin_length (s : sesion S) :
  (vuelta serve s).1 = EnCurso →
  (length (stdin (mundo_en (vuelta serve s).2)) < length (stdin (mundo_en s)))%nat.
Proof.
  intros Hv.
  destruct (vuelta_cases serve s) as [(_ & H & _)|(l & rest & Hin & H)]; [congruence|].
  rewrite Hin. simpl.
  destruct H as [(_ & H & _)|[(_ & [(_ & H & _)|(_ & _ & ->)])|(p & _ & H)]]; try congruence.
  - simpl. rewrite Hin. simpl. destruct rest; simpl; lia.
  - simpl in H.
    pose proof (run_stdin_length serve p (read_line (mundo_en s))) as Hl.
    simpl in Hl. rewrite Hin in Hl. simpl in Hl.
    destruct (run serve p (read_line (mundo_en s))) as [o w1]. simpl in *.
    destruct o as [[]|e|]; [|destruct H; congruence|destruct H; congruence].
    destruct H as [(_ & H & _)|(_ & _ & ->)]; [congruence|].
    simpl. destruct (stdin w1); simpl in *; lia.
Qed.

Lemma vuelta_stdin_elem (s : sesion S) (l : string) :
  l ∈ stdin (mundo_en (vuelta serve s).2) → l ∈ stdin (mundo_en s).
Proof.
  assert (Ht : ∀ (x : list string), l ∈ tail x → l ∈ x).
  { intros [|y x]; simpl; [done|]. intros H. by right. }
  destruct (vuelta_cases serve s) as [(_ & _ & ->)|(l0 & rest & Hin & H)]; [done|].
  destruct H as [(_ & _ & ->)|[(_ & [(_ & _ & ->)|(_ & _ & ->)])|(p & _ & H)]]; simpl.
  - apply Ht.
  - apply Ht.
  - intros H. by apply Ht, Ht.
  - simpl in H.
    pose proof (run_stdin_elem serve p (read_line (mundo_en s)) l) as Hl. simpl in Hl.
    destruct (run serve p (read_line (mundo_en s))) as [o w1]. simpl in *.
    destruct o as [[]|e|].
    + destruct H as [(_ & _ & ->)|(_ & _ & ->)]; simpl; intros H.
      * by apply Ht, Hl.
      * by apply Ht, Hl, Ht.
    + destruct H as [_ ->]. intros H. by apply Ht, Hl.
    + destruct H as [_ ->]. intros H. by apply Ht, Hl.
Qed.

Lemma vuelta_termino (s : sesion S) :
  (vuelta serve s).1 = Termino →
  ∃ l rest, stdin (mundo_en s) = l :: rest ∧ Text.strip l = "5" ∧
    (vuelta serve s).2
    = Sesion (read_line (mundo_en s))
        (pantalla s ++ (LineaMenu <$> mostrar_menu) ++ [PreguntaOpcion; MsgDespedida]).
Proof.
  destruct s as [w scr]. unfold vuelta, leer_linea. simpl.
  destruct (stdin w) as [|l rest] eqn:Hin; [done|]. simpl.
  destruct (elegir (Text.strip l)) as [p| |] eqn:He.
  - unfold operar. simpl. destruct (run serve p (read_line w)) as [o w1]. simpl.
    destruct o as [[]|e|]; simpl; [|done|done]. by destruct (stdin w1).
  - intros _. exists l, rest. split; [done|]. split; [by apply elegir_salir|].
    unfold mostrar. simpl. by rewrite <- !app_assoc.
  - unfold read_line. simpl. rewrite Hin. by destruct rest.
Qed.

(** The commands one turn sends. *)
Lemma vuelta_trace (s : sesion S) :
  ∃ t, trace (mundo_en (vuelta serve s).2) = trace (mundo_en s) ++ t ∧
       keys_within KEY_PREFIX ALL_BOOKS_KEY t.
Proof.
  assert (Hnil : keys_within KEY_PREFIX ALL_BOOKS_KEY []).
  { intros c r k H. by apply elem_of_nil in H. }
  destruct (vuelta_cases serve s) as [(_ & _ & ->)|(l0 & rest & Hin & H)].
  { exists []. by rewrite app_nil_r. }
  destruct H as [(_ & _ & ->)|[(_ & [(_ & _ & ->)|(_ & _ & ->)])|(p & Hp & H)]];
    try (exists []; simpl; by rewrite app_nil_r).
  simpl in H. exists (issued serve p (read_line (mundo_en s))). split.
  - pose proof (run_trace serve p (read_line (mundo_en s))) as Ht. simpl in Ht.
    destruct (run serve p (read_line (mundo_en s))) as [o w1]. simpl in *.
    destruct o as [[]|e|].
    + by destruct H as [(_ & _ & ->)|(_ & _ & ->)].
    + by destruct H as [_ ->].
    + by destruct H as [_ ->].
  - apply elegir_ejecutar in Hp as [-> | [-> | [-> | ->]]].
    + eapply keys_within_layout, confined_agregar_libro.
    + eapply keys_within_lookups, (confined_listar_libros False False).
    + eapply keys_within_layout, confined_marcar_como_leido.
    + eapply keys_within_layout, confined_eliminar_libro.
Qed.

Lemma keys_within_app (t1 t2 : list (command * reply)) :
  keys_within KEY_PREFIX ALL_BOOKS_KEY t1 → keys_within KEY_PREFIX ALL_BOOKS_KEY t2 →
  keys_within KEY_PREFIX ALL_BOOKS_KEY (t1 ++ t2).
Proof. intros H1 H2 c r k [H|H]%elem_of_app; [by eapply H1|by eapply H2]. Qed.

Lemma main_trace (n : nat) (s : sesion S) :
  ∃ t, trace (mundo_en (main serve n s).2) = trace (mundo_en s) ++ t ∧
       keys_within KEY_PREFIX ALL_BOOKS_KEY t.
Proof.
  revert s. induction n as [|n IH]; intros s; simpl.
  - exists []. split; [by rewrite app_nil_r|]. intros c r k H. by apply elem_of_nil in H.
  - destruct (vuelta_trace s) as (t & Ht & Hk).
    destruct (vuelta serve s) as [f s1] eqn:Hv. simpl in Ht.
    destruct f; simpl; try by exists t.
    destruct (IH s1) as (t' & Ht' & Hk'). exists (t ++ t'). split.
    + by rewrite Ht', Ht, <- app_assoc.
    + by apply keys_within_app.
Qed.

End Sesiones.

(** ** Sessions that only read *)

Lemma elegir_opcion (o : string) (p : prog unit) :
  elegir o = Ejecutar p →
  (o = "1" ∧ p = agregar_libro) ∨ (o = "2" ∧ p = listar_libros) ∨
  (o = "3" ∧ p = marcar_como_leido) ∨ (o = "4" ∧ p = eliminar_libro).
Proof.
  unfold elegir.
  destruct (String.eqb_spec o "1") as [->|_]; [intros [= <-]; auto|].
  destruct (String.eqb_spec o "2") as [->|_]; [intros [= <-]; auto|].
  destruct (String.eqb_spec o "3") as [->|_]; [intros [= <-]; auto|].
  destruct (String.eqb_spec o "4") as [->|_]; [intros [= <-]; auto 6|].
  by destruct (String.eqb o "5").
Qed.

Lemma reads_only_nil : reads_only [].
Proof. intros c r H. by apply elem_of_nil in H. Qed.

Lemma reads_only_listar {S} (serve : S → command → reply * S) (w : world S) :
  reads_only (issued serve listar_libros w).
Proof.
  destruct (lookups_listar serve w) as [Hl _]. intros c r Hcr.
  by apply (lookup_not_write _ c r Hl).
Qed.

(** A turn in which the option typed is none of 1, 3 and 4 runs
    [listar_libros] or no operation. *)
Lemma vuelta_lectura {S} (serve : S → command → reply * S) (s : sesion S) :
  (∀ l, l ∈ stdin (mundo_en s) → Text.strip l ∉ ["1"; "3"; "4"]) →
  mundo_en (vuelta serve s).2 = mundo_en s ∨
  mundo_en (vuelta serve s).2 = read_line (mundo_en s) ∨
  mundo_en (vuelta serve s).2 = read_line (read_line (mundo_en s)) ∨
  mundo_en (vuelta serve s).2 = (run serve listar_libros (read_line (mundo_en s))).2 ∨
  mundo_en (vuelta serve s).2 = read_line (run serve listar_libros (read_line (mundo_en s))).2.
Proof.
  intros Hno.
  destruct (vuelta_cases serve s) as [(_ & _ & ->)|(l & rest & Hin & H)]; [auto|].
  destruct H as [(_ & _ & ->)|[(_ & [(_ & _ & ->)|(_ & _ & ->)])|(p & Hp & H)]]; auto.
  assert (Hl : Text.strip l ∉ ["1"; "3"; "4"]).
  { apply Hno. rewrite Hin. by left. }
  apply elegir_opcion in Hp as [[Ho _] | [[_ ->] | [[Ho _] | [Ho _]]]].
  1,3,4: destruct Hl; rewrite Ho; repeat constructor.
  cbv zeta in H.
  destruct (run serve listar_libros (read_line (mundo_en s))) as [o w1]. cbn [fst snd] in *.
  destruct o as [[]|e|].
  - destruct H as [(_ & _ & ->)|(_ & _ & ->)]; auto 6.
  - destruct H as [_ ->]. auto 6.
  - destruct H as [_ ->]. auto 6.
Qed.

(** ** The operations on a store that holds books only *)

Lemma first_match_cases (db : gmap string entry) (sfx : string) :
  consistent db →
  (∃ b, stored db b ∧ first_match sfx (indexed db) (libro_id b)) ∨
  (∀ b, stored db b → ¬ first_match sfx (indexed db) (libro_id b)).
Proof.
  intros [_ Hc].
  destruct (List.find (λ x, Text.endswith x sfx) (indexed db)) as [id|] eqn:Hf.
  - pose proof (proj2 (find_first_match _ _ _) Hf) as Hfm.
    destruct (Hc id (first_match_elem _ _ _ Hfm)) as [_ [Hn|(b & Hb & Hk)]].
    + right. intros b [_ Hk] Hfm'%find_first_match. rewrite Hf in Hfm'.
      injection Hfm' as Heq. subst id. congruence.
    + left. exists b. subst id. split; [|done]. split; [|done].
      by apply (first_match_elem sfx).
  - right. intros b _ Hfm%find_first_match. congruence.
Qed.

Lemma run_buscar_sin_libro (w : world (gmap string entry)) (sfx : string) :
  consistent (server w) →
  (∀ b, stored (server w) b → ¬ first_match sfx (indexed (server w)) (libro_id b)) →
  ∃ w', run exec (buscar_libro_por_id_parcial sfx) w = (Returned None, w') ∧
        server w' = server w ∧ stdin w' = stdin w ∧
        trace w' = trace w ++ issued exec (buscar_libro_por_id_parcial sfx) w ∧
        reads_only (issued exec (buscar_libro_por_id_parcial sfx) w).
Proof.
  intros [Hidx Hc] Hno.
  pose proof (run_buscar_set w sfx Hidx) as H1. pose proof (server_buscar w sfx) as Hs.
  assert (Hr1 : (run exec (buscar_libro_por_id_parcial sfx) w).1 = Returned None).
  { rewrite H1.
    destruct (List.find _ (indexed (server w))) as [id|] eqn:Hf; [|done].
    pose proof (proj2 (find_first_match _ _ _) Hf) as Hfm.
    destruct (Hc id (first_match_elem _ _ _ Hfm)) as [Hne [Hn|(b & Hb & Hk)]].
    - by rewrite (is_empty_false _ Hne), Hn.
    - subst id. destruct (Hno b); [|done]. split; [|done]. by apply (first_match_elem sfx). }
  clear H1.
  destruct (confined_run exec _ _ _ _ _ (confined_buscar False False sfx) w) as (Hr & Hi & _).
  pose proof (run_trace exec (buscar_libro_por_id_parcial sfx) w) as Ht.
  destruct (run exec (buscar_libro_por_id_parcial sfx) w) as [o w'].
  simpl in *. subst o. exists w'.
  split; [done|]. split; [done|]. split; [tauto|]. split; [done|].
  intros c r Hcr. rewrite Forall_forall in Hr. by destruct (Hr _ Hcr).
Qed.

Lemma run_marcar_sin_libro (w : world (gmap string entry)) (l : string) (rest : list string) :
  consistent (server w) → stdin w = l :: rest → Text.strip l ≠ EmptyString →
  (∀ b, stored (server w) b →
        ¬ first_match (Text.strip l) (indexed (server w)) (libro_id b)) →
  ∃ w', run exec marcar_como_leido w = (Returned tt, w') ∧
        server w' = server w ∧ stdin w' = rest ∧
        last (stdout w') = Some (MsgNoEncontrado (Text.strip l)) ∧
        reads_only (drop (length (trace w)) (trace w')).
Proof.
  intros Hc Hin Hs Hno.
  destruct (run_listar_consistent w Hc) as (bs & _ & _ & Hl).
  unfold marcar_como_leido. rewrite run_bind, Hl. cbv beta match.
  rewrite run_bind, run_fmap, run_input. cbn [stdin]. rewrite Hin. cbv beta match.
  rewrite is_empty_false by done.
  rewrite run_try_except, run_bind.
  match goal with |- context [run exec (buscar_libro_por_id_parcial _) ?w2] =>
    destruct (run_buscar_sin_libro w2 (Text.strip l)) as (w3 & Hb & Hs3 & Hi3 & Ht3 & Hr3);
      [done|done|] end.
  rewrite Hb. cbv beta match. rewrite run_print.
  eexists. split; [reflexivity|]. simpl in Hs3, Hi3, Ht3. cbn [server stdin stdout write_out].
  split; [done|]. split; [done|]. split; [by rewrite last_snoc|].
  cbn [trace write_out]. rewrite Ht3, <- app_assoc, drop_app_length.
  apply reads_only_app; [apply reads_only_recuperar|exact Hr3].
Qed.

Lemma run_eliminar_sin_libro (w : world (gmap string entry)) (l : string) (rest : list string) :
  consistent (server w) → stdin w = l :: rest → Text.strip l ≠ EmptyString →
  (∀ b, stored (server w) b →
        ¬ first_match (Text.strip l) (indexed (server w)) (libro_id b)) →
  ∃ w', run exec eliminar_libro w = (Returned tt, w') ∧
        server w' = server w ∧ stdin w' = rest ∧
        last (stdout w') = Some (MsgNoEncontrado (Text.strip l)) ∧
        reads_only (drop (length (trace w)) (trace w')).
Proof.
  intros Hc Hin Hs Hno.
  destruct (run_listar_consistent w Hc) as (bs & _ & _ & Hl).
  unfold eliminar_libro. rewrite run_bind, Hl. cbv beta match.
  rewrite run_bind, run_fmap, run_input. cbn [stdin]. rewrite Hin. cbv beta match.
  rewrite is_empty_false by done.
  rewrite run_try_except, run_bind.
  match goal with |- context [run exec (buscar_libro_por_id_parcial _) ?w2] =>
    destruct (run_buscar_sin_libro w2 (Text.strip l)) as (w3 & Hb & Hs3 & Hi3 & Ht3 & Hr3);
      [done|done|] end.
  rewrite Hb. cbv beta match. rewrite run_print.
  eexists. split; [reflexivity|]. simpl in Hs3, Hi3, Ht3. cbn [server stdin stdout write_out].
  split; [done|]. split; [done|]. split; [by rewrite last_snoc|].
  cbn [trace write_out]. rewrite Ht3, <- app_assoc, drop_app_length.
  apply reads_only_app; [apply reads_only_recuperar|exact Hr3].
Qed.

(** The runs of [marcar_como_leido] and [eliminar_libro] that stop at the
    question: no line, or a line that is empty once trimmed. *)
Lemma run_pedir_id {S} (serve : S → command → reply * S) (w w1 : world S) :
  run serve listar_libros w = (Returned tt, w1) →
  match stdin w1 with
  | [] =>
      run serve marcar_como_leido w = (Uncaught EOFError, write_out (Prompt PromptMarcar) w1) ∧
      run serve eliminar_libro w = (Uncaught EOFError, write_out (Prompt PromptEliminar) w1)
  | l :: _ =>
      Text.strip l = EmptyString →
      run serve marcar_como_leido w
      = (Returned tt, write_out MsgIdVacio (read_line (write_out (Prompt PromptMarcar) w1))) ∧
      run serve eliminar_libro w
      = (Returned tt, write_out MsgIdVacio (read_line (write_out (Prompt PromptEliminar) w1)))
  end.
Proof.
  intros Hl. unfold marcar_como_leido, eliminar_libro.
  rewrite !run_bind, Hl. cbv beta match. rewrite !run_bind, !run_fmap, !run_input.
  destruct (stdin w1) as [|l rest]; [done|]. intros Hs. cbv beta match. by rewrite Hs.
Qed.

Lemma nuevo_libro_dict (u t a y g : string) :
  nuevo_libro u t a (anio_de y) g = libro_dict (libro_nuevo u t a (anio_de y) g).
Proof.
  unfold nuevo_libro, libro_dict, libro_nuevo. simpl.
  destruct (anio_de_cases y) as [->|(z & ->)]; by destruct (Text.is_empty g).
Qed.

(** ** [agregar_libro] on any input *)

Lemma run_agregar_rechazado {S} (serve : S → command → reply * S) (w : world S)
    (t a : string) (rest : list string) :
  stdin w = t :: a :: rest →
  Text.is_empty (Text.strip t) || Text.is_empty (Text.strip a) = true →
  run serve agregar_libro w
  = (Returned tt,
     World (server w) rest
       (stdout w ++ [MsgAgregarNuevo; Prompt PromptTitulo; Prompt PromptAutor; MsgCamposVacios])
       (uuid_source w) (uuid_count w) (trace w)).
Proof.
  intros Hin He. destruct w as [db inp out src cnt tr]. simpl in *. subst inp.
  unfold agregar_libro. simpl. rewrite He. simpl. unfold write_out, read_line. simpl.
  by rewrite <- !app_assoc.
Qed.

(** The input ends before the four lines of an add are read. *)
Lemma run_agregar_eof {S} (serve : S → command → reply * S) (w : world S) :
  (length (stdin w) < 4)%nat →
  (∀ t a rest, stdin w = t :: a :: rest →
     Text.strip t ≠ EmptyString ∧ Text.strip a ≠ EmptyString) →
  ∃ out,
    run serve agregar_libro w
    = (Uncaught EOFError,
       World (server w) [] (stdout w ++ out) (uuid_source w) (uuid_count w) (trace w)).
Proof.
  intros Hlen Hval. destruct w as [db inp out src cnt tr]. simpl in Hlen, Hval.
  destruct inp as [|t [|a [|y [|g rest]]]]; simpl in Hlen; [| | | |lia].
  - unfold agregar_libro. simpl. unfold write_out. simpl. eexists.
    by rewrite <- !app_assoc.
  - unfold agregar_libro. simpl. unfold write_out, read_line. simpl. eexists.
    by rewrite <- !app_assoc.
  - destruct (Hval t a [] eq_refl) as [Ht Ha].
    unfold agregar_libro. simpl. rewrite !is_empty_false by done. simpl.
    unfold write_out, read_line. simpl. eexists. by rewrite <- !app_assoc.
  - destruct (Hval t a [y] eq_refl) as [Ht Ha].
    unfold agregar_libro. rewrite run_bind. simpl run at 1. cbv beta match.
    rewrite run_bind. simpl run at 1. cbv beta match.
    rewrite run_bind. simpl run at 1. cbv beta match.
    rewrite !is_empty_false by done. cbn [orb].
    rewrite run_bind, (run_leer_anio _ _ y []) by done. cbv beta match.
    rewrite run_bind. simpl run at 1. cbv beta match.
    unfold write_out. simpl. eexists. f_equal. f_equal. rewrite <- !app_assoc. reflexivity.
Qed.

Lemma agregar_efecto (w : world (gmap string entry)) :
  (server (run exec agregar_libro w).2 = server w ∧
   ((run exec agregar_libro w).1 = Returned tt ∨
    (run exec agregar_libro w).1 = Uncaught EOFError))
  ∨ (∃ b, libro_id b = uuid_source w (uuid_count w) ∧
       (run exec agregar_libro w).1 = Returned tt ∧
       server (run exec agregar_libro w).2
       = (exec (<[libro_key (libro_id b) := EStr (Json.dumps (libro_dict b))]> (server w))
               (SADD ALL_BOOKS_KEY (libro_id b))).2).
Proof.
  destruct (stdin w) as [|t [|a rest]] eqn:Hin.
  1,2: left; destruct (run_agregar_eof exec w) as (out & ->);
       [rewrite Hin; simpl; lia|intros ? ? ?; rewrite Hin; discriminate|split; [done|by right]].
  destruct (Text.is_empty (Text.strip t) || Text.is_empty (Text.strip a)) eqn:He.
  { left. rewrite (run_agregar_rechazado exec w t a rest Hin He). split; [done|by left]. }
  apply orb_false_iff in He as [Ht Ha].
  assert (Ht' : Text.strip t ≠ EmptyString) by (intros H; by rewrite H in Ht).
  assert (Ha' : Text.strip a ≠ EmptyString) by (intros H; by rewrite H in Ha).
  destruct rest as [|y [|g rest]].
  1,2: left; destruct (run_agregar_eof exec w) as (out & ->);
       [rewrite Hin; simpl; lia
       |intros ? ? ?; rewrite Hin; intros [= <- <- _]; done
       |split; [done|by right]].
  right. destruct (run_agregar_libro w t a y g rest Hin Ht' Ha') as (out & ->).
  eexists (libro_nuevo _ _ _ (anio_de y) _). split; [reflexivity|]. split; [done|].
  cbn [snd server libro_nuevo libro_id]. by rewrite nuevo_libro_dict.
Qed.

(** ** The index set after a [SADD] *)

Lemma exec_sadd_indexed (db : gmap string entry) (u : string) :
  (∀ v, db !! ALL_BOOKS_KEY ≠ Some (EStr v)) →
  (∀ v, (exec db (SADD ALL_BOOKS_KEY u)).2 !! ALL_BOOKS_KEY ≠ Some (EStr v)) ∧
  ((u ∈ indexed db ∧ indexed (exec db (SADD ALL_BOOKS_KEY u)).2 = indexed db) ∨
   ((u ∉ indexed db) ∧ indexed (exec db (SADD ALL_BOOKS_KEY u)).2 = indexed db ++ [u])).
Proof.
  intros Hidx. unfold indexed, exec.
  destruct (db !! ALL_BOOKS_KEY) as [[v|ms]|] eqn:He; [by destruct (Hidx v)| |].
  - destruct (decide (u ∈ ms)); cbn [snd].
    + rewrite He. split; [done|by left].
    + rewrite lookup_insert_eq. split; [done|by right].
  - cbn [snd]. rewrite lookup_insert_eq. split; [done|]. right. split; [|done].
    apply not_elem_of_nil.
Qed.

Lemma consistent_agregado (db : gmap string entry) (b : libro) :
  consistent db → libro_id b ≠ EmptyString →
  let db2 := (exec (<[libro_key (libro_id b) := EStr (Json.dumps (libro_dict b))]> db)
                (SADD ALL_BOOKS_KEY (libro_id b))).2 in
  consistent db2 ∧ stored db2 b ∧
  ((libro_id b ∈ indexed db ∧ indexed db2 = indexed db) ∨
   ((libro_id b ∉ indexed db) ∧ indexed db2 = indexed db ++ [libro_id b])).
Proof.
  intros [Hidx Hc] Hne db2.
  set (db1 := <[libro_key (libro_id b) := EStr (Json.dumps (libro_dict b))]> db) in *.
  assert (Hidx1 : ∀ v, db1 !! ALL_BOOKS_KEY ≠ Some (EStr v)).
  { intros v. unfold db1. rewrite lookup_insert_ne by apply libro_key_not_index. apply Hidx. }
  assert (Hi1 : indexed db1 = indexed db) by apply indexed_insert_libro.
  destruct (exec_sadd_indexed db1 (libro_id b) Hidx1) as [Hidx2 Hi2].
  fold db2 in Hidx2, Hi2. rewrite Hi1 in Hi2.
  assert (Hk : ∀ id, db2 !! libro_key id = db1 !! libro_key id).
  { intros id. apply exec_sadd_other, libro_key_not_index. }
  assert (Hin2 : ∀ id, id ∈ indexed db2 → id = libro_id b ∨ id ∈ indexed db).
  { intros id Hid. destruct Hi2 as [[_ Hi2]|[_ Hi2]]; rewrite Hi2 in Hid; [by right|].
    apply elem_of_app in Hid as [? | ->%list_elem_of_singleton]; auto. }
  assert (Hb : db2 !! libro_key (libro_id b) = Some (EStr (Json.dumps (libro_dict b)))).
  { rewrite Hk. unfold db1. by rewrite lookup_insert_eq. }
  split; [|split; [|done]].
  - split; [done|]. intros id Hid.
    destruct (decide (id = libro_id b)) as [->|Hd].
    + split; [done|]. right. by exists b.
    + destruct (Hin2 id Hid) as [?|Hid']; [done|].
      rewrite Hk. unfold db1. rewrite lookup_insert_ne; [by apply Hc|].
      intros He%libro_key_inj. congruence.
  - split; [|done]. destruct Hi2 as [[? ->]|[_ ->]]; [done|].
    apply elem_of_app. right. by left.
Qed.

Lemma agregar_consistent (w : world (gmap string entry)) :
  consistent (server w) → uuid_source w (uuid_count w) ≠ EmptyString →
  consistent (server (run exec agregar_libro w).2) ∧
  ((run exec agregar_libro w).1 = Returned tt ∨
   (run exec agregar_libro w).1 = Uncaught EOFError).
Proof.
  intros Hc Hu. destruct (agregar_efecto w) as [[-> Ho]|(b & Hb & Ho & ->)]; [done|].
  split; [|by left]. apply consistent_agregado; [done|congruence].
Qed.

(** ** [marcar_como_leido] and [eliminar_libro] on any input *)

Lemma marcar_efecto (w : world (gmap string entry)) :
  consistent (server w) →
  ((run exec marcar_como_leido w).1 = Returned tt ∨
   (run exec marcar_como_leido w).1 = Uncaught EOFError) ∧
  (server (run exec marcar_como_leido w).2 = server w ∨
   ∃ b, stored (server w) b ∧ libro_leido b = false ∧
        server (run exec marcar_como_leido w).2
        = <[libro_key (libro_id b) := EStr (Json.dumps (libro_dict (leido_true b)))]>
            (server w)).
Proof.
  intros Hc. destruct (run_listar_consistent w Hc) as (bs & _ & _ & Hl).
  pose proof (run_pedir_id exec w _ Hl) as Hp. cbn [stdin] in Hp.
  destruct (stdin w) as [|l rest] eqn:Hin.
  { destruct Hp as [-> _]. split; [by right|by left]. }
  destruct (decide (Text.strip l = EmptyString)) as [Hs|Hs].
  { destruct (Hp Hs) as [-> _]. split; [by left|by left]. }
  destruct (first_match_cases (server w) (Text.strip l) Hc) as [(b & Hst & Hfm)|Hno].
  - destruct (run_marcar_libro w b l rest Hc Hst Hin Hs Hfm) as (w' & -> & _ & Hcases).
    split; [by left|]. cbn [snd].
    destruct Hcases as [(_ & -> & _)|(Hf & -> & _)]; [by left|]. right. by exists b.
  - destruct (run_marcar_sin_libro w l rest Hc Hin Hs Hno) as (w' & -> & Hs' & _).
    split; by left.
Qed.

Lemma eliminar_efecto (w : world (gmap string entry)) :
  consistent (server w) →
  ((run exec eliminar_libro w).1 = Returned tt ∨
   (run exec eliminar_libro w).1 = Uncaught EOFError) ∧
  (server (run exec eliminar_libro w).2 = server w ∨
   ∃ b, stored (server w) b ∧
        server (run exec eliminar_libro w).2 !! libro_key (libro_id b) = None ∧
        indexed (server (run exec eliminar_libro w).2)
        = filter (λ x, x ≠ libro_id b) (indexed (server w)) ∧
        (∀ v, server (run exec eliminar_libro w).2 !! ALL_BOOKS_KEY ≠ Some (EStr v)) ∧
        (∀ k, k ≠ libro_key (libro_id b) → k ≠ ALL_BOOKS_KEY →
              server (run exec eliminar_libro w).2 !! k = server w !! k)).
Proof.
  intros Hc. destruct (run_listar_consistent w Hc) as (bs & _ & _ & Hl).
  pose proof (run_pedir_id exec w _ Hl) as Hp. cbn [stdin] in Hp.
  destruct (stdin w) as [|l rest] eqn:Hin.
  { destruct Hp as [_ ->]. split; [by right|by left]. }
  destruct (decide (Text.strip l = EmptyString)) as [Hs|Hs].
  { destruct (Hp Hs) as [_ ->]. split; [by left|by left]. }
  destruct (first_match_cases (server w) (Text.strip l) Hc) as [(b & Hst & Hfm)|Hno].
  - destruct (run_eliminar_libro w b l rest Hc Hst Hin Hs Hfm)
      as (w' & -> & _ & H1 & H2 & H3 & H4 & _).
    split; [by left|]. right. by exists b.
  - destruct (run_eliminar_sin_libro w l rest Hc Hin Hs Hno) as (w' & -> & Hs' & _).
    split; by left.
Qed.

Lemma marcar_consistent (w : world (gmap string entry)) :
  consistent (server w) → consistent (server (run exec marcar_como_leido w).2).
Proof.
  intros Hc. destruct (marcar_efecto w Hc) as [_ [->|(b & [Hid Hk] & _ & ->)]]; [done|].
  by apply (consistent_insert_libro _ (leido_true b)).
Qed.

Lemma eliminar_consistent (w : world (gmap string entry)) :
  consistent (server w) → consistent (server (run exec eliminar_libro w).2).
Proof.
  intros Hc.
  destruct (eliminar_efecto w Hc) as [_ [->|(b & Hst & Hk & Hi & Hidx & Hsame)]]; [done|].
  split; [done|]. intros id. rewrite Hi. intros [Hne Hid]%list_elem_of_filter_ne.
  rewrite Hsame; [by apply Hc| |apply libro_key_not_index].
  intros He%libro_key_inj. congruence.
Qed.

(** ** The session on a store that holds books only *)

Lemma operacion_consistent (o : string) (p : prog unit) (w : world (gmap string entry)) :
  elegir o = Ejecutar p →
  consistent (server w) → uuid_source w (uuid_count w) ≠ EmptyString →
  consistent (server (run exec p w).2) ∧
  ((run exec p w).1 = Returned tt ∨ (run exec p w).1 = Uncaught EOFError).
Proof.
  intros [-> | [-> | [-> | ->]]]%elegir_ejecutar Hc Hu.
  - by apply agregar_consistent.
  - destruct (run_listar_consistent w Hc) as (bs & _ & _ & ->). split; [done|by left].
  - split; [by apply marcar_consistent|by destruct (marcar_efecto w Hc)].
  - split; [by apply eliminar_consistent|by destruct (eliminar_efecto w Hc)].
Qed.

Lemma vuelta_consistent (s : sesion (gmap string entry)) :
  consistent (server (mundo_en s)) →
  (∀ n, uuid_source (mundo_en s) n ≠ EmptyString) →
  consistent (server (mundo_en (vuelta exec s).2)) ∧
  uuid_source (mundo_en (vuelta exec s).2) = uuid_source (mundo_en s) ∧
  ((vuelta exec s).1 = Termino ∨ (vuelta exec s).1 = Abortado EOFError ∨
   (vuelta exec s).1 = EnCurso).
Proof.
  intros Hc Hu.
  destruct (vuelta_cases exec s) as [(_ & -> & ->)|(l0 & rest & Hin & H)]; [auto|].
  destruct H as [(_ & -> & ->)|[(_ & [(_ & -> & ->)|(_ & -> & ->)])|(p & Hp & H)]]; auto.
  simpl in H.
  destruct (operacion_consistent _ p (read_line (mundo_en s)) Hp) as [Hc1 Ho]; [done|apply Hu|].
  destruct (run_extends exec p (read_line (mundo_en s))) as (Hsrc & _).
  destruct (run exec p (read_line (mundo_en s))) as [o w1]. simpl in *.
  destruct Ho as [-> | ->].
  - destruct H as [(_ & -> & ->)|(_ & -> & ->)]; auto.
  - destruct H as [-> ->]. auto.
Qed.

Lemma first_match_unique (sfx : string) (ms : list string) (id id' : string) :
  first_match sfx ms id → first_match sfx ms id' → id = id'.
Proof. intros H1%find_first_match H2%find_first_match. congruence. Qed.

Lemma omap_ext_in {A B} (f g : A → option B) (l : list A) :
  (∀ x, x ∈ l → f x = g x) → omap f l = omap g l.
Proof.
  induction l as [|x l IH]; intros H; [done|]. cbn.
  rewrite (H x) by (by left). rewrite IH; [done|]. intros y Hy. apply H. by right.
Qed.

Lemma presentes_agregado (db : gmap string entry) (b : libro) :
  (∀ v, db !! ALL_BOOKS_KEY ≠ Some (EStr v)) → libro_id b ∉ indexed db →
  presentes (exec (<[libro_key (libro_id b) := EStr (Json.dumps (libro_dict b))]> db)
               (SADD ALL_BOOKS_KEY (libro_id b))).2
  = presentes db ++ [Json.dumps (libro_dict b)].
Proof.
  intros Hidx Hn.
  set (db1 := <[libro_key (libro_id b) := EStr (Json.dumps (libro_dict b))]> db).
  assert (Hidx1 : ∀ v, db1 !! ALL_BOOKS_KEY ≠ Some (EStr v)).
  { intros v. unfold db1. rewrite lookup_insert_ne by apply libro_key_not_index. apply Hidx. }
  destruct (exec_sadd_indexed db1 (libro_id b) Hidx1) as [_ [[Hin _]|[_ Hi]]].
  { unfold db1 in Hin. by rewrite indexed_insert_libro in Hin. }
  unfold presentes. rewrite Hi. unfold db1 at 2. rewrite indexed_insert_libro, omap_app.
  f_equal.
  - apply omap_ext_in. intros id Hid. unfold string_at.
    rewrite exec_sadd_other by apply libro_key_not_index.
    unfold db1. rewrite lookup_insert_ne; [done|].
    intros He%libro_key_inj. congruence.
  - cbn. unfold string_at. rewrite exec_sadd_other by apply libro_key_not_index.
    unfold db1. by rewrite lookup_insert_eq.
Qed.

(** ** Trimming *)

Lemma rstrip_empty (s : string) :
  Text.rstrip s = EmptyString ↔ Text.all_chars Text.is_space s = true.
Proof.
  induction s as [|c s IH]; simpl; [done|].
  destruct (Text.rstrip s) eqn:Hr.
  - destruct (Text.is_space c); simpl; [|done]. split; [intros _; by apply IH|done].
  - split; [done|]. intros [_ H]%andb_true_iff. apply IH in H. done.
Qed.

Lemma lstrip_all_space (s : string) :
  Text.all_chars Text.is_space (Text.lstrip s) = Text.all_chars Text.is_space s.
Proof.
  induction s as [|c s IH]; simpl; [done|].
  destruct (Text.is_space c) eqn:Hc; simpl; [done|]. by rewrite Hc.
Qed.

Lemma strip_empty (s : string) :
  Text.strip s = EmptyString ↔ Text.all_chars Text.is_space s = true.
Proof. unfold Text.strip. by rewrite rstrip_empty, lstrip_all_space. Qed.

(** ** [agregar_libro] against any server *)

Section Agregar.

Context {S : Type} (serve : S → command → reply * S).

(** With four lines and the two fields filled in, the run reaches the
    [try] of lines 79-91. *)
Lemma run_agregar_hasta_try (w : world S) (t a y g : string) (rest : list string) :
  stdin w = t :: a :: y :: g :: rest →
  Text.strip t ≠ EmptyString → Text.strip a ≠ EmptyString →
  let u := uuid_source w (uuid_count w) in
  let libro := nuevo_libro u (Text.strip t) (Text.strip a) (anio_de y) (Text.strip g) in
  ∃ out,
    run serve agregar_libro w
    = run serve
        (try_except
           (redis_set (libro_key u) (Json.dumps libro);;
            redis_sadd ALL_BOOKS_KEY u;;
            print (MsgAgregado (Text.strip t) (Text.strip a) (Text.last_chars 5 u)))
           is_Exception
           (λ e, print (MsgErrorInsertar e)))
        (World (server w) rest (stdout w ++ out) (uuid_source w)
           (Datatypes.S (uuid_count w)) (trace w)).
Proof.
  intros Hin Ht Ha u libro.
  assert (He : Text.is_empty (Text.strip t) || Text.is_empty (Text.strip a) = false).
  { by rewrite !is_empty_false. }
  destruct w as [db inp out src cnt tr]. simpl in Hin. subst inp.
  simpl in u. subst u.
  unfold agregar_libro. rewrite run_bind. simpl run at 1. cbv beta match.
  rewrite run_bind. simpl run at 1. cbv beta match.
  rewrite run_bind. simpl run at 1. cbv beta match. rewrite He.
  rewrite run_bind, (run_leer_anio _ _ y (g :: rest)) by done. cbv beta match.
  rewrite run_bind. simpl run at 1. cbv beta match.
  rewrite run_bind. simpl run at 1. cbv beta match.
  cbv zeta. fold (libro_key (src cnt)). fold libro.
  unfold write_out, read_line, draw_uuid. cbn [server stdin stdout uuid_source uuid_count trace tail].
  eexists. f_equal. f_equal. rewrite <- !app_assoc. reflexivity.
Qed.

End Agregar.

(** ** Errors no function of the program catches *)

Section SinManejador.

Context {S : Type} (serve : S → command → reply * S).

Lemma run_recuperar_error (w : world S) :
  (serve (server w) (SMEMBERS ALL_BOOKS_KEY)).1 = RError →
  run serve recuperar_libros w
  = (Uncaught RedisError,
     answered (serve (server w) (SMEMBERS ALL_BOOKS_KEY)).2 (SMEMBERS ALL_BOOKS_KEY) RError w).
Proof.
  intros H. unfold recuperar_libros. rewrite run_bind. unfold redis_smembers.
  rewrite run_call, H. reflexivity.
Qed.

(** An exception raised while the books are fetched leaves
    [listar_libros], and the two operations that start by listing. *)
Lemma run_listar_aborta (w w1 : world S) (e : exn) :
  run serve recuperar_libros w = (Uncaught e, w1) →
  run serve listar_libros w = (Uncaught e, w1) ∧
  run serve marcar_como_leido w = (Uncaught e, w1) ∧
  run serve eliminar_libro w = (Uncaught e, w1).
Proof.
  intros H.
  assert (Hl : run serve listar_libros w = (Uncaught e, w1)).
  { unfold listar_libros. by rewrite run_bind, H. }
  split; [done|]. unfold marcar_como_leido, eliminar_libro. by rewrite !run_bind, Hl.
Qed.

(** A turn of the loop in which option 2, 3 or 4 is chosen and the
    operation raises. *)
Lemma vuelta_aborta (s : sesion S) (l : string) (rest : list string) (e : exn) :
  stdin (mundo_en s) = l :: rest →
  Text.strip l ∈ ["2"; "3"; "4"] →
  (run serve recuperar_libros (read_line (mundo_en s))).1 = Uncaught e →
  (vuelta serve s).1 = Abortado e.
Proof.
  intros Hin Hl Hr.
  destruct (run serve recuperar_libros (read_line (mundo_en s))) as [o w1] eqn:Hrun.
  cbn [fst] in Hr. subst o. destruct (run_listar_aborta _ _ _ Hrun) as (H2 & H3 & H4).
  destruct (vuelta_cases serve s) as [(Hnil & _)|(l0 & rest0 & Hin0 & Hcases)]; [congruence|].
  rewrite Hin in Hin0. injection Hin0 as <- <-.
  assert (He : elegir (Text.strip l) = Ejecutar listar_libros
             ∨ elegir (Text.strip l) = Ejecutar marcar_como_leido
             ∨ elegir (Text.strip l) = Ejecutar eliminar_libro).
  { repeat (apply elem_of_cons in Hl as [->|Hl]); [auto..|by apply elem_of_nil in Hl]. }
  destruct Hcases as [(Hx & _)|[(Hx & _)|(p & Hp & Hc)]].
  1,2: destruct He as [He|[He|He]]; congruence.
  cbv zeta in Hc.
  destruct He as [He|[He|He]]; rewrite He in Hp; injection Hp as <-.
  - rewrite H2 in Hc. by destruct Hc.
  - rewrite H3 in Hc. by destruct Hc.
  - rewrite H4 in Hc. by destruct Hc.
Qed.

End SinManejador.

(** ** A stored value that is no JSON text *)

Lemma decodificar_corrupto (js : list (option string)) (acc : list value)
    (pre : list string) (j : string) (post : list string) :
  omap id js = pre ++ j :: post →
  Forall (λ x, x = EmptyString ∨ ∃ v, Json.loads x = Json.Ok v) pre →
  j ≠ EmptyString → Json.loads j = Json.DecodeError →
  decodificar js acc = Raise JSONDecodeError.
Proof.
  intros Hjs Hpre Hj Hl. revert acc pre Hpre Hjs.
  induction js as [|[j0|] js IH]; intros acc pre Hpre Hjs.
  - by destruct pre.
  - rewrite decodificar_cons_some. cbn in Hjs. destruct pre as [|p pre].
    + injection Hjs as -> Hjs. rewrite is_empty_false by done.
      unfold json_loads. by rewrite Hl.
    + injection Hjs as -> Hjs. apply Forall_cons in Hpre as [Hp Hpre].
      destruct (Text.is_empty p) eqn:Hep; [by apply (IH _ pre)|].
      destruct Hp as [->|(v & Hv)]; [done|].
      unfold json_loads. rewrite Hv. by apply (IH _ pre).
  - rewrite decodificar_cons_none. by apply (IH _ pre).
Qed.

(** ** Slices *)

Lemma first_chars_prefix (n : nat) (s : string) :
  (∃ r, s = Text.first_chars n s +:+ r) ∧
  String.length (Text.first_chars n s) = (n `min` String.length s)%nat.
Proof.
  unfold Text.first_chars. revert n. induction s as [|c s IH]; intros [|n]; simpl.
  - split; [by exists EmptyString|done].
  - split; [by exists EmptyString|done].
  - split; [by eexists|done].
  - destruct (IH n) as [(r & Hr) Hl]. split; [|by rewrite Hl].
    exists r. rewrite append_cons. by rewrite <- Hr.
Qed.

Lemma substring_from (s : string) (k n : nat) :
  (String.length s ≤ k + n)%nat →
  ∃ p, s = p +:+ String.substring k n s ∧ String.length p = (k `min` String.length s)%nat.
Proof.
  revert k n. induction s as [|c s IH]; intros k n Hl.
  - exists EmptyString. split; [|by destruct k]. by destruct k, n.
  - destruct k as [|k].
    + exists EmptyString. split; [|done]. rewrite append_nil_l. simpl in Hl.
      destruct n as [|n]; [lia|]. simpl. f_equal.
      destruct (IH 0%nat n) as (p & Hp & Hlen); [simpl; lia|].
      destruct p; [|done]. by rewrite append_nil_l in Hp.
    + simpl in Hl. destruct (IH k n) as (p & Hp & Hlen); [lia|].
      exists (String c p). split; [|simpl; by rewrite Hlen].
      rewrite append_cons. simpl. by rewrite <- Hp.
Qed.

Lemma last_chars_suffix (n : nat) (s : string) :
  ends_with s (Text.last_chars n s) ∧
  String.length (Text.last_chars n s) = (n `min` String.length s)%nat.
Proof.
  unfold Text.last_chars.
  destruct (substring_from s (String.length s - n) n) as (p & Hp & Hl); [lia|].
  split; [by exists p|].
  pose proof (f_equal String.length Hp) as He. rewrite length_append in He. lia.
Qed.

(** ** Updating a [dict] *)

Lemma dict_get_set (k k' : string) (v : value) (d : list (string * value)) :
  dict_get k (dict_set k' v d) = if String.eqb k' k then Some v else dict_get k d.
Proof.
  induction d as [|[k0 v0] d IH]; simpl.
  - done.
  - destruct (String.eqb_spec k0 k') as [->|Hne]; simpl.
    + by destruct (String.eqb k' k).
    + rewrite IH. destruct (String.eqb_spec k0 k) as [->|]; [|done].
      destruct (String.eqb_spec k' k); [congruence|done].
Qed.

Lemma dict_get_snoc (k : string) (l : list (string * value)) (kv : string * value) :
  dict_get k (l ++ [kv])
  = match dict_get k l with
    | Some v => Some v
    | None => if String.eqb kv.1 k then Some kv.2 else None
    end.
Proof.
  induction l as [|[k0 v0] l IH]; simpl; [by destruct kv|].
  by destruct (String.eqb k0 k).
Qed.

Lemma dict_get_update (k : string) (kwargs d : list (string * value)) :
  dict_get k (dict_update kwargs d)
  = match dict_get k (rev kwargs) with
    | Some v => Some v
    | None => dict_get k d
    end.
Proof.
  revert d. induction kwargs as [|kv kwargs IH]; intros d; [done|].
  change (dict_update (kv :: kwargs) d) with (dict_update kwargs (dict_set kv.1 kv.2 d)).
  rewrite IH. simpl. rewrite dict_get_snoc, dict_get_set.
  destruct (dict_get k (rev kwargs)); [done|]. by destruct (String.eqb kv.1 k).
Qed.

Lemma dict_set_keys (k : string) (v : value) (d : list (string * value)) :
  (dict_set k v d).*1 = d.*1 ∨ ((k ∉ d.*1) ∧ (dict_set k v d).*1 = d.*1 ++ [k]).
Proof.
  induction d as [|[k0 v0] d IH]; cbn [dict_set].
  - right. split; [apply not_elem_of_nil|done].
  - destruct (String.eqb_spec k0 k) as [->|Hne]; rewrite !fmap_cons; cbn [fst]; [by left|].
    destruct IH as [->|[Hn ->]]; [by left|right]. split; [|done].
    apply not_elem_of_cons. split; [congruence|done].
Qed.

Lemma dict_set_flat (k : string) (v : value) (d : list (string * value)) :
  NoDup d.*1 → Forall (λ kv, atomic kv.2) d → atomic v →
  NoDup (dict_set k v d).*1 ∧ Forall (λ kv, atomic kv.2) (dict_set k v d).
Proof.
  intros Hnd Hat Hv. split.
  - destruct (dict_set_keys k v d) as [->|[Hn ->]]; [done|].
    apply NoDup_app. split; [done|]. split; [|apply NoDup_singleton].
    intros x Hx ->%list_elem_of_singleton. done.
  - clear Hnd. induction d as [|[k0 v0] d IH]; simpl.
    + by constructor.
    + apply Forall_cons in Hat as [H0 Hat].
      destruct (String.eqb k0 k); constructor; auto.
Qed.

Lemma dict_update_flat (kwargs d : list (string * value)) :
  NoDup d.*1 → Forall (λ kv, atomic kv.2) d → Forall (λ kv, atomic kv.2) kwargs →
  NoDup (dict_update kwargs d).*1 ∧ Forall (λ kv, atomic kv.2) (dict_update kwargs d).
Proof.
  revert d. induction kwargs as [|kv kwargs IH]; intros d Hnd Hat Hkw; [done|].
  apply Forall_cons in Hkw as [Hv Hkw].
  change (dict_update (kv :: kwargs) d) with (dict_update kwargs (dict_set kv.1 kv.2 d)).
  destruct (dict_set_flat kv.1 kv.2 d Hnd Hat Hv) as [H1 H2]. by apply IH.
Qed.

(** ** The text [json.dumps] writes *)

Lemma all_chars_append (p : ascii → bool) (a b : string) :
  Text.all_chars p (a +:+ b) = Text.all_chars p a && Text.all_chars p b.
Proof.
  induction a as [|c a IH]; [done|]. rewrite append_cons. simpl.
  by rewrite IH, andb_assoc.
Qed.

Lemma all_chars_concat (p : ascii → bool) (sep : string) (l : list string) :
  Text.all_chars p sep = true → Forall (λ s, Text.all_chars p s = true) l →
  Text.all_chars p (String.concat sep l) = true.
Proof.
  intros Hsep. induction 1 as [|s l Hs Hl IH]; [done|]. simpl.
  destruct l as [|s' l]; [done|]. rewrite !all_chars_append, Hs, Hsep. exact IH.
Qed.

Lemma printable_escape_char (c : ascii) :
  Text.all_chars printable (Json.escape_char c) = true.
Proof. destruct c as [[] [] [] [] [] [] [] []]; vm_compute; reflexivity. Qed.

Lemma printable_escape (s : string) : Text.all_chars printable (Json.escape s) = true.
Proof.
  induction s as [|c s IH]; [done|]. simpl.
  by rewrite all_chars_append, printable_escape_char, IH.
Qed.

Lemma printable_dumps_str (s : string) : Text.all_chars printable (Json.dumps_str s) = true.
Proof.
  unfold Json.dumps_str. cbn [Text.all_chars].
  by rewrite all_chars_append, printable_escape.
Qed.

Lemma printable_uint (u : uint) :
  Text.all_chars printable (NilEmpty.string_of_uint u) = true.
Proof. induction u; simpl; try done. Qed.

Lemma printable_dumps_int (z : Z) : Text.all_chars printable (Json.dumps_int z) = true.
Proof. destruct z; simpl; first [done | apply printable_uint]. Qed.

(** Induction on a value, the values inside a [list] or a [dict]
    included. *)
Lemma value_ind_nested (P : value → Prop) :
  P PNone → (∀ b, P (PBool b)) → (∀ z, P (PInt z)) → (∀ s, P (PStr s)) →
  (∀ l, Forall P l → P (PList l)) →
  (∀ d, Forall (λ kv, P kv.2) d → P (PDict d)) →
  ∀ v, P v.
Proof.
  intros HN HB HI HS HL HD. fix IH 1. intros [|b|z|s|l|d].
  - exact HN.
  - apply HB.
  - apply HI.
  - apply HS.
  - apply HL. induction l as [|v l IHl]; constructor; [apply IH|exact IHl].
  - apply HD. induction d as [|[k v] d IHd]; constructor; [apply IH|exact IHd].
Qed.

Lemma dumps_printable (v : value) : Text.all_chars printable (Json.dumps v) = true.
Proof.
  induction v as [|b|z|s|l IH|d IH] using value_ind_nested.
  - reflexivity.
  - by destruct b.
  - apply printable_dumps_int.
  - apply printable_dumps_str.
  - change (Json.dumps (PList l))
      with ("[" +:+ String.concat ", " (map Json.dumps l) +:+ "]").
    rewrite !all_chars_append, all_chars_concat; [done|done|].
    by apply Forall_fmap.
  - change (Json.dumps (PDict d))
      with ("{" +:+ String.concat ", "
                      (map (λ kv, Json.dumps_str kv.1 +:+ ": " +:+ Json.dumps kv.2) d) +:+ "}").
    rewrite !all_chars_append, all_chars_concat; [done|done|].
    apply Forall_fmap. eapply Forall_impl; [exact IH|]. intros [k x] Hx. cbn in *.
    by rewrite !all_chars_append, printable_dumps_str, Hx.
Qed.

Lemma confined_guarda_json (p : prog unit) :
  p ∈ [agregar_libro; listar_libros; marcar_como_leido; eliminar_libro] →
  confined guarda_json True True any p.
Proof.
  intros Hp. repeat (apply elem_of_cons in Hp as [->|Hp]); [| | | |by apply elem_of_nil in Hp].
  - unfold agregar_libro, leer_anio. repeat (confine_step || (progress simpl) || (by eexists)).
  - eapply confined_mono; [| | | |apply (confined_listar_libros True True)]; try done.
    intros c [_ Hc]. by destruct c.
  - unfold marcar_como_leido. apply (confined_bind _ _ _ any).
    { eapply confined_mono; [| | | |apply (confined_listar_libros True True)]; try done.
      intros c [_ Hc]. by destruct c. }
    intros _ _. apply (confined_bind _ _ _ any); [confine|]. intros id_parcial _.
    destruct (Text.is_empty id_parcial); [confine|].
    apply confined_try_except; [|confine].
    apply (confined_bind _ _ _ any).
    { eapply confined_mono; [| | | |apply (confined_buscar True True)]; try done.
      intros c [_ Hc]. by destruct c. }
    intros [[libro key]|] _; [|confine].
    destruct (negb (truthy libro)); [confine|].
    apply (confined_bind _ _ _ any); [apply confined_pure, pure_py_get|]. intros leido _.
    destruct (truthy leido); [confine|].
    unfold actualizar_libro. destruct libro; try exact I.
    repeat (confine_step || (progress simpl) || (by eexists) || apply confined_pure, pure_py_item).
  - unfold eliminar_libro. apply (confined_bind _ _ _ any).
    { eapply confined_mono; [| | | |apply (confined_listar_libros True True)]; try done.
      intros c [_ Hc]. by destruct c. }
    intros _ _. apply (confined_bind _ _ _ any); [confine|]. intros id_parcial _.
    destruct (Text.is_empty id_parcial); [confine|].
    apply confined_try_except; [|confine].
    apply (confined_bind _ _ _ any).
    { eapply confined_mono; [| | | |apply (confined_buscar True True)]; try done.
      intros c [_ Hc]. by destruct c. }
    intros [[libro key]|] _; [|confine].
    destruct (negb (truthy libro)); [confine|].
    apply (confined_bind _ _ _ any); [confine|]. intros n _.
    destruct (0 <? n); [|confine].
    apply (confined_bind _ _ _ any); [apply confined_pure, pure_py_item|]. intros id _.
    apply (confined_bind _ _ _ any); [by destruct id|]. intros member _.
    apply (confined_bind _ _ _ any); [confine|]. intros _ _.
    apply (confined_bind _ _ _ any); [apply confined_pure, pure_py_item|]. intros titulo _.
    confine.
Qed.

(* ===================================================================== *)
(** * Further properties of the program *)
(* ===================================================================== *)

(** Property X1. A session on a finite input ends: once the turns allowed
    exceed the number of lines typed, [main] is out of its loop, having
    returned or been left by an exception. *)
Theorem main_termina {S : Type} (serve : S → command → reply * S) (n : nat) (s : sesion S) :
  (length (stdin (mundo_en s)) < n)%nat → (main serve n s).1 ≠ EnCurso.
Proof.
  revert s. induction n as [|n IH]; intros s Hn; [lia|]. simpl.
  pose proof (vuelta_stdin_length serve s) as Hl.
  destruct (vuelta serve s) as [f s1]. simpl in Hl.
  destruct f; try done. apply IH. specialize (Hl eq_refl). lia.
Qed.

Lemma main_termina_witness :
  (main exec 2 (sesion_en (mundo db_dos ["5"]))).1 ≠ EnCurso.
Proof. apply main_termina. simpl. lia. Defined.

(** Property X2. [main] returns through option 5 only: when a session
    ends with [main] returning, some line of the input is 5 once trimmed,
    and the last thing on the terminal is the farewell. *)
Theorem main_sale_por_opcion_5 {S : Type} (serve : S → command → reply * S) (n : nat)
    (s : sesion S) :
  (main serve n s).1 = Termino →
  (∃ l, l ∈ stdin (mundo_en s) ∧ Text.strip l = "5") ∧
  last (pantalla (main serve n s).2) = Some MsgDespedida.
Proof.
  revert s. induction n as [|n IH]; intros s; simpl; [done|].
  pose proof (vuelta_termino serve s) as Ht.
  pose proof (vuelta_stdin_elem serve s) as He.
  destruct (vuelta serve s) as [f s1]. simpl in Ht, He.
  destruct f; simpl; try done.
  - intros _. destruct (Ht eq_refl) as (l & rest & Hin & Hl & ->). split.
    + exists l. split; [|done]. rewrite Hin. by left.
    + cbn [pantalla snd]. by rewrite last_app.
  - intros H. destruct (IH s1 H) as ((l & Hl & H5) & Hlast). split; [|done].
    exists l. split; [by apply He|done].
Qed.

Lemma main_sale_por_opcion_5_witness :
  last (pantalla (main exec 1 (sesion_en (mundo db_dos [" 5 "]))).2) = Some MsgDespedida.
Proof.
  apply (main_sale_por_opcion_5 exec 1 (sesion_en (mundo db_dos [" 5 "]))).
  vm_compute. reflexivity.
Defined.

(** Property X3. During a whole session, against any server, every
    command sent names only the key [libros:ids] and keys that start with
    [libro:]. *)
Theorem main_layout {S : Type} (serve : S → command → reply * S) (n : nat) (s : sesion S) :
  keys_within KEY_PREFIX ALL_BOOKS_KEY (enviados serve n s).
Proof.
  destruct (main_trace serve n s) as (t & Ht & Hk).
  unfold enviados. by rewrite Ht, drop_app_length.
Qed.

(** Property X4. A session in which no line typed is 1, 3 or 4 once
    trimmed sends no command that can change the store, against any server;
    against the in-memory server the store at the end is the store at the
    start. *)
Theorem main_solo_lectura :
  (∀ (S : Type) (serve : S → command → reply * S) (n : nat) (s : sesion S),
     (∀ l, l ∈ stdin (mundo_en s) → Text.strip l ∉ ["1"; "3"; "4"]) →
     reads_only (enviados serve n s)) ∧
  (∀ (n : nat) (s : sesion (gmap string entry)),
     (∀ l, l ∈ stdin (mundo_en s) → Text.strip l ∉ ["1"; "3"; "4"]) →
     server (mundo_en (main exec n s).2) = server (mundo_en s)).
Proof.
  split.
  - intros S serve n s Hno. unfold enviados.
    assert (H : ∃ t, trace (mundo_en (main serve n s).2) = trace (mundo_en s) ++ t ∧
                     reads_only t).
    { revert s Hno. induction n as [|n IH]; intros s Hno; simpl.
      { exists []. split; [by rewrite app_nil_r|apply reads_only_nil]. }
      assert (Hv : ∃ t, trace (mundo_en (vuelta serve s).2) = trace (mundo_en s) ++ t ∧
                        reads_only t).
      { pose proof (run_trace serve listar_libros (read_line (mundo_en s))) as Ht.
        pose proof (reads_only_listar serve (read_line (mundo_en s))) as Hr.
        destruct (vuelta_lectura serve s Hno) as [-> | [-> | [-> | [-> | ->]]]];
          try (exists []; split; [by rewrite app_nil_r|apply reads_only_nil]);
          eexists; (split; [exact Ht|exact Hr]). }
      pose proof (vuelta_stdin_elem serve s) as He.
      destruct (vuelta serve s) as [f s1]. cbn [fst snd] in *.
      destruct Hv as (t & Ht & Hr). destruct f; try by exists t.
      destruct (IH s1) as (t' & Ht' & Hr'); [intros l Hl; by apply Hno, He|].
      exists (t ++ t'). split; [by rewrite Ht', Ht, <- app_assoc|by apply reads_only_app]. }
    destruct H as (t & -> & Hr). by rewrite drop_app_length.
  - intros n. induction n as [|n IH]; intros s Hno; simpl; [done|].
    assert (Hv : server (mundo_en (vuelta exec s).2) = server (mundo_en s)).
    { pose proof (server_listar (read_line (mundo_en s))) as Hs.
      destruct (vuelta_lectura exec s Hno) as [-> | [-> | [-> | [-> | ->]]]]; try done. }
    pose proof (vuelta_stdin_elem exec s) as He.
    destruct (vuelta exec s) as [f s1]. cbn [fst snd] in *.
    destruct f; try done. rewrite IH; [done|]. intros l Hl. by apply Hno, He.
Qed.

Lemma main_solo_lectura_witness :
  server (mundo_en (main exec 3 (sesion_en (mundo db_dos ["2"; ""; "5"]))).2) = db_dos.
Proof.
  destruct main_solo_lectura as [_ H].
  apply (H 3%nat (sesion_en (mundo db_dos ["2"; ""; "5"]))).
  intros l Hl. cbn in Hl.
  repeat (apply elem_of_cons in Hl as [->|Hl]); [| | |by apply elem_of_nil in Hl];
    vm_compute; intros H1;
    repeat (apply elem_of_cons in H1 as [H1|H1]; [discriminate H1|]);
    by apply elem_of_nil in H1.
Defined.

(** Property X5. Against the in-memory server, a session that starts on a
    store that holds books only, the identifiers drawn not empty, leaves a
    store that holds books only after any number of turns, and the only
    exception that can end it is [EOFError], at the end of the input. *)
Theorem main_consistent (n : nat) (s : sesion (gmap string entry)) :
  consistent (server (mundo_en s)) →
  (∀ k, uuid_source (mundo_en s) k ≠ EmptyString) →
  consistent (server (mundo_en (main exec n s).2)) ∧
  ((main exec n s).1 = Termino ∨ (main exec n s).1 = Abortado EOFError ∨
   (main exec n s).1 = EnCurso).
Proof.
  revert s. induction n as [|n IH]; intros s Hc Hu; simpl; [auto|].
  destruct (vuelta_consistent s Hc Hu) as (Hc1 & Hu1 & Hf).
  destruct (vuelta exec s) as [f s1]. simpl in *.
  destruct Hf as [-> | [-> | ->]]; auto.
  apply IH; [done|]. by rewrite Hu1.
Qed.

Lemma main_consistent_witness :
  consistent
    (server (mundo_en (main exec 4 (sesion_en (mundo db_dos ["3"; "11111"; ""; "5"]))).2)).
Proof.
  apply (main_consistent 4 (sesion_en (mundo db_dos ["3"; "11111"; ""; "5"]))).
  - concrete_consistent.
  - intros k. discriminate.
Defined.

(** Property X6. [listar_libros] has no handler: when the server refuses
    [SMEMBERS] on the index key, [listar_libros], [marcar_como_leido] and
    [eliminar_libro] raise the error of the client, the last two before
    they read the identifier; a session in which option 2, 3 or 4 is
    chosen then ends with that exception. *)
Theorem listar_sin_manejador {S : Type} (serve : S → command → reply * S) :
  (∀ w : world S,
     (serve (server w) (SMEMBERS ALL_BOOKS_KEY)).1 = RError →
     (run serve listar_libros w).1 = Uncaught RedisError ∧
     (run serve marcar_como_leido w).1 = Uncaught RedisError ∧
     (run serve eliminar_libro w).1 = Uncaught RedisError ∧
     stdin (run serve marcar_como_leido w).2 = stdin w ∧
     stdin (run serve eliminar_libro w).2 = stdin w) ∧
  (∀ (n : nat) (s : sesion S) (l : string) (rest : list string),
     stdin (mundo_en s) = l :: rest →
     (serve (server (mundo_en s)) (SMEMBERS ALL_BOOKS_KEY)).1 = RError →
     Text.strip l ∈ ["2"; "3"; "4"] →
     (main serve (Datatypes.S n) s).1 = Abortado RedisError).
Proof.
  split.
  - intros w H. pose proof (run_recuperar_error serve w H) as Hr.
    destruct (run_listar_aborta serve _ _ _ Hr) as (H2 & H3 & H4).
    by rewrite H2, H3, H4.
  - intros n s l rest Hin H Hl. simpl.
    assert (Hv : (vuelta serve s).1 = Abortado RedisError).
    { apply (vuelta_aborta serve s l rest _ Hin Hl).
      by rewrite (run_recuperar_error serve (read_line (mundo_en s)) H). }
    destruct (vuelta serve s) as [f s1]. simpl in Hv. by subst f.
Qed.

Lemma listar_sin_manejador_witness :
  (main exec 1 (sesion_en (mundo (<[ALL_BOOKS_KEY := EStr "x"]> ∅) ["2"]))).1
  = Abortado RedisError.
Proof.
  destruct (@listar_sin_manejador _ exec) as [_ H].
  apply (H 0%nat (sesion_en (mundo (<[ALL_BOOKS_KEY := EStr "x"]> ∅) ["2"])) "2" []).
  - reflexivity.
  - vm_compute. reflexivity.
  - vm_compute. by left.
Defined.

(** Property X7. When the value of an indexed identifier is there, not
    empty and no JSON text (those before it in retrieval order being empty
    or decodable), [listar_libros], [marcar_como_leido] and
    [eliminar_libro] raise [JSONDecodeError] without reading a line, and
    the store is left as it is. *)
Theorem valor_corrupto (w : world (gmap string entry)) (pre : list string) (j : string)
    (post : list string) :
  (∀ v, server w !! ALL_BOOKS_KEY ≠ Some (EStr v)) →
  presentes (server w) = pre ++ j :: post →
  Forall (λ x, x = EmptyString ∨ ∃ v, Json.loads x = Json.Ok v) pre →
  j ≠ EmptyString → Json.loads j = Json.DecodeError →
  (run exec listar_libros w).1 = Uncaught JSONDecodeError ∧
  (run exec marcar_como_leido w).1 = Uncaught JSONDecodeError ∧
  (run exec eliminar_libro w).1 = Uncaught JSONDecodeError ∧
  stdin (run exec marcar_como_leido w).2 = stdin w ∧
  stdin (run exec eliminar_libro w).2 = stdin w ∧
  server (run exec eliminar_libro w).2 = server w.
Proof.
  intros Hidx Hp Hpre Hj Hl.
  assert (Hr : ∃ w1, run exec recuperar_libros w = (Uncaught JSONDecodeError, w1) ∧
                     stdin w1 = stdin w ∧ server w1 = server w).
  { unfold recuperar_libros. rewrite run_bind. unfold redis_smembers. rewrite run_call.
    assert (He : exec (server w) (SMEMBERS ALL_BOOKS_KEY)
                 = (RMembers (indexed (server w)), server w)).
    { unfold exec, indexed.
      destruct (server w !! ALL_BOOKS_KEY) as [[v|ms]|] eqn:E; [by destruct (Hidx v)|done|done]. }
    rewrite He. cbn [fst snd run]. rewrite run_bind. unfold redis_mget. rewrite run_call.
    change (exec ?d (MGET ?ks)) with (RArray (string_at d <$> ks), d).
    cbn [fst snd run server answered]. rewrite run_bind.
    rewrite (decodificar_corrupto _ [] pre j post); [|by rewrite presentes_mget|done..].
    cbn [run]. eexists. split; [reflexivity|]. done. }
  destruct Hr as (w1 & Hr & Hin & Hs).
  destruct (run_listar_aborta exec _ _ _ Hr) as (H2 & H3 & H4).
  by rewrite H2, H3, H4.
Qed.

Lemma valor_corrupto_witness :
  (run exec listar_libros (mundo db_corrupto [])).1 = Uncaught JSONDecodeError.
Proof.
  apply (valor_corrupto (mundo db_corrupto []) [] "{" []).
  - intros v. concrete_ne.
  - vm_compute. reflexivity.
  - constructor.
  - discriminate.
  - vm_compute. reflexivity.
Defined.

(** Property X8. An add cut short by the end of the input writes nothing:
    with fewer than four lines (title and author filled in when two lines
    at least are there), [agregar_libro] raises [EOFError], sends no
    command and draws no identifier, against any server. *)
Theorem agregar_entrada_incompleta {S : Type} (serve : S → command → reply * S)
    (w : world S) :
  (length (stdin w) < 4)%nat →
  (∀ t a rest, stdin w = t :: a :: rest →
     Text.strip t ≠ EmptyString ∧ Text.strip a ≠ EmptyString) →
  (run serve agregar_libro w).1 = Uncaught EOFError ∧
  issued serve agregar_libro w = [] ∧
  server (run serve agregar_libro w).2 = server w ∧
  uuid_count (run serve agregar_libro w).2 = uuid_count w ∧
  stdin (run serve agregar_libro w).2 = [].
Proof.
  intros Hlen Hval. destruct (run_agregar_eof serve w Hlen Hval) as (out & Hr).
  split; [by rewrite Hr|]. split.
  - apply issued_from. rewrite Hr. cbn [snd trace]. by rewrite app_nil_r.
  - by rewrite Hr.
Qed.

Lemma agregar_entrada_incompleta_witness :
  (run exec agregar_libro (mundo db_dos ["Ulises"; "Joyce"; "1922"])).1 = Uncaught EOFError.
Proof.
  apply (agregar_entrada_incompleta exec (mundo db_dos ["Ulises"; "Joyce"; "1922"])).
  - simpl. lia.
  - intros t a rest [= <- <- _]. split; concrete_ne.
Defined.

(** Property X9. No error of the server leaves [agregar_libro], and
    nothing is rolled back: when [SET] is refused the run prints the error
    and returns, having sent that command only; when [SET] is done and
    [SADD] refused it prints the error and returns, the commands sent being
    the [SET] and the [SADD]. *)
Theorem agregar_error_del_servidor {S : Type} (serve : S → command → reply * S)
    (w : world S) (t a y g : string) (rest : list string) :
  stdin w = t :: a :: y :: g :: rest →
  Text.strip t ≠ EmptyString → Text.strip a ≠ EmptyString →
  let u := uuid_source w (uuid_count w) in
  let c1 := SET (libro_key u)
              (Json.dumps (nuevo_libro u (Text.strip t) (Text.strip a) (anio_de y)
                             (Text.strip g))) in
  let c2 := SADD ALL_BOOKS_KEY u in
  ((serve (server w) c1).1 = RError →
   (run serve agregar_libro w).1 = Returned tt ∧
   issued serve agregar_libro w = [(c1, RError)] ∧
   last (stdout (run serve agregar_libro w).2) = Some (MsgErrorInsertar RedisError)) ∧
  ((serve (server w) c1).1 = ROk → (serve (serve (server w) c1).2 c2).1 = RError →
   (run serve agregar_libro w).1 = Returned tt ∧
   issued serve agregar_libro w = [(c1, ROk); (c2, RError)] ∧
   last (stdout (run serve agregar_libro w).2) = Some (MsgErrorInsertar RedisError)).
Proof.
  intros Hin Ht Ha u c1 c2.
  destruct (run_agregar_hasta_try serve w t a y g rest Hin Ht Ha) as (out & Hr).
  fold u in Hr. split.
  - intros H1.
    assert (Hrun : run serve agregar_libro w
      = (Returned tt,
         World (serve (server w) c1).2 rest
           ((stdout w ++ out) ++ [MsgErrorInsertar RedisError]) (uuid_source w)
           (Datatypes.S (uuid_count w)) (trace w ++ [(c1, RError)]))).
    { rewrite Hr, run_try_except, run_bind. unfold redis_set. rewrite run_call.
      cbn [server]. fold c1. rewrite H1. reflexivity. }
    split; [by rewrite Hrun|]. split; [apply issued_from; by rewrite Hrun|].
    rewrite Hrun. cbn [snd stdout]. by rewrite last_snoc.
  - intros H1 H2.
    assert (Hrun : run serve agregar_libro w
      = (Returned tt,
         World (serve (serve (server w) c1).2 c2).2 rest
           ((stdout w ++ out) ++ [MsgErrorInsertar RedisError]) (uuid_source w)
           (Datatypes.S (uuid_count w)) (trace w ++ [(c1, ROk); (c2, RError)]))).
    { rewrite Hr, run_try_except, run_bind. unfold redis_set. rewrite run_call.
      cbn [server]. fold c1. rewrite H1. cbn [run]. cbv beta match.
      rewrite run_bind. unfold redis_sadd. rewrite run_call. cbn [server answered].
      fold c2. rewrite H2. cbn [run is_Exception]. unfold answered, write_out.
      cbn [server stdin stdout uuid_source uuid_count trace].
      by rewrite <- app_assoc. }
    split; [by rewrite Hrun|]. split; [apply issued_from; by rewrite Hrun|].
    rewrite Hrun. cbn [snd stdout]. by rewrite last_snoc.
Qed.

Lemma agregar_error_del_servidor_witness :
  issued exec agregar_libro
    (mundo (<[ALL_BOOKS_KEY := EStr "x"]> ∅) ["Ulises"; "Joyce"; "1922"; ""])
  = [(SET (libro_key "cccc-33333")
        (Json.dumps (nuevo_libro "cccc-33333" "Ulises" "Joyce" (PInt 1922) "")), ROk);
     (SADD ALL_BOOKS_KEY "cccc-33333", RError)].
Proof.
  destruct (agregar_error_del_servidor exec
              (mundo (<[ALL_BOOKS_KEY := EStr "x"]> ∅) ["Ulises"; "Joyce"; "1922"; ""])
              "Ulises" "Joyce" "1922" "" []) as [_ H].
  - reflexivity.
  - concrete_ne.
  - concrete_ne.
  - destruct H as (_ & H & _).
    + vm_compute. reflexivity.
    + vm_compute. reflexivity.
    + exact H.
Defined.

(** Property X10. With four lines typed, [agregar_libro] sends no command
    and ends on the validation error exactly when the title or the author
    is made of white space only; otherwise the first command it sends is
    the [SET] of the record under its key. *)
Theorem agregar_escribe_si_valido {S : Type} (serve : S → command → reply * S)
    (w : world S) (t a y g : string) (rest : list string) :
  stdin w = t :: a :: y :: g :: rest →
  if Text.all_chars Text.is_space t || Text.all_chars Text.is_space a
  then issued serve agregar_libro w = [] ∧
       last (stdout (run serve agregar_libro w).2) = Some MsgCamposVacios
  else ∃ r t',
       issued serve agregar_libro w
       = (SET (libro_key (uuid_source w (uuid_count w)))
            (Json.dumps (nuevo_libro (uuid_source w (uuid_count w)) (Text.strip t)
                           (Text.strip a) (anio_de y) (Text.strip g))), r) :: t'.
Proof.
  intros Hin.
  destruct (Text.all_chars Text.is_space t || Text.all_chars Text.is_space a) eqn:Hsp.
  - assert (He : Text.is_empty (Text.strip t) || Text.is_empty (Text.strip a) = true).
    { apply orb_true_iff in Hsp as [H%strip_empty|H%strip_empty]; rewrite H; [done|].
      apply orb_true_r. }
    pose proof (run_agregar_rechazado serve w t a _ Hin He) as Hr. split.
    + apply issued_from. rewrite Hr. cbn [snd trace]. by rewrite app_nil_r.
    + rewrite Hr. cbn [snd stdout]. by rewrite last_app.
  - apply orb_false_iff in Hsp as [Ht Ha].
    assert (Ht' : Text.strip t ≠ EmptyString).
    { intros H%strip_empty. congruence. }
    assert (Ha' : Text.strip a ≠ EmptyString).
    { intros H%strip_empty. congruence. }
    destruct (run_agregar_hasta_try serve w t a y g rest Hin Ht' Ha') as (out & Hr).
    cbv zeta in Hr.
    match type of Hr with _ = run serve ?p ?w1 =>
      pose proof (run_trace serve p w1) as Htr;
      rewrite <- Hr in Htr;
      rewrite issued_try_except, issued_bind in Htr; unfold redis_set in Htr;
      rewrite issued_call in Htr
    end.
    cbn [trace server] in Htr.
    eexists _, _. apply issued_from. rewrite Htr. rewrite <- !app_assoc. reflexivity.
Qed.

Lemma agregar_escribe_si_valido_witness :
  issued exec agregar_libro (mundo db_dos [" "; "Joyce"; "1922"; ""]) = [].
Proof.
  pose proof (agregar_escribe_si_valido exec (mundo db_dos [" "; "Joyce"; "1922"; ""])
                " " "Joyce" "1922" "" [] eq_refl) as H.
  change (Text.all_chars Text.is_space " " || Text.all_chars Text.is_space "Joyce")
    with true in H.
  apply H.
Defined.

(** Property X11. The year read at lines 57-63: a line of decimal digits,
    as many as [int] accepts at most, is the text of a numeral and gives
    its number, never negative; any other line gives no year; the warning
    of the handler is printed exactly when [isdigit] holds of the line and
    [int] refuses it: some character is not a decimal digit (a
    superscript), or the digits are more than [int] accepts. *)
Theorem anio_leido {S : Type} (serve : S → command → reply * S) (w : world S)
    (y : string) (rest : list string) :
  stdin w = y :: rest →
  (run serve leer_anio w).1 = Returned (anio_de y) ∧
  stdin (run serve leer_anio w).2 = rest ∧
  (if negb (Text.is_empty y) && Text.all_chars Text.is_decimal y
      && (N.of_nat (String.length y) <=? Text.int_max_str_digits)%N
   then ∃ d, y = NilEmpty.string_of_uint d ∧ anio_de y = PInt (Z.of_N (N.of_uint d))
   else anio_de y = PNone) ∧
  (∀ z, anio_de y = PInt z → 0 ≤ z) ∧
  (last (stdout (run serve leer_anio w).2) = Some MsgAnioNoValido ↔
   Text.isdigit y = true ∧
   (Text.all_chars Text.is_decimal y = false ∨
    (Text.int_max_str_digits < N.of_nat (String.length y))%N)).
Proof.
  intros Hin. rewrite (run_leer_anio serve w y rest Hin). cbn [fst snd stdin stdout].
  split; [done|]. split; [done|].
  pose proof (anio_de_decimal y) as Hd. split; [|split].
  - destruct (negb (Text.is_empty y) && Text.all_chars Text.is_decimal y
              && (N.of_nat (String.length y) <=? Text.int_max_str_digits)%N).
    + destruct Hd as (d & Hy & Ha & _). by exists d.
    + by destruct Hd.
  - intros z Hz.
    destruct (negb (Text.is_empty y) && Text.all_chars Text.is_decimal y
              && (N.of_nat (String.length y) <=? Text.int_max_str_digits)%N).
    + destruct Hd as (d & _ & Ha & _). rewrite Ha in Hz. injection Hz as <-. lia.
    + destruct Hd as [Ha _]. congruence.
  - rewrite last_app. destruct (Text.isdigit y) eqn:Hdig.
    + apply andb_true_iff in Hdig as [Hne Hdig]. rewrite Hne in Hd. cbn [andb] in Hd.
      destruct (Text.all_chars Text.is_decimal y); cbn [andb] in Hd.
      * destruct (N.leb_spec (N.of_nat (String.length y)) Text.int_max_str_digits) as [Hle|Hgt].
        -- destruct Hd as (d & _ & _ & ->). cbn. split; [done|].
           intros [_ [?|?]]; [done|lia].
        -- destruct Hd as [_ ->]; [|done]. cbn. split; [|done]. intros _. split; [done|by right].
      * destruct Hd as [_ ->]; [|done]. cbn. split; [|done]. intros _. split; [done|by left].
    + cbn. split; [done|]. by intros [? _].
Qed.

Lemma anio_leido_witness :
  (run exec leer_anio (mundo ∅ ["1965"])).1 = Returned (PInt 1965).
Proof.
  destruct (anio_leido exec (mundo ∅ ["1965"]) "1965" []) as (H & _).
  - reflexivity.
  - exact H.
Defined.

(** Property X12. Add, then list: after an add of four lines with title
    and author filled in, on a store that holds books only and with a fresh
    identifier, the books fetched for the listing are those fetched before
    and the new one. *)
Theorem agregar_luego_listar (w : world (gmap string entry)) (t a y g : string)
    (rest : list string) :
  consistent (server w) →
  stdin w = t :: a :: y :: g :: rest →
  Text.strip t ≠ EmptyString → Text.strip a ≠ EmptyString →
  uuid_source w (uuid_count w) ≠ EmptyString →
  uuid_source w (uuid_count w) ∉ indexed (server w) →
  ∃ bs,
    (run exec recuperar_libros w).1 = Returned (libro_dict <$> bs) ∧
    ∀ w2 : world (gmap string entry),
      server w2 = server (run exec agregar_libro w).2 →
      ∃ libros,
        (run exec recuperar_libros w2).1 = Returned libros ∧
        libros ≡ₚ libro_dict (libro_nuevo (uuid_source w (uuid_count w)) (Text.strip t)
                                (Text.strip a) (anio_de y) (Text.strip g))
                  :: (libro_dict <$> bs).
Proof.
  intros Hc Hin Ht Ha Hne Hfresh.
  destruct (consistent_presentes _ Hc) as (bs & Hp & _).
  assert (Hidx : ∀ v, server w !! ALL_BOOKS_KEY ≠ Some (EStr v)) by (by destruct Hc).
  assert (Hdec : ∀ l : list libro,
            Forall2 (λ j libro, Json.loads j = Json.Ok libro)
              ((λ b, Json.dumps (libro_dict b)) <$> l) (libro_dict <$> l)).
  { intros l. apply Forall2_fmap, Forall_Forall2_diag, Forall_forall.
    intros b _. apply loads_libro. }
  exists (rev bs). split.
  { rewrite (run_recuperar_libros w (libro_dict <$> bs) Hidx); [by rewrite fmap_rev|].
    rewrite Hp. apply Hdec. }
  intros w2 Hw2.
  set (b := libro_nuevo _ _ _ _ _).
  destruct (run_agregar_libro w t a y g rest Hin Ht Ha) as (out & Hrun).
  rewrite Hrun in Hw2. cbn [snd server] in Hw2.
  rewrite nuevo_libro_dict in Hw2. fold b in Hw2.
  change (uuid_source w (uuid_count w)) with (libro_id b) in Hw2, Hfresh, Hne.
  destruct (consistent_agregado (server w) b Hc Hne) as ([Hidx2 _] & _ & _).
  pose proof (presentes_agregado (server w) b Hidx Hfresh) as Hp2.
  rewrite <- Hw2 in Hidx2, Hp2.
  eexists. split.
  - rewrite (run_recuperar_libros w2 (libro_dict <$> (bs ++ [b])) Hidx2); [reflexivity|].
    rewrite Hp2, Hp. pose proof (Hdec (bs ++ [b])) as H. rewrite !fmap_app in H.
    rewrite fmap_app. exact H.
  - rewrite fmap_app, rev_app_distr. simpl. by rewrite fmap_rev.
Qed.

Lemma agregar_luego_listar_witness :
  ∃ bs,
    (run exec recuperar_libros (mundo db_dos ["Ulises"; "Joyce"; "1922"; ""])).1
    = Returned (libro_dict <$> bs).
Proof.
  destruct (agregar_luego_listar (mundo db_dos ["Ulises"; "Joyce"; "1922"; ""])
              "Ulises" "Joyce" "1922" "" []) as (bs & H & _).
  - concrete_consistent.
  - reflexivity.
  - concrete_ne.
  - concrete_ne.
  - concrete_ne.
  - vm_compute. intros H. repeat (apply elem_of_cons in H as [H|H]; [discriminate|]).
    by apply elem_of_nil in H.
  - by exists bs.
Defined.



(** Property X14. A suffix that selects no stored book: when no indexed
    identifier ends with the suffix typed, or the first that does has no
    value stored, [marcar_como_leido] and [eliminar_libro] print the
    not-found warning, return, send lookups only and leave the store as it
    is; an identifier without a value stays in the index. *)
Theorem marcar_eliminar_sin_libro (w : world (gmap string entry)) (l : string)
    (rest : list string) :
  consistent (server w) → stdin w = l :: rest → Text.strip l ≠ EmptyString →
  ((∀ id, id ∈ indexed (server w) → ¬ ends_with id (Text.strip l)) ∨
   (∃ id, first_match (Text.strip l) (indexed (server w)) id ∧
          server w !! libro_key id = None)) →
  (run exec marcar_como_leido w).1 = Returned tt ∧
  server (run exec marcar_como_leido w).2 = server w ∧
  last (stdout (run exec marcar_como_leido w).2) = Some (MsgNoEncontrado (Text.strip l)) ∧
  reads_only (issued exec marcar_como_leido w) ∧
  (run exec eliminar_libro w).1 = Returned tt ∧
  server (run exec eliminar_libro w).2 = server w ∧
  last (stdout (run exec eliminar_libro w).2) = Some (MsgNoEncontrado (Text.strip l)) ∧
  reads_only (issued exec eliminar_libro w).
Proof.
  intros Hc Hin Hs Hsel.
  assert (Hno : ∀ b, stored (server w) b →
                     ¬ first_match (Text.strip l) (indexed (server w)) (libro_id b)).
  { intros b [Hid Hk] Hfm. destruct Hsel as [Hn|(id & Hfm' & Hk')].
    - destruct Hfm as (pre & post & _ & He & _). by apply (Hn _ Hid).
    - rewrite (first_match_unique _ _ _ _ Hfm Hfm') in Hk. congruence. }
  destruct (run_marcar_sin_libro w l rest Hc Hin Hs Hno) as (w1 & Hr1 & Hs1 & _ & Hl1 & Ht1).
  destruct (run_eliminar_sin_libro w l rest Hc Hin Hs Hno) as (w2 & Hr2 & Hs2 & _ & Hl2 & Ht2).
  unfold issued. rewrite Hr1, Hr2. done.
Qed.

Lemma marcar_eliminar_sin_libro_witness :
  server (run exec eliminar_libro (mundo db_dos ["zzz"])).2 = db_dos.
Proof.
  apply (marcar_eliminar_sin_libro (mundo db_dos ["zzz"]) "zzz" []).
  - concrete_consistent.
  - reflexivity.
  - concrete_ne.
  - left. apply find_no_match. vm_compute. reflexivity.
Defined.

(** Property X15. On a store that holds books only, whatever is typed,
    [eliminar_libro] leaves a store that holds books only, and every book
    stored before is afterwards still stored, value and index entry, or
    gone from both. *)
Theorem eliminar_todo_o_nada (w : world (gmap string entry)) :
  consistent (server w) →
  consistent (server (run exec eliminar_libro w).2) ∧
  ∀ b, stored (server w) b →
    stored (server (run exec eliminar_libro w).2) b ∨
    (server (run exec eliminar_libro w).2 !! libro_key (libro_id b) = None ∧
     libro_id b ∉ indexed (server (run exec eliminar_libro w).2)).
Proof.
  intros Hc. split; [by apply eliminar_consistent|].
  intros b [Hid Hk].
  destruct (eliminar_efecto w Hc) as [_ [->|(b0 & Hst & Hk0 & Hi & Hidx & Hsame)]].
  { left. by split. }
  destruct (decide (libro_id b = libro_id b0)) as [He|Hne].
  - right. rewrite He. split; [done|]. rewrite Hi.
    intros [? _]%list_elem_of_filter_ne. done.
  - left. split.
    + rewrite Hi. by apply list_elem_of_filter_ne.
    + rewrite Hsame; [done| |apply libro_key_not_index].
      intros H%libro_key_inj. done.
Qed.

Lemma eliminar_todo_o_nada_witness :
  stored (server (run exec eliminar_libro (mundo db_dos ["22211"])).2) libro_dune.
Proof.
  destruct (eliminar_todo_o_nada (mundo db_dos ["22211"])) as [_ H].
  - concrete_consistent.
  - destruct (H libro_dune) as [Hs|[Hk _]].
    + concrete_stored.
    + exact Hs.
    + vm_compute in Hk. discriminate.
Defined.

(** Property X16. The fragment shown in the listing selects the book:
    the search for the last five characters of the identifier of a stored
    book returns that book and its key, provided no other indexed
    identifier ends with them. *)
Theorem fragmento_mostrado (w : world (gmap string entry)) (b : libro) :
  consistent (server w) → stored (server w) b →
  (∀ id, id ∈ indexed (server w) →
         ends_with id (Text.last_chars 5 (libro_id b)) → id = libro_id b) →
  (run exec (buscar_libro_por_id_parcial (Text.last_chars 5 (libro_id b))) w).1
  = Returned (Some (libro_dict b, libro_key (libro_id b))).
Proof.
  intros Hc Hst Huniq.
  assert (Hfm : first_match (Text.last_chars 5 (libro_id b)) (indexed (server w)) (libro_id b)).
  { apply find_first_match.
    destruct (List.find _ (indexed (server w))) as [x|] eqn:Hf.
    - apply find_some in Hf as [Hx He]. apply list_elem_of_In in Hx.
      apply endswith_spec in He. by rewrite (Huniq x Hx He).
    - destruct Hst as [Hid _]. apply list_elem_of_In in Hid.
      pose proof (find_none _ _ Hf _ Hid) as Hn. cbv beta in Hn.
      destruct (last_chars_suffix 5 (libro_id b)) as [He%endswith_spec _]. congruence. }
  destruct (run_buscar_libro w b _ Hc Hst Hfm) as (w' & -> & _). done.
Qed.

Lemma fragmento_mostrado_witness :
  (run exec (buscar_libro_por_id_parcial "11111") (mundo db_dos [])).1
  = Returned (Some (libro_dict libro_dune, libro_key "aaaa-11111")).
Proof.
  apply (fragmento_mostrado (mundo db_dos []) libro_dune).
  - concrete_consistent.
  - concrete_stored.
  - intros id Hid He. apply endswith_spec in He. vm_compute in Hid.
    repeat (apply elem_of_cons in Hid as [->|Hid]); [done|by vm_compute in He|].
    by apply elem_of_nil in Hid.
Defined.

(** Property X17. The row [listar_libros] prints for a book: the
    identifier cell is the end of the identifier, five characters at most;
    the title and author cells are the beginnings of the title and of the
    author, 35 and 25 characters at most; the year cell shows N/A exactly
    when the year is absent or 0; the last cell follows the flag. *)
Theorem fila_de_un_libro (b : libro) :
  ∃ f, fila_de (libro_dict b) = Ret f ∧
    ends_with (libro_id b) (fila_id f) ∧
    String.length (fila_id f) = (5 `min` String.length (libro_id b))%nat ∧
    (∃ r, libro_titulo b = fila_titulo f +:+ r) ∧
    String.length (fila_titulo f) = (35 `min` String.length (libro_titulo b))%nat ∧
    (∃ r, libro_autor b = fila_autor f +:+ r) ∧
    String.length (fila_autor f) = (25 `min` String.length (libro_autor b))%nat ∧
    (fila_anio f = None ↔ libro_anio b = None ∨ libro_anio b = Some 0) ∧
    (∀ z, libro_anio b = Some z → z ≠ 0 → fila_anio f = Some (PInt z)) ∧
    fila_leido f = libro_leido b.
Proof.
  exists (fila_libro b). split; [apply fila_de_libro|].
  unfold fila_libro. cbn [fila_id fila_titulo fila_autor fila_anio fila_leido].
  destruct (last_chars_suffix 5 (libro_id b)) as [H1 H2].
  destruct (first_chars_prefix 35 (libro_titulo b)) as [H3 H4].
  destruct (first_chars_prefix 25 (libro_autor b)) as [H5 H6].
  repeat (split; [done|]). split; [|split; [|done]].
  - destruct (libro_anio b) as [z|]; [|split; auto].
    destruct (Z.eqb_spec z 0) as [->|Hz]; [split; auto|].
    split; [done|]. intros [?|[= ?]]; done.
  - intros z -> Hz. by destruct (Z.eqb_spec z 0).
Qed.

(** Property X18. [actualizar_libro] on a [dict] of atomic values with
    distinct keys: it sends one [SET], of the encoding of the updated
    [dict] under the key given, and returns that [dict]; the encoding
    decodes to it; in it a key of [kwargs] has the value given and every
    other key the value it had. *)
Theorem actualizar_y_releer (w : world (gmap string entry)) (d kwargs : list (string * value))
    (key : string) :
  NoDup d.*1 → Forall (λ kv, atomic kv.2) d → Forall (λ kv, atomic kv.2) kwargs →
  (run exec (actualizar_libro (PDict d) key kwargs) w).1
  = Returned (PDict (dict_update kwargs d)) ∧
  issued exec (actualizar_libro (PDict d) key kwargs) w
  = [(SET key (Json.dumps (PDict (dict_update kwargs d))), ROk)] ∧
  server (run exec (actualizar_libro (PDict d) key kwargs) w).2
  = <[key := EStr (Json.dumps (PDict (dict_update kwargs d)))]> (server w) ∧
  Json.loads (Json.dumps (PDict (dict_update kwargs d))) = Json.Ok (PDict (dict_update kwargs d)) ∧
  ∀ k, dict_get k (dict_update kwargs d)
       = match dict_get k (rev kwargs) with
         | Some v => Some v
         | None => dict_get k d
         end.
Proof.
  intros Hnd Hat Hkw.
  assert (Hrun : run exec (actualizar_libro (PDict d) key kwargs) w
    = (Returned (PDict (dict_update kwargs d)),
       answered (<[key := EStr (Json.dumps (PDict (dict_update kwargs d)))]> (server w))
         (SET key (Json.dumps (PDict (dict_update kwargs d)))) ROk w)).
  { unfold actualizar_libro. cbv zeta. rewrite run_bind. unfold redis_set. rewrite run_call.
    change (exec ?db (SET ?k ?v)) with (ROk, <[k := EStr v]> db). reflexivity. }
  split; [by rewrite Hrun|]. split; [apply issued_from; by rewrite Hrun|].
  split; [by rewrite Hrun|]. split; [|intros k; apply dict_get_update].
  destruct (dict_update_flat kwargs d Hnd Hat Hkw) as [H1 H2].
  by apply loads_dumps_flat.
Qed.

Lemma actualizar_y_releer_witness :
  server (run exec (actualizar_libro (PDict [("leido", PBool false)]) "libro:x"
                      [("leido", PBool true)]) (mundo ∅ [])).2
  = <[ "libro:x" := EStr (Json.dumps (PDict [("leido", PBool true)])) ]> ∅.
Proof.
  destruct (actualizar_y_releer (mundo ∅ []) [("leido", PBool false)]
              [("leido", PBool true)] "libro:x") as (_ & _ & H & _).
  - apply NoDup_singleton.
  - by repeat constructor.
  - by repeat constructor.
  - exact H.
Defined.

(** Property X19. What the program stores is plain text: [json.dumps]
    writes printable ASCII characters only, and the value of every [SET]
    an operation sends, against any server, is such an encoding. *)
Theorem valores_guardados :
  (∀ v, Text.all_chars printable (Json.dumps v) = true) ∧
  (∀ (S : Type) (serve : S → command → reply * S) (w : world S) (p : prog unit)
     (k v : string) (r : reply),
     p ∈ [agregar_libro; listar_libros; marcar_como_leido; eliminar_libro] →
     (SET k v, r) ∈ issued serve p w →
     (∃ x, v = Json.dumps x) ∧ Text.all_chars printable v = true).
Proof.
  split; [apply dumps_printable|].
  intros S serve w p k v r Hp Hin.
  destruct (confined_run serve _ _ _ _ _ (confined_guarda_json p Hp) w) as (Hc & _).
  rewrite Forall_forall in Hc. destruct (Hc _ Hin) as (x & ->).
  split; [by exists x|apply dumps_printable].
Qed.
